(** * UTXO ledger core: binary codec and transaction validator

    A shallow embedding of the codec of [src/utils/binary-encoding.ts]
    ([encodeTransaction], [decodeTransaction] and their helpers) and of the
    class [TransactionValidator], with the properties of the specification
    proved, corrected or refuted on it.

    Conventions of the embedding.
    - A JavaScript [string] is the list of its UTF-16 code units.
    - A JavaScript [number] is modelled by its exact value, a rational in
      canonical form ([Qc]).  Not-a-number and the infinities are not among
      the numbers of a transaction or of the store; every number that these
      can hold is a value of the model, not the converse.
    - The additions of the validator are those of the platform ([JS.add]):
      the exact sum is rounded to the nearest double, or to an infinity.
    - A [Buffer] is the list of its bytes, each an integer in [0, 255].
    - A thrown exception is the [Throw] case of [result]. *)

From Stdlib Require Import String Ascii DecimalString.
From Stdlib Require Import ZArith List Lia Bool QArith Qcanon.
From stdpp Require Import base decidable countable gmap sets.
Import ListNotations.

Local Open Scope Z_scope.

(** ** JavaScript primitives used by the source *)

Module JS.

(** UTF-16 code units. *)
Definition string : Type := list Z.

Definition is_code_unit (u : Z) : bool := (0 <=? u) && (u <? 0x10000).
Definition is_high_surrogate (u : Z) : bool := (0xD800 <=? u) && (u <=? 0xDBFF).
Definition is_low_surrogate (u : Z) : bool := (0xDC00 <=? u) && (u <=? 0xDFFF).

(** A string literal of the source, all of whose characters are ASCII. *)
Definition lit (s : String.string) : string :=
  map (fun a => Z.of_N (Ascii.N_of_ascii a)) (String.list_ascii_of_string s).

(** The code points a string denotes.  A surrogate pair is one code point;
    a surrogate that is not part of a pair is replaced by U+FFFD, which is
    what every UTF-8 encoder of the platform does. *)
Fixpoint code_points (s : string) : list Z :=
  match s with
  | [] => []
  | u :: rest =>
      if is_high_surrogate u then
        match rest with
        | v :: rest' =>
            if is_low_surrogate v
            then (0x10000 + (u - 0xD800) * 0x400 + (v - 0xDC00)) :: code_points rest'
            else 0xFFFD :: code_points rest
        | [] => [0xFFFD]
        end
      else if is_low_surrogate u then 0xFFFD :: code_points rest
      else u :: code_points rest
  end.

(** The UTF-16 code units of a code point. *)
Definition utf16_of_code_point (c : Z) : string :=
  if c <? 0x10000 then [c]
  else [0xD800 + (c - 0x10000) / 0x400; 0xDC00 + (c - 0x10000) mod 0x400].

(** The UTF-8 bytes of a code point. *)
Definition utf8_of_code_point (c : Z) : list Z :=
  if c <? 0x80 then [c]
  else if c <? 0x800 then [0xC0 + c / 64; 0x80 + c mod 64]
  else if c <? 0x10000 then
    [0xE0 + c / 4096; 0x80 + (c / 64) mod 64; 0x80 + c mod 64]
  else
    [0xF0 + c / 262144; 0x80 + (c / 4096) mod 64;
     0x80 + (c / 64) mod 64; 0x80 + c mod 64].

(** [Buffer.from(str, 'utf8')]. *)
Definition utf8_encode (s : string) : list Z :=
  flat_map utf8_of_code_point (code_points s).

(** The UTF-8 decoder is the state machine of the Encoding Standard: an
    ill-formed sequence yields U+FFFD and decoding resumes at the byte that
    broke it. *)
Record decoder : Type := mkDecoder {
  code_point : Z;
  bytes_needed : nat;
  lower_boundary : Z;
  upper_boundary : Z
}.

Definition decoder_init : decoder := mkDecoder 0 0 0x80 0xBF.

(** A byte met when no sequence is open. *)
Definition decoder_start (b : Z) : list Z * decoder :=
  if (0 <=? b) && (b <=? 0x7F) then ([b], decoder_init)
  else if (0xC2 <=? b) && (b <=? 0xDF) then
    ([], mkDecoder (b mod 32) 1 0x80 0xBF)
  else if (0xE0 <=? b) && (b <=? 0xEF) then
    ([], mkDecoder (b mod 16) 2
           (if b =? 0xE0 then 0xA0 else 0x80)
           (if b =? 0xED then 0x9F else 0xBF))
  else if (0xF0 <=? b) && (b <=? 0xF4) then
    ([], mkDecoder (b mod 8) 3
           (if b =? 0xF0 then 0x90 else 0x80)
           (if b =? 0xF4 then 0x8F else 0xBF))
  else ([0xFFFD], decoder_init).

Definition decoder_step (d : decoder) (b : Z) : list Z * decoder :=
  match bytes_needed d with
  | O => decoder_start b
  | S n =>
      if (lower_boundary d <=? b) && (b <=? upper_boundary d) then
        let c := code_point d * 64 + b mod 64 in
        match n with
        | O => ([c], decoder_init)
        | S _ => ([], mkDecoder c n 0x80 0xBF)
        end
      else
        let '(out, d') := decoder_start b in (0xFFFD :: out, d')
  end.

Fixpoint decoder_run (d : decoder) (bytes : list Z) : list Z :=
  match bytes with
  | [] => match bytes_needed d with O => [] | S _ => [0xFFFD] end
  | b :: rest =>
      let '(out, d') := decoder_step d b in out ++ decoder_run d' rest
  end.

(** [buf.toString('utf8')]. *)
Definition utf8_decode (bytes : list Z) : string :=
  flat_map utf16_of_code_point (decoder_run decoder_init bytes).

(** A well-formed string: code units in range and every surrogate paired. *)
Fixpoint well_formed (s : string) : bool :=
  match s with
  | [] => true
  | u :: rest =>
      is_code_unit u &&
      (if is_high_surrogate u then
         match rest with
         | v :: rest' => is_low_surrogate v && well_formed rest'
         | [] => false
         end
       else negb (is_low_surrogate u) && well_formed rest)
  end.

(** A Unicode scalar value: a code point that is not a surrogate. *)
Definition is_scalar (c : Z) : Prop :=
  (0 <= c < 0xD800) \/ (0xE000 <= c < 0x110000).

(** Numbers, by their exact value. *)
Definition number : Type := Qc.

Definition int (z : Z) : number := Q2Qc (inject_Z z).

Definition is_integer (n : number) : bool := (Qden n =? 1)%positive.

(** [n <= 0] on numbers. *)
Definition le_zero (n : number) : bool := bool_decide (n <= 0)%Qc.

(** The value of a sum of numbers: a number, or an infinity when the sum
    is beyond the largest double.  Not-a-number does not come out of a sum
    of numbers. *)
Inductive float : Type :=
| Finite (n : number)
| Infinity (negative : bool).

(** The [e] with [2^e <= |num / den| < 2^(e+1)], for [num <> 0]. *)
Definition floor_log2 (num : Z) (den : positive) : Z :=
  let e := Z.log2 (Z.abs num) - Z.log2 (Z.pos den) in
  if (if 0 <=? e then Z.pos den * 2 ^ e <=? Z.abs num
      else Z.pos den <=? Z.abs num * 2 ^ (- e))
  then e else e - 1.

(** The integer nearest to [num / den], for [0 < den]; of two that are as
    near, the even one. *)
Definition nearest_even (num den : Z) : Z :=
  let f := num / den in
  let r := num mod den in
  if 2 * r <? den then f
  else if den <? 2 * r then f + 1
  else if Z.even f then f else f + 1.

(** Rounding to a double (IEEE 754 binary64, to nearest, ties to even): a
    multiple of [2^p] is kept, where [p] leaves 53 significant bits and is
    at least -1074; a rounded value of [2^1024] or more is an infinity. *)
Definition round (q : Q) : float :=
  if Qnum q =? 0 then Finite (int 0)
  else
    let p := Z.max (floor_log2 (Qnum q) (Qden q) - 52) (-1074) in
    if 0 <=? p then
      let n := nearest_even (Qnum q) (Z.pos (Qden q) * 2 ^ p) in
      if 2 ^ 1024 <=? Z.abs n * 2 ^ p then Infinity (n <? 0)
      else Finite (int (n * 2 ^ p))
    else
      let n := nearest_even (Qnum q * 2 ^ (- p)) (Z.pos (Qden q)) in
      Finite (Q2Qc (Qmake n (Z.to_pos (2 ^ (- p))))).

(** [a + b], where [a] is a running total and [b] a number. *)
Definition add (a : float) (b : number) : float :=
  match a with
  | Finite x => round (x + b)%Qc
  | Infinity negative => Infinity negative
  end.

(** [a !== b]. *)
Definition strict_neq (a b : float) : bool :=
  match a, b with
  | Finite x, Finite y => negb (bool_decide (x = y))
  | Infinity negative, Infinity negative' => negb (Bool.eqb negative negative')
  | _, _ => true
  end.

(** What the source can throw: [new Error(message)], and the [RangeError]
    of [BigInt()] and of the [Buffer] accessors. *)
Inductive exn : Type :=
| Error (message : String.string)
| RangeError.

Inductive result (A : Type) : Type :=
| Ok (a : A)
| Throw (e : exn).
Arguments Ok {A} a.
Arguments Throw {A} e.

Definition bind {A B} (r : result A) (k : A -> result B) : result B :=
  match r with
  | Ok a => k a
  | Throw e => Throw e
  end.

(** [BigInt(n)]: a [RangeError] unless [n] is an integer. *)
Definition BigInt (n : number) : result Z :=
  if is_integer n then Ok (Qnum n) else Throw RangeError.

(** [Number(b)] for a bigint [b].  The conversion rounds to the nearest
    double; it is exact on every [b] that [BigInt] produced from a number,
    and those are the values the round trip is about. *)
Definition Number (b : Z) : number := int b.

(** ** Buffers *)
Definition Buffer : Type := list Z.

(** [Buffer.from(array)]: every element is stored modulo 256. *)
Definition Buffer_from (bytes : list Z) : Buffer :=
  map (fun b => b mod 256) bytes.

(** [Buffer.concat(parts)]. *)
Definition Buffer_concat (parts : list Buffer) : Buffer := concat parts.

(** The [n] low bytes of [v], most significant first. *)
Fixpoint be_bytes (n : nat) (v : Z) : list Z :=
  match n with
  | O => []
  | S n => be_bytes n (v / 256) ++ [v mod 256]
  end.

Definition be_value (bytes : list Z) : Z :=
  fold_left (fun acc b => acc * 256 + b) bytes 0.

(** [buf.writeBigUInt64BE(v)] on a fresh eight-byte buffer: a [RangeError]
    unless [0 <= v < 2^64]. *)
Definition writeBigUInt64BE (v : Z) : result Buffer :=
  if (0 <=? v) && (v <? 2 ^ 64) then Ok (be_bytes 8 v) else Throw RangeError.

(** [buf.readUInt8(offset)]: a [RangeError] past the end of the buffer. *)
Definition readUInt8 (buf : Buffer) (offset : nat) : result Z :=
  match nth_error buf offset with
  | Some b => Ok b
  | None => Throw RangeError
  end.

(** [buf.readBigUInt64BE(offset)]: a [RangeError] unless eight bytes are
    there. *)
Definition readBigUInt64BE (buf : Buffer) (offset : nat) : result Z :=
  if (offset + 8 <=? length buf)%nat
  then Ok (be_value (firstn 8 (skipn offset buf)))
  else Throw RangeError.

(** [buf.subarray(start, end)]: the indices are clamped to the buffer, no
    exception. *)
Definition subarray (buf : Buffer) (start end_ : nat) : Buffer :=
  firstn (end_ - start) (skipn start buf).

End JS.

Notation "'let*' x ':=' e 'in' k" :=
  (JS.bind e (fun x => k))
  (at level 10, x name, e at level 100, k at level 200).
Notation "'let*' ' p ':=' e 'in' k" :=
  (JS.bind e (fun p => k))
  (at level 10, p strict pattern, e at level 100, k at level 200).


(** ** Data model

    Modelled from the spec: the types of [src/types.ts], which is not among
    the sources, are those of section 3 of the specification, with the
    fields that the codec and the validator read and build. *)

Record UTXOId : Type := mkUTXOId {
  txId : JS.string;
  outputIndex : JS.number
}.

Record TransactionInput : Type := mkInput {
  utxoId : UTXOId;
  owner : JS.string;
  signature : JS.string
}.

Record TransactionOutput : Type := mkOutput {
  amount : JS.number;
  recipient : JS.string
}.

Record Transaction : Type := mkTransaction {
  id : JS.string;
  inputs : list TransactionInput;
  outputs : list TransactionOutput;
  timestamp : JS.number
}.

(** ** The codec ([src/utils/binary-encoding.ts]) *)

Module Codec.
Import JS.

Definition writeString (str : string) : result Buffer :=
  let data := utf8_encode str in
  if (255 <? length data)%nat then Throw (Error "String too long"%string)
  else Ok (Buffer_concat [Buffer_from [Z.of_nat (length data)]; data]).

Definition writeNumber (num : number) : result Buffer :=
  let* big := BigInt num in
  writeBigUInt64BE big.

Definition writeInput (input : TransactionInput) (parts : list Buffer)
  : result (list Buffer) :=
  let* p1 := writeString (txId (utxoId input)) in
  let parts := parts ++ [p1] in
  let* p2 := writeNumber (outputIndex (utxoId input)) in
  let parts := parts ++ [p2] in
  let* p3 := writeString (owner input) in
  let parts := parts ++ [p3] in
  let* p4 := writeString (signature input) in
  Ok (parts ++ [p4]).

Definition writeOutput (output : TransactionOutput) (parts : list Buffer)
  : result (list Buffer) :=
  let* p1 := writeNumber (amount output) in
  let parts := parts ++ [p1] in
  let* p2 := writeString (recipient output) in
  Ok (parts ++ [p2]).

(** The two [for ... of] loops of [encodeTransaction]. *)
Fixpoint writeInputs (ins : list TransactionInput) (parts : list Buffer)
  : result (list Buffer) :=
  match ins with
  | [] => Ok parts
  | input :: rest =>
      let* parts := writeInput input parts in writeInputs rest parts
  end.

Fixpoint writeOutputs (outs : list TransactionOutput) (parts : list Buffer)
  : result (list Buffer) :=
  match outs with
  | [] => Ok parts
  | output :: rest =>
      let* parts := writeOutput output parts in writeOutputs rest parts
  end.

Definition encodeTransaction (transaction : Transaction) : result Buffer :=
  let parts : list Buffer := [] in
  let* p := writeString (id transaction) in
  let parts := parts ++ [p] in
  let* p := writeNumber (timestamp transaction) in
  let parts := parts ++ [p] in
  if (255 <? length (inputs transaction))%nat
  then Throw (Error "Inputs too long"%string)
  else
    let parts :=
      parts ++ [Buffer_from [Z.of_nat (length (inputs transaction))]] in
    let* parts := writeInputs (inputs transaction) parts in
    if (255 <? length (outputs transaction))%nat
    then Throw (Error "Outputs too long"%string)
    else
      let parts :=
        parts ++ [Buffer_from [Z.of_nat (length (outputs transaction))]] in
      let* parts := writeOutputs (outputs transaction) parts in
      Ok (Buffer_concat parts).

Definition readString (buffer : Buffer) (offset : nat)
  : result (string * nat) :=
  let* length := readUInt8 buffer offset in
  let start := (offset + 1)%nat in
  let end_ := (start + Z.to_nat length)%nat in
  let value := utf8_decode (subarray buffer start end_) in
  Ok (value, end_).

Definition readNumber (buffer : Buffer) (offset : nat)
  : result (number * nat) :=
  let* big := readBigUInt64BE buffer offset in
  Ok (Number big, (offset + 8)%nat).

Definition readInput (buffer : Buffer) (offset : nat)
  : result (TransactionInput * nat) :=
  let* '(txId, offsetOne) := readString buffer offset in
  let* '(outputIndex, offsetTwo) := readNumber buffer offsetOne in
  let* '(owner, offsetThree) := readString buffer offsetTwo in
  let* '(signature, offsetFour) := readString buffer offsetThree in
  Ok (mkInput (mkUTXOId txId outputIndex) owner signature, offsetFour).

Definition readOutput (buffer : Buffer) (offset : nat)
  : result (TransactionOutput * nat) :=
  let* '(amount, offsetOne) := readNumber buffer offset in
  let* '(recipient, offsetTwo) := readString buffer offsetOne in
  Ok (mkOutput amount recipient, offsetTwo).

(** The two counting loops of [decodeTransaction]: [count] iterations are
    left, [acc] is the array pushed to so far. *)
Fixpoint readInputs (buffer : Buffer) (count : nat)
    (acc : list TransactionInput) (offset : nat)
  : result (list TransactionInput * nat) :=
  match count with
  | O => Ok (acc, offset)
  | S count =>
      let* '(input, nextOffset) := readInput buffer offset in
      readInputs buffer count (acc ++ [input]) nextOffset
  end.

Fixpoint readOutputs (buffer : Buffer) (count : nat)
    (acc : list TransactionOutput) (offset : nat)
  : result (list TransactionOutput * nat) :=
  match count with
  | O => Ok (acc, offset)
  | S count =>
      let* '(output, nextOffset) := readOutput buffer offset in
      readOutputs buffer count (acc ++ [output]) nextOffset
  end.

Definition decodeTransaction (buffer : Buffer) : result Transaction :=
  let offset := 0%nat in
  let* '(id, offsetOne) := readString buffer offset in
  let offset := offsetOne in
  let* '(timestamp, offsetTwo) := readNumber buffer offset in
  let offset := offsetTwo in
  let* inputsAmount := readUInt8 buffer offset in
  let offset := (offset + 1)%nat in
  let* '(inputs, offset) :=
    readInputs buffer (Z.to_nat inputsAmount) [] offset in
  let* outputsAmount := readUInt8 buffer offset in
  let offset := (offset + 1)%nat in
  let* '(outputs, offset) :=
    readOutputs buffer (Z.to_nat outputsAmount) [] offset in
  Ok (mkTransaction id inputs outputs timestamp).

End Codec.

(** ** The invariants of the codec (specification, section 3) *)

Module Limits.
Import JS.

(** At most 255 UTF-8 bytes. *)
Definition string_ok (s : string) : bool :=
  (length (utf8_encode s) <=? 255)%nat.

(** A non-negative integer representable in 64 bits. *)
Definition number_ok (n : number) : bool :=
  is_integer n && (0 <=? Qnum n) && (Qnum n <? 2 ^ 64).

Definition input_ok (i : TransactionInput) : bool :=
  string_ok (txId (utxoId i)) && number_ok (outputIndex (utxoId i)) &&
  string_ok (owner i) && string_ok (signature i).

Definition output_ok (o : TransactionOutput) : bool :=
  number_ok (amount o) && string_ok (recipient o).

Definition within_limits (tx : Transaction) : bool :=
  string_ok (id tx) && number_ok (timestamp tx) &&
  (length (inputs tx) <=? 255)%nat && forallb input_ok (inputs tx) &&
  (length (outputs tx) <=? 255)%nat && forallb output_ok (outputs tx).

(** The string fields and the numeric fields of a transaction. *)
Definition input_strings (i : TransactionInput) : list string :=
  [txId (utxoId i); owner i; signature i].

Definition tx_strings (tx : Transaction) : list string :=
  id tx :: flat_map input_strings (inputs tx) ++ map recipient (outputs tx).

Definition tx_numbers (tx : Transaction) : list number :=
  timestamp tx :: map (fun i => outputIndex (utxoId i)) (inputs tx)
               ++ map amount (outputs tx).

(** No string field has an unpaired surrogate. *)
Definition strings_well_formed (tx : Transaction) : bool :=
  forallb well_formed (tx_strings tx).

(** The wire format of section 4.1, field by field. *)
Definition string_bytes (s : string) : Buffer :=
  Z.of_nat (length (utf8_encode s)) :: utf8_encode s.

Definition number_bytes (n : number) : Buffer := be_bytes 8 (Qnum n).

Definition input_bytes (i : TransactionInput) : Buffer :=
  string_bytes (txId (utxoId i)) ++ number_bytes (outputIndex (utxoId i)) ++
  string_bytes (owner i) ++ string_bytes (signature i).

Definition output_bytes (o : TransactionOutput) : Buffer :=
  number_bytes (amount o) ++ string_bytes (recipient o).

Definition layout (tx : Transaction) : Buffer :=
  string_bytes (id tx) ++ number_bytes (timestamp tx) ++
  [Z.of_nat (length (inputs tx))] ++ flat_map input_bytes (inputs tx) ++
  [Z.of_nat (length (outputs tx))] ++ flat_map output_bytes (outputs tx).

(** [buffer.subarray(0, buffer.length - k)]: the buffer without its last
    [k] bytes. *)
Definition truncate (k : nat) (buffer : Buffer) : Buffer :=
  subarray buffer 0 (length buffer - k).

(** What a string becomes when it is encoded in UTF-8 and decoded: itself
    when it is well formed, and otherwise the string with every unpaired
    surrogate replaced by U+FFFD. *)
Definition reread (s : string) : string := utf8_decode (utf8_encode s).

Definition reread_input (i : TransactionInput) : TransactionInput :=
  mkInput (mkUTXOId (reread (txId (utxoId i))) (outputIndex (utxoId i)))
          (reread (owner i)) (reread (signature i)).

Definition reread_output (o : TransactionOutput) : TransactionOutput :=
  mkOutput (amount o) (reread (recipient o)).

Definition reread_transaction (tx : Transaction) : Transaction :=
  mkTransaction (reread (id tx)) (map reread_input (inputs tx))
                (map reread_output (outputs tx)) (timestamp tx).

(** An output whose recipient has lost the last [k] bytes of its UTF-8
    form. *)
Definition cut_recipient (k : nat) (o : TransactionOutput)
  : TransactionOutput :=
  mkOutput (amount o)
    (utf8_decode (firstn (length (utf8_encode (recipient o)) - k)
                         (utf8_encode (recipient o)))).

(** The ways encoding a field can fail: an oversized string, or a number
    that is not an unsigned 64-bit integer. *)
Definition field_failure (strings_ok numbers_ok : bool) (e : exn) : Prop :=
  (e = Error "String too long" /\ strings_ok = false) \/
  (e = RangeError /\ numbers_ok = false).

End Limits.

(** ** The validator (class [TransactionValidator]) *)

(** Modelled from the spec: the declarations of [src/errors.ts], which is not
    among the sources.  A validation error is a kind from the enumeration of
    section 4.2 and a message; a result is the flag [valid] and the errors
    found. *)
Inductive VALIDATION_ERRORS : Type :=
| EMPTY_INPUTS
| EMPTY_OUTPUTS
| UTXO_NOT_FOUND
| NEGATIVE_AMOUNT
| INVALID_SIGNATURE
| DOUBLE_SPENDING
| AMOUNT_MISMATCH.

Record ValidationError : Type := mkValidationError {
  code : VALIDATION_ERRORS;
  message : JS.string
}.

Record ValidationResult : Type := mkValidationResult {
  valid : bool;
  errors : list ValidationError
}.

Definition createValidationError (code : VALIDATION_ERRORS)
    (message : JS.string) : ValidationError :=
  mkValidationError code message.

(** Modelled from the spec: the unspent output that the store returns
    ([src/types.ts], section 3): an amount, a recipient and the identifier of
    the output it comes from. *)
Record UTXO : Type := mkUTXO {
  utxo_id : UTXOId;
  utxo_amount : JS.number;
  utxo_recipient : JS.string
}.

(** The values [JSON.stringify] is applied to: strings, numbers, arrays,
    the objects that the source builds, with their fields in the order of
    their creation, and the objects of the caller that the source puts
    into them as they are: the [utxoId] of an input and the [outputs] of a
    transaction.  How these are written is up to [JSON.stringify]. *)
#[warnings="-register-all"]
Inductive json : Type :=
| JString (s : JS.string)
| JNumber (n : JS.number)
| JArray (items : list json)
| JObject (fields : list (string * json))
| JUTXOId (u : UTXOId)
| JOutputs (outs : list TransactionOutput).

Definition code_eqb (a b : VALIDATION_ERRORS) : bool :=
  match a, b with
  | EMPTY_INPUTS, EMPTY_INPUTS | EMPTY_OUTPUTS, EMPTY_OUTPUTS
  | UTXO_NOT_FOUND, UTXO_NOT_FOUND | NEGATIVE_AMOUNT, NEGATIVE_AMOUNT
  | INVALID_SIGNATURE, INVALID_SIGNATURE | DOUBLE_SPENDING, DOUBLE_SPENDING
  | AMOUNT_MISMATCH, AMOUNT_MISMATCH => true
  | _, _ => false
  end.

(** How many errors of a kind a list has. *)
Definition count_code (c : VALIDATION_ERRORS) (l : list ValidationError) : nat :=
  length (filter (fun e => code_eqb (code e) c) l).

Module Validator.
Import JS.

Section WithCollaborators.

(** The collaborators of the validator, which are outside the sources:
    the lookup of the store ([UTXOPoolManager.getUTXO], which returns
    nothing for an unknown output), the verification primitive
    ([verify] of [src/utils/crypto.ts]), the canonical key of an output
    ([getUTXOKey] of [src/types.ts]), the conversion of a number or of a
    total to text in a template literal, and [JSON.stringify]. *)
Variable getUTXO : string -> number -> option UTXO.
Variable verify : string -> string -> string -> bool.
Variable getUTXOKey : UTXOId -> string.
Variable toString : float -> string.
Variable JSON_stringify : json -> string.

Definition validateNonEmptyInputsAndOutputs (transaction : Transaction)
  : list ValidationError :=
  let errors : list ValidationError := [] in
  let errors :=
    if (length (inputs transaction) =? 0)%nat
    then errors ++ [createValidationError EMPTY_INPUTS (lit "Empty inputs")]
    else errors in
  let errors :=
    if (length (outputs transaction) =? 0)%nat
    then errors ++ [createValidationError EMPTY_OUTPUTS (lit "Empty outputs")]
    else errors in
  errors.

(** The loop of [validateBalance] over the outputs: the errors and the
    running total, to which [+=] adds with the addition of the
    platform. *)
Fixpoint validateBalance_loop (outs : list TransactionOutput)
    (errors : list ValidationError) (outputsTotal : float)
  : list ValidationError * float :=
  match outs with
  | [] => (errors, outputsTotal)
  | output :: rest =>
      let errors :=
        if le_zero (amount output)
        then errors ++
             [createValidationError NEGATIVE_AMOUNT
                (lit "Output amount can not be negative or zero: "
                 ++ toString (Finite (amount output)))]
        else errors in
      let outputsTotal := add outputsTotal (amount output) in
      validateBalance_loop rest errors outputsTotal
  end.

Definition validateBalance (inputsTotal : float) (transaction : Transaction)
  : list ValidationError :=
  let '(errors, outputsTotal) :=
    validateBalance_loop (outputs transaction) [] (Finite (int 0)) in
  if strict_neq inputsTotal outputsTotal
  then errors ++
       [createValidationError AMOUNT_MISMATCH
          (lit "AMOUNTS MISMATCH: " ++ toString inputsTotal
           ++ lit " != " ++ toString outputsTotal)]
  else errors.

(** [utxos] and [errors] are mutated in place by the source; here the
    new values are returned. *)
Definition validateDoubleSpending (input : TransactionInput)
    (utxos : gset string) (errors : list ValidationError)
  : gset string * list ValidationError :=
  let utxoKey := getUTXOKey (utxoId input) in
  if bool_decide (utxoKey ∈ utxos)
  then (utxos,
        errors ++
        [createValidationError DOUBLE_SPENDING
           (lit "This UTXO is referenced multiple times within the same transaction: "
            ++ utxoKey)])
  else ({[ utxoKey ]} ∪ utxos, errors).

(** The object literal of [createTransactionDataForSigning_].  Its
    [id] and [timestamp] are values; [input.utxoId] and
    [transaction.outputs] are the objects of the caller, put in as they
    are and not rebuilt. *)
Definition unsignedTx (transaction : Transaction) : json :=
  JObject
    [("id", JString (id transaction));
     ("inputs",
      JArray
        (map (fun input =>
                JObject
                  [("utxoId", JUTXOId (utxoId input));
                   ("owner", JString (owner input))])
             (inputs transaction)));
     ("outputs", JOutputs (outputs transaction));
     ("timestamp", JNumber (timestamp transaction))]%string.

Definition createTransactionDataForSigning_ (transaction : Transaction)
  : string :=
  JSON_stringify (unsignedTx transaction).

Definition validateInputSignature (transaction : Transaction)
    (input : TransactionInput) (errors : list ValidationError)
  : list ValidationError :=
  let transactionData := createTransactionDataForSigning_ transaction in
  let isValid := verify transactionData (signature input) (owner input) in
  if negb isValid
  then errors ++
       [createValidationError INVALID_SIGNATURE (lit "invalid signature")]
  else errors.

(** The variables of [validateTransaction] that its loop updates. *)
Record state : Type := mkState {
  st_errors : list ValidationError;
  imputTotal : float;
  utxos : gset string
}.

Definition validateTransaction_body (transaction : Transaction)
    (input : TransactionInput) (st : state) : state :=
  let utxo :=
    getUTXO (txId (utxoId input)) (outputIndex (utxoId input)) in
  match utxo with
  | None =>
      mkState
        (st_errors st ++
         [createValidationError UTXO_NOT_FOUND
            (lit "Utxo not found: " ++ txId (utxoId input) ++ lit ":"
             ++ toString (Finite (outputIndex (utxoId input))))])
        (imputTotal st) (utxos st)
  | Some utxo =>
      let errors :=
        if le_zero (utxo_amount utxo)
        then st_errors st ++
             [createValidationError NEGATIVE_AMOUNT
                (lit "Utxo amount must be positive")]
        else st_errors st in
      let imputTotal := add (imputTotal st) (utxo_amount utxo) in
      let errors := validateInputSignature transaction input errors in
      let '(utxos, errors) :=
        validateDoubleSpending input (utxos st) errors in
      mkState errors imputTotal utxos
  end.

Fixpoint validateTransaction_loop (transaction : Transaction)
    (ins : list TransactionInput) (st : state) : state :=
  match ins with
  | [] => st
  | input :: rest =>
      validateTransaction_loop transaction rest
        (validateTransaction_body transaction input st)
  end.

Definition validateTransaction (transaction : Transaction)
  : ValidationResult :=
  let errors : list ValidationError := [] in
  let errors := errors ++ validateNonEmptyInputsAndOutputs transaction in
  let st :=
    validateTransaction_loop transaction (inputs transaction)
      (mkState errors (Finite (int 0)) ∅) in
  let errors :=
    st_errors st ++ validateBalance (imputTotal st) transaction in
  mkValidationResult (length errors =? 0)%nat errors.

(** The value of [imputTotal] when the loop over the inputs ends, which
    is the [inputsTotal] that [validateBalance] is called with. *)
Definition inputsTotal (transaction : Transaction) : float :=
  imputTotal
    (validateTransaction_loop transaction (inputs transaction)
       (mkState ([] ++ validateNonEmptyInputsAndOutputs transaction)
                (Finite (int 0)) ∅)).

End WithCollaborators.

End Validator.

(** ** What the validator is checked against *)

Module ValidatorSpec.
Import JS.

Section WithCollaborators.

Variable getUTXO : string -> number -> option UTXO.

(** The amounts that the loop over the inputs adds to the total: that of
    the output of each input that resolves. *)
Definition input_amounts (input : TransactionInput) : list number :=
  match getUTXO (txId (utxoId input)) (outputIndex (utxoId input)) with
  | Some utxo => [utxo_amount utxo]
  | None => []
  end.

Definition resolved_amounts (ins : list TransactionInput) : list number :=
  flat_map input_amounts ins.

(** The amount an input brings: that of the output it refers to, and
    nothing when the store does not have it. *)
Definition input_amount (input : TransactionInput) : number :=
  match getUTXO (txId (utxoId input)) (outputIndex (utxoId input)) with
  | Some utxo => utxo_amount utxo
  | None => 0%Qc
  end.

(** The exact sum of the amounts of the inputs that resolve. *)
Definition resolved_total (ins : list TransactionInput) : number :=
  fold_right (fun input total => (input_amount input + total)%Qc) 0%Qc ins.

(** The exact sum of the amounts of the outputs. *)
Definition outputs_total (outs : list TransactionOutput) : number :=
  fold_right (fun output total => (amount output + total)%Qc) 0%Qc outs.

End WithCollaborators.

(** A total as the program computes it: the amounts are added to [start]
    one by one, in order, each sum rounded to a double. *)
Definition sum_from (start : float) (amounts : list number) : float :=
  fold_left add amounts start.

Definition computed_total (amounts : list number) : float :=
  sum_from (Finite (int 0)) amounts.

(** The exact sum of some amounts. *)
Definition exact_sum (amounts : list number) : number :=
  fold_right Qcplus 0%Qc amounts.

(** Amounts that are integers and whose sums, taken from [acc] on, are
    all below [2^53] in absolute value. *)
Fixpoint safe_from (acc : Z) (amounts : list number) : bool :=
  match amounts with
  | [] => true
  | a :: rest =>
      is_integer a && (Z.abs (acc + Qnum a) <? 2 ^ 53) &&
      safe_from (acc + Qnum a) rest
  end.

Definition safe_integers (amounts : list number) : bool :=
  safe_from 0 amounts.

(** The inputs of a transaction without their signatures. *)
Definition unsigned_inputs (tx : Transaction) : list (UTXOId * string) :=
  map (fun input => (utxoId input, owner input)) (inputs tx).

(** A string occurs in another. *)
Fixpoint starts_with (s prefix : string) : bool :=
  match prefix, s with
  | [], _ => true
  | a :: prefix', b :: s' => (a =? b) && starts_with s' prefix'
  | _ :: _, [] => false
  end.

Fixpoint occurs_in (s part : string) : bool :=
  starts_with s part ||
  match s with
  | [] => false
  | _ :: rest => occurs_in rest part
  end.

(** An error of any kind but [AMOUNT_MISMATCH]. *)
Definition not_mismatch (e : ValidationError) : Prop :=
  code e <> AMOUNT_MISMATCH.

(** A transaction with other signatures on its inputs. *)
Definition resign (f : TransactionInput -> string) (tx : Transaction)
  : Transaction :=
  mkTransaction (id tx)
    (map (fun input => mkInput (utxoId input) (owner input) (f input))
         (inputs tx))
    (outputs tx) (timestamp tx).

(** The names of the fields of the objects that the source builds in a
    JSON value. *)
Fixpoint json_keys (j : json) : list String.string :=
  match j with
  | JString _ | JNumber _ | JUTXOId _ | JOutputs _ => []
  | JArray items => flat_map json_keys items
  | JObject fields =>
      flat_map (fun field => fst field :: json_keys (snd field)) fields
  end.

End ValidatorSpec.

(** ** Sample transactions *)

Module Samples.
Import JS.

(** One input, one output; the recipient has an accented letter and the
    signature a character outside the basic plane (a surrogate pair). *)
Definition sample_tx : Transaction :=
  mkTransaction (lit "tx-1")
    [mkInput (mkUTXOId (lit "genesis") (int 0)) (lit "alice")
             (lit "sig-" ++ [0xD83D; 0xDE00])]
    [mkOutput (int 100) ([0x62; 0xF6; 0x62] ++ lit "-alice")]
    (int 1700000000).

(** A transaction whose [id] is one unpaired high surrogate. *)
Definition lone_surrogate_tx : Transaction :=
  mkTransaction [0xD800] [] [] (int 0).

(** A transaction whose recipient ends with an unpaired low surrogate. *)
Definition lone_surrogate_output_tx : Transaction :=
  mkTransaction (lit "t") [] [mkOutput (int 1) (lit "bob" ++ [0xDC00])] (int 0).

Definition filler_input : TransactionInput :=
  mkInput (mkUTXOId (lit "t") (int 0)) (lit "o") (lit "s").

Definition filler_output : TransactionOutput :=
  mkOutput (int 1) (lit "r").

(** Everything at its limit: 255 inputs, 255 outputs, an [id] of 255 bytes
    and, as timestamp, the largest double below [2^64]. *)
Definition tx_at_limits : Transaction :=
  mkTransaction (repeat 0x61 255) (repeat filler_input 255)
                (repeat filler_output 255) (int (2 ^ 64 - 2048)).

Definition tx_256_inputs : Transaction :=
  mkTransaction (lit "t") (repeat filler_input 256) [filler_output] (int 0).

Definition tx_256_outputs : Transaction :=
  mkTransaction (lit "t") [filler_input] (repeat filler_output 256) (int 0).

Definition tx_256_bytes : Transaction :=
  mkTransaction (lit "t") [filler_input]
                [mkOutput (int 1) (repeat 0x61 256)] (int 0).

(** A recipient of one byte. *)
Definition tx_short_recipient : Transaction :=
  mkTransaction (lit "t") [filler_input] [filler_output] (int 0).

(** A negative timestamp, and an amount of one half. *)
Definition tx_negative : Transaction :=
  mkTransaction (lit "t") [] [filler_output] (int (-5)).

Definition tx_fractional : Transaction :=
  mkTransaction (lit "t") [] [mkOutput (Q2Qc (1 # 2)) (lit "r")] (int 0).

(** A store with two outputs of a transaction "genesis": number 0 holds 100
    for alice, number 1 holds -5 for bob (an amount that no store should
    hold). *)
Definition sample_getUTXO (txId : string) (outputIndex : number)
  : option UTXO :=
  if bool_decide (txId = lit "genesis") then
    if bool_decide (outputIndex = int 0)
    then Some (mkUTXO (mkUTXOId txId outputIndex) (int 100) (lit "alice"))
    else if bool_decide (outputIndex = int 1)
    then Some (mkUTXO (mkUTXOId txId outputIndex) (int (-5)) (lit "bob"))
    else None
  else None.

(** Verifiers for the examples: one accepts the signature "sig-" followed
    by the owner, the other accepts everything. *)
Definition sample_verify (message signature owner : string) : bool :=
  bool_decide (signature = lit "sig-" ++ owner).

Definition lax_verify (message signature owner : string) : bool := true.

(** Stand-ins for the conversions of the platform: a number as its
    numerator and denominator in decimal, a JSON value with its strings
    unescaped. *)
Definition decimal (z : Z) : string :=
  lit (NilEmpty.string_of_int (Z.to_int z)).

Definition sample_toString (x : float) : string :=
  match x with
  | Finite n =>
      if is_integer n then decimal (Qnum n)
      else decimal (Qnum n) ++ lit "/" ++ decimal (Z.pos (Qden n))
  | Infinity negative =>
      if negative then lit "-Infinity" else lit "Infinity"
  end.

Definition sample_getUTXOKey (u : UTXOId) : string :=
  txId u ++ lit ":" ++ sample_toString (Finite (outputIndex u)).

Fixpoint sample_stringify (j : json) : string :=
  match j with
  | JString s => lit "'" ++ s ++ lit "'"
  | JNumber n => sample_toString (Finite n)
  | JUTXOId u =>
      lit "{txId:'" ++ txId u ++ lit "',outputIndex:"
      ++ sample_toString (Finite (outputIndex u)) ++ lit ",}"
  | JOutputs outs =>
      lit "["
      ++ flat_map (fun output =>
                     lit "{amount:" ++ sample_toString (Finite (amount output))
                     ++ lit ",recipient:'" ++ recipient output ++ lit "',},")
                  outs
      ++ lit "]"
  | JArray items =>
      lit "[" ++ flat_map (fun item => sample_stringify item ++ lit ",") items
      ++ lit "]"
  | JObject fields =>
      lit "{"
      ++ flat_map (fun field => lit (fst field) ++ lit ":"
                                ++ sample_stringify (snd field) ++ lit ",")
                  fields
      ++ lit "}"
  end.

(** Alice spends output 0 (100) to bob; [amount] is what bob receives. *)
Definition spend (amount : Z) : Transaction :=
  mkTransaction (lit "tx-2")
    [mkInput (mkUTXOId (lit "genesis") (int 0)) (lit "alice") (lit "sig-alice")]
    [mkOutput (int amount) (lit "bob")] (int 1700000001).

(** A verifier that differs from [sample_verify] on every message but the
    payload of [spend 100]. *)
Definition picky_verify (message signature owner : string) : bool :=
  sample_verify message signature owner &&
  bool_decide
    (message =
     Validator.createTransactionDataForSigning_ sample_stringify (spend 100)).

Definition sample_validate : Transaction -> ValidationResult :=
  Validator.validateTransaction
    sample_getUTXO sample_verify sample_getUTXOKey sample_toString
    sample_stringify.

(** The same output spent twice in one transaction. *)
Definition spend_twice : Transaction :=
  mkTransaction (lit "tx-3")
    [mkInput (mkUTXOId (lit "genesis") (int 0)) (lit "alice") (lit "sig-alice");
     mkInput (mkUTXOId (lit "genesis") (int 0)) (lit "alice") (lit "sig-alice")]
    [mkOutput (int 200) (lit "bob")] (int 1700000002).

(** An input that the store does not have, beside one that it has. *)
Definition spend_unknown : Transaction :=
  mkTransaction (lit "tx-4")
    [mkInput (mkUTXOId (lit "genesis") (int 0)) (lit "alice") (lit "sig-alice");
     mkInput (mkUTXOId (lit "nowhere") (int 7)) (lit "alice") (lit "sig-alice")]
    [mkOutput (int 150) (lit "bob")] (int 1700000003).


End Samples.

(** ** Sizes on the wire *)

Module Sizes.
Import JS.

(** The bytes an input and an output take: a length byte for each string,
    eight bytes for each number. *)
Definition input_size (i : TransactionInput) : nat :=
  11 + length (utf8_encode (txId (utxoId i)))
     + length (utf8_encode (owner i))
     + length (utf8_encode (signature i)).

Definition output_size (o : TransactionOutput) : nat :=
  9 + length (utf8_encode (recipient o)).

Definition transaction_size (tx : Transaction) : nat :=
  11 + length (utf8_encode (id tx))
     + list_sum (map input_size (inputs tx))
     + list_sum (map output_size (outputs tx)).

End Sizes.

(** ** More sample transactions *)

Module MoreSamples.
Import JS Samples.

(** An input whose output index is negative. *)
Definition bad_input : TransactionInput :=
  mkInput (mkUTXOId (lit "t") (int (-1))) (lit "o") (lit "s").

Definition tx_bad_inputs_256 : Transaction :=
  mkTransaction (lit "t") (repeat bad_input 256) [] (int 0).

Definition tx_bad_input_256_outputs : Transaction :=
  mkTransaction (lit "t") [bad_input] (repeat filler_output 256) (int 0).

End MoreSamples.

(** ** Strings of the platform *)

Module Strings.
Import JS Limits.

(** Every element of a string is a UTF-16 code unit, which holds of every
    string of the platform. *)
Definition code_units (s : string) : bool := forallb is_code_unit s.

Definition strings_of_code_units (tx : Transaction) : bool :=
  forallb code_units (tx_strings tx).

End Strings.

(** ** The size report *)

Record EncodingEfficiency : Type := mkEncodingEfficiency {
  jsonSize : Z;
  binarySize : Z;
  savings : JS.string
}.

Module Efficiency.
Import JS Codec.

Section WithPlatform.

(** [JSON.stringify] on a transaction, and the text that [toFixed(1)]
    gives for [((jsonSize - binarySize) / jsonSize) * 100], which is
    computed in floating point, as a function of the two sizes. *)
Variable JSON_stringify : Transaction -> string.
Variable savingsPercent : nat -> nat -> string.

Definition getEncodingEfficiency (transaction : Transaction)
  : EncodingEfficiency :=
  let jsonSize := length (utf8_encode (JSON_stringify transaction)) in
  match encodeTransaction transaction with
  | Ok encoded =>
      let binarySize := length encoded in
      mkEncodingEfficiency (Z.of_nat jsonSize) (Z.of_nat binarySize)
        (savingsPercent jsonSize binarySize ++ lit "%")
  | Throw _ =>
      mkEncodingEfficiency (Z.of_nat jsonSize) (-1) (lit "Not implemented")
  end.

End WithPlatform.

End Efficiency.

(** ** The errors of a transaction, input by input *)

Module Findings.
Import JS Validator ValidatorSpec.

Section WithCollaborators.

Variable getUTXO : string -> number -> option UTXO.
Variable verify : string -> string -> string -> bool.
Variable getUTXOKey : UTXOId -> string.
Variable toString : float -> string.
Variable JSON_stringify : json -> string.

(** The store has the output an input refers to. *)
Definition resolves (input : TransactionInput) : bool :=
  match getUTXO (txId (utxoId input)) (outputIndex (utxoId input)) with
  | Some _ => true
  | None => false
  end.

Definition resolved (ins : list TransactionInput) : list TransactionInput :=
  List.filter resolves ins.

Definition keys (ins : list TransactionInput) : list string :=
  map (fun input => getUTXOKey (utxoId input)) ins.

(** The key of an input is that of an input before it that resolves. *)
Definition spent_before (before : list TransactionInput)
    (input : TransactionInput) : bool :=
  bool_decide (getUTXOKey (utxoId input) ∈ keys (resolved before)).

(** The output an input refers to holds nothing or less. *)
Definition non_positive (input : TransactionInput) : bool :=
  match getUTXO (txId (utxoId input)) (outputIndex (utxoId input)) with
  | Some utxo => le_zero (utxo_amount utxo)
  | None => false
  end.

(** An input that resolves and whose signature the verifier refuses. *)
Definition badly_signed (transaction : Transaction)
    (input : TransactionInput) : bool :=
  resolves input &&
  negb (verify (createTransactionDataForSigning_ JSON_stringify transaction)
               (signature input) (owner input)).

(** The errors of one input that comes after the inputs [before]. *)
Definition input_findings (transaction : Transaction)
    (before : list TransactionInput) (input : TransactionInput)
  : list ValidationError :=
  match getUTXO (txId (utxoId input)) (outputIndex (utxoId input)) with
  | None =>
      [createValidationError UTXO_NOT_FOUND
         (lit "Utxo not found: " ++ txId (utxoId input) ++ lit ":"
          ++ toString (Finite (outputIndex (utxoId input))))]
  | Some utxo =>
      (if le_zero (utxo_amount utxo)
       then [createValidationError NEGATIVE_AMOUNT
               (lit "Utxo amount must be positive")]
       else []) ++
      (if verify (createTransactionDataForSigning_ JSON_stringify transaction)
                 (signature input) (owner input)
       then []
       else [createValidationError INVALID_SIGNATURE
               (lit "invalid signature")]) ++
      (if spent_before before input
       then [createValidationError DOUBLE_SPENDING
               (lit "This UTXO is referenced multiple times within the same transaction: "
                ++ getUTXOKey (utxoId input))]
       else [])
  end.

Fixpoint inputs_findings (transaction : Transaction)
    (before ins : list TransactionInput) : list ValidationError :=
  match ins with
  | [] => []
  | input :: rest =>
      input_findings transaction before input ++
      inputs_findings transaction (before ++ [input]) rest
  end.

Definition output_findings (output : TransactionOutput)
  : list ValidationError :=
  if le_zero (amount output)
  then [createValidationError NEGATIVE_AMOUNT
          (lit "Output amount can not be negative or zero: "
           ++ toString (Finite (amount output)))]
  else [].

(** The totals are those that the program computes, each addition
    rounded. *)
Definition balance_finding (inputsTotal : float)
    (outs : list TransactionOutput) : list ValidationError :=
  if strict_neq inputsTotal (computed_total (map amount outs))
  then [createValidationError AMOUNT_MISMATCH
          (lit "AMOUNTS MISMATCH: " ++ toString inputsTotal ++ lit " != "
           ++ toString (computed_total (map amount outs)))]
  else [].

Definition structure_findings (transaction : Transaction)
  : list ValidationError :=
  (if (length (inputs transaction) =? 0)%nat
   then [createValidationError EMPTY_INPUTS (lit "Empty inputs")]
   else []) ++
  (if (length (outputs transaction) =? 0)%nat
   then [createValidationError EMPTY_OUTPUTS (lit "Empty outputs")]
   else []).

(** Every error of a transaction, in the order of its parts. *)
Definition findings (transaction : Transaction) : list ValidationError :=
  structure_findings transaction ++
  inputs_findings transaction [] (inputs transaction) ++
  flat_map output_findings (outputs transaction) ++
  balance_finding
    (computed_total (resolved_amounts getUTXO (inputs transaction)))
    (outputs transaction).

End WithCollaborators.

End Findings.

Module StoreSamples.
Import JS Samples.

(** The store of the examples with other identifiers and recipients on
    its outputs, and the same amounts. *)
Definition relabelled_getUTXO (txId : string) (outputIndex : number)
  : option UTXO :=
  match sample_getUTXO txId outputIndex with
  | Some utxo =>
      Some (mkUTXO (mkUTXOId (lit "elsewhere") (int 9)) (utxo_amount utxo)
                   (lit "mallory"))
  | None => None
  end.

(** A verifier that refuses every signature of the owner "nobody". *)
Definition wary_verify (message signature owner : string) : bool :=
  sample_verify message signature owner &&
  negb (bool_decide (owner = lit "nobody")).

(** An input that the store does not have, with a signature that
    [sample_verify] accepts and [wary_verify] refuses. *)
Definition spend_nobody : Transaction :=
  mkTransaction (lit "tx-6")
    [mkInput (mkUTXOId (lit "genesis") (int 0)) (lit "alice") (lit "sig-alice");
     mkInput (mkUTXOId (lit "nowhere") (int 7)) (lit "nobody")
             (lit "sig-nobody")]
    [mkOutput (int 100) (lit "bob")] (int 1700000005).

End StoreSamples.

(** ** Samples at the edges: large amounts, repeated texts *)

Module EdgeSamples.
Import JS Samples.

(** A store whose outputs hold [2^53], [2^60] and -1. *)
Definition vault_getUTXO (txId : string) (outputIndex : number)
  : option UTXO :=
  if bool_decide (txId = lit "vault") then
    if bool_decide (outputIndex = int 0)
    then Some (mkUTXO (mkUTXOId txId outputIndex) (int (2 ^ 53))
                      (lit "alice"))
    else if bool_decide (outputIndex = int 1)
    then Some (mkUTXO (mkUTXOId txId outputIndex) (int (2 ^ 60))
                      (lit "alice"))
    else if bool_decide (outputIndex = int 2)
    then Some (mkUTXO (mkUTXOId txId outputIndex) (int (-1)) (lit "alice"))
    else None
  else None.

Definition vault_validate : Transaction -> ValidationResult :=
  Validator.validateTransaction
    vault_getUTXO sample_verify sample_getUTXOKey sample_toString
    sample_stringify.

Definition unknown_input : TransactionInput :=
  mkInput (mkUTXOId (lit "nowhere") (int 7)) (lit "alice") (lit "sig-alice").

(** An input that holds [2^53] and one that the store does not have,
    against the outputs [2^53] and 1. *)
Definition spend_rounded : Transaction :=
  mkTransaction (lit "tx-7")
    [mkInput (mkUTXOId (lit "vault") (int 0)) (lit "alice") (lit "sig-alice");
     unknown_input]
    [mkOutput (int (2 ^ 53)) (lit "bob"); mkOutput (int 1) (lit "carol")]
    (int 1700000007).

(** The inputs [2^60] and -1 against the output [2^60]. *)
Definition spend_absorbed : Transaction :=
  mkTransaction (lit "tx-8")
    [mkInput (mkUTXOId (lit "vault") (int 1)) (lit "alice") (lit "sig-alice");
     mkInput (mkUTXOId (lit "vault") (int 2)) (lit "alice") (lit "sig-alice")]
    [mkOutput (int (2 ^ 60)) (lit "bob")] (int 1700000008).

(** An input whose signature is the text of its owner. *)
Definition spend_self_signed : Transaction :=
  mkTransaction (lit "tx-9")
    [mkInput (mkUTXOId (lit "genesis") (int 0)) (lit "alice") (lit "alice")]
    [mkOutput (int 100) (lit "bob")] (int 1700000009).

(** An [id] of 256 bytes and a negative timestamp. *)
Definition tx_long_id_negative : Transaction :=
  mkTransaction (repeat 0x61 256) [] [] (int (-5)).

End EdgeSamples.

(** * Properties *)

(** ** UTF-8 *)

Section Utf8.
Import JS.

Ltac kill := exfalso; Z.div_mod_to_equations; lia.

Ltac split_tests :=
  repeat first
    [ progress cbn [app decoder_run decoder_step decoder_init
                    bytes_needed code_point lower_boundary upper_boundary
                    andb negb]
    | progress unfold decoder_start
    | match goal with
      | |- context [Z.eqb ?a ?b] => destruct (Z.eqb_spec a b); try kill
      | |- context [Z.leb ?a ?b] => destruct (Z.leb_spec a b); try kill
      | |- context [Z.ltb ?a ?b] => destruct (Z.ltb_spec a b); try kill
      end ].

Lemma decoder_run_scalar c rest :
  is_scalar c ->
  decoder_run decoder_init (utf8_of_code_point c ++ rest)
  = c :: decoder_run decoder_init rest.
Proof.
  intros Hc. unfold utf8_of_code_point, is_scalar in *.
  split_tests.
  all: try reflexivity.
  all: f_equal; Z.div_mod_to_equations; lia.
Qed.

Lemma decoder_run_scalars cps rest :
  Forall is_scalar cps ->
  decoder_run decoder_init (flat_map utf8_of_code_point cps ++ rest)
  = cps ++ decoder_run decoder_init rest.
Proof.
  induction 1 as [|c cps Hc _ IH]; [reflexivity|].
  cbn [flat_map]. rewrite <- app_assoc, decoder_run_scalar by assumption.
  cbn [app]. now rewrite IH.
Qed.

(** Induction on strings two code units at a time, as [code_points] and
    [well_formed] recurse. *)
Lemma string_pair_ind (P : string -> Prop) :
  P [] ->
  (forall u, P [u]) ->
  (forall u v s, P s -> P (v :: s) -> P (u :: v :: s)) ->
  forall s, P s.
Proof.
  intros H0 H1 H2 s.
  assert (P s /\ forall u, P (u :: s)) as [? _]; [|assumption].
  induction s as [|v s [IHs IHc]]; split; auto.
Qed.

Ltac split_units :=
  repeat match goal with
    | H : (_ && _)%bool = true |- _ => apply andb_true_iff in H; destruct H
    | H : negb _ = true |- _ => apply negb_true_iff in H
    | H : (_ <=? _) = true |- _ => apply Z.leb_le in H
    | H : (_ <? _) = true |- _ => apply Z.ltb_lt in H
    | H : (_ && _)%bool = false |- _ => apply andb_false_iff in H
    | H : (_ <=? _) = false |- _ => apply Z.leb_gt in H
    | H : (_ <? _) = false |- _ => apply Z.ltb_ge in H
    end.

Lemma code_points_cons u rest :
  code_points (u :: rest) =
  if is_high_surrogate u then
    match rest with
    | v :: rest' =>
        if is_low_surrogate v
        then (0x10000 + (u - 0xD800) * 0x400 + (v - 0xDC00)) :: code_points rest'
        else 0xFFFD :: code_points rest
    | [] => [0xFFFD]
    end
  else if is_low_surrogate u then 0xFFFD :: code_points rest
  else u :: code_points rest.
Proof. reflexivity. Qed.

Lemma well_formed_cons u rest :
  well_formed (u :: rest) =
  is_code_unit u &&
  (if is_high_surrogate u then
     match rest with
     | v :: rest' => is_low_surrogate v && well_formed rest'
     | [] => false
     end
   else negb (is_low_surrogate u) && well_formed rest).
Proof. reflexivity. Qed.

(** What [well_formed] says of the first code units of a string. *)
Lemma well_formed_inv u rest :
  well_formed (u :: rest) = true ->
  (is_high_surrogate u = false /\ is_low_surrogate u = false /\
   0 <= u < 0x10000 /\ well_formed rest = true) \/
  (exists v rest', rest = v :: rest' /\
     0xD800 <= u <= 0xDBFF /\ 0xDC00 <= v <= 0xDFFF /\
     is_high_surrogate u = true /\ is_low_surrogate v = true /\
     well_formed rest' = true).
Proof.
  rewrite well_formed_cons. intros Hwf.
  apply andb_true_iff in Hwf as [Hu Hwf].
  destruct (is_high_surrogate u) eqn:Hh.
  - right. destruct rest as [|v rest']; [discriminate|].
    apply andb_true_iff in Hwf as [Hl Hwf].
    exists v, rest'. unfold is_high_surrogate, is_low_surrogate in *.
    repeat split; auto; split_units; lia.
  - left. apply andb_true_iff in Hwf as [Hl Hwf].
    apply negb_true_iff in Hl. unfold is_code_unit in Hu.
    repeat split; auto; split_units; lia.
Qed.

Lemma code_points_scalar s :
  well_formed s = true -> Forall is_scalar (code_points s).
Proof.
  induction s as [| u | u v s IHs IHv] using string_pair_ind; intros Hwf.
  - constructor.
  - apply well_formed_inv in Hwf
      as [(Hh & Hl & Hu & _) | (v & r & ? & _)]; [|discriminate].
    rewrite code_points_cons, Hh, Hl. constructor; [|constructor].
    unfold is_high_surrogate, is_low_surrogate, is_scalar in *.
    split_units. lia.
  - rewrite code_points_cons.
    apply well_formed_inv in Hwf
      as [(Hh & Hl & Hu & Hwf) | (v' & r & E & Hu & Hv & Hh & Hl & Hwf)].
    + rewrite Hh, Hl. constructor; [|now apply IHv].
      unfold is_high_surrogate, is_low_surrogate, is_scalar in *.
      split_units. lia.
    + injection E as <- <-. rewrite Hh, Hl.
      constructor; [|now apply IHs].
      unfold is_scalar. lia.
Qed.

Lemma utf16_code_points s :
  well_formed s = true ->
  flat_map utf16_of_code_point (code_points s) = s.
Proof.
  induction s as [| u | u v s IHs IHv] using string_pair_ind; intros Hwf.
  - reflexivity.
  - apply well_formed_inv in Hwf
      as [(Hh & Hl & Hu & _) | (v & r & ? & _)]; [|discriminate].
    rewrite code_points_cons, Hh, Hl. cbn [flat_map app code_points].
    unfold utf16_of_code_point.
    destruct (Z.ltb_spec u 0x10000); [reflexivity | lia].
  - rewrite code_points_cons.
    apply well_formed_inv in Hwf
      as [(Hh & Hl & Hu & Hwf) | (v' & r & E & Hu & Hv & Hh & Hl & Hwf)].
    + rewrite Hh, Hl. cbn [flat_map]. rewrite IHv by assumption.
      unfold utf16_of_code_point.
      destruct (Z.ltb_spec u 0x10000); [reflexivity | lia].
    + injection E as <- <-. rewrite Hh, Hl.
      cbn [flat_map]. rewrite IHs by assumption.
      unfold utf16_of_code_point.
      destruct (Z.ltb_spec (0x10000 + (u - 0xD800) * 0x400 + (v - 0xDC00)) 0x10000);
        [lia|].
      cbn [app]. f_equal; [|f_equal]; Z.div_mod_to_equations; lia.
Qed.

(** Encoding a well-formed string in UTF-8 and decoding the bytes gives the
    string back. *)
Lemma utf8_decode_encode s :
  well_formed s = true -> utf8_decode (utf8_encode s) = s.
Proof.
  intros Hwf. unfold utf8_decode, utf8_encode.
  rewrite <- (app_nil_r (flat_map utf8_of_code_point (code_points s))).
  rewrite decoder_run_scalars by now apply code_points_scalar.
  cbn [decoder_run decoder_init bytes_needed]. rewrite app_nil_r.
  now apply utf16_code_points.
Qed.

End Utf8.

(** ** Numbers and big-endian bytes *)

Section Numbers.
Import JS.

Lemma length_be_bytes n v : length (be_bytes n v) = n.
Proof.
  revert v; induction n as [|n IH]; intros v; cbn [be_bytes]; [reflexivity|].
  rewrite length_app, IH. cbn. lia.
Qed.

Lemma be_value_app l b : be_value (l ++ [b]) = be_value l * 256 + b.
Proof. unfold be_value. now rewrite fold_left_app. Qed.

Lemma be_value_be_bytes n v :
  0 <= v -> be_value (be_bytes n v) = v mod 256 ^ Z.of_nat n.
Proof.
  revert v; induction n as [|n IH]; intros v Hv.
  - cbn. now rewrite Z.mod_1_r.
  - cbn [be_bytes]. rewrite be_value_app, IH by (apply Z.div_pos; lia).
    rewrite Nat2Z.inj_succ, Z.pow_succ_r by lia.
    rewrite Z.rem_mul_r by (try apply Z.pow_pos_nonneg; lia). lia.
Qed.

Lemma int_Qnum (n : number) : is_integer n = true -> int (Qnum n) = n.
Proof.
  unfold is_integer, int. intros Hd. apply Pos.eqb_eq in Hd.
  apply Qc_is_canon. cbn [this Q2Qc]. rewrite Qred_correct.
  destruct n as [[a d] Hc]. cbn in *. subst d. reflexivity.
Qed.

End Numbers.

(** ** Encoding *)

Section Encoding.
Import JS Codec Limits.

Lemma writeString_spec s :
  match writeString s with
  | Ok p => string_ok s = true /\ p = string_bytes s
  | Throw e => string_ok s = false /\ e = Error "String too long"
  end.
Proof.
  unfold writeString, string_ok, string_bytes.
  destruct (Nat.ltb_spec 255 (length (utf8_encode s))) as [Hlen|Hlen].
  - split; [now apply Nat.leb_gt | reflexivity].
  - split; [now apply Nat.leb_le|].
    cbn [Buffer_concat Buffer_from map concat app].
    rewrite app_nil_r, Z.mod_small by lia. reflexivity.
Qed.

Lemma writeNumber_spec n :
  match writeNumber n with
  | Ok p => number_ok n = true /\ p = number_bytes n
  | Throw e => number_ok n = false /\ e = RangeError
  end.
Proof.
  unfold writeNumber, BigInt, writeBigUInt64BE, number_ok, number_bytes.
  destruct (is_integer n); cbn [bind andb]; [|now split].
  destruct ((0 <=? Qnum n) && (Qnum n <? 2 ^ 64)); now split.
Qed.

Lemma field_failure_mono s n s' n' e :
  field_failure s n e ->
  (s = false -> s' = false) -> (n = false -> n' = false) ->
  field_failure s' n' e.
Proof. unfold field_failure. intuition. Qed.

Ltac use_spec lem H :=
  pose proof lem as H;
  match type of H with
  | match ?w with _ => _ end => destruct w
  end; cbn [bind]; destruct H as [H ?]; subst.

Ltac failed :=
  split; [reflexivity|]; unfold field_failure; cbn [forallb];
  repeat match goal with H : _ = _ :> bool |- _ => rewrite H; clear H end;
  cbn [andb]; rewrite ?andb_false_r; now auto.

Lemma writeInput_spec i parts :
  match writeInput i parts with
  | Ok parts' =>
      input_ok i = true /\
      Buffer_concat parts' = Buffer_concat parts ++ input_bytes i
  | Throw e =>
      input_ok i = false /\
      field_failure (forallb string_ok (input_strings i))
                    (number_ok (outputIndex (utxoId i))) e
  end.
Proof.
  unfold writeInput, input_ok, input_bytes, input_strings, Buffer_concat.
  use_spec (writeString_spec (txId (utxoId i))) H1;
    rewrite H1; cbn [andb]; [|failed].
  use_spec (writeNumber_spec (outputIndex (utxoId i))) H2;
    rewrite H2; cbn [andb]; [|failed].
  use_spec (writeString_spec (owner i)) H3;
    rewrite H3; cbn [andb]; [|failed].
  use_spec (writeString_spec (signature i)) H4;
    rewrite H4; cbn [andb]; [|failed].
  split; [reflexivity|].
  rewrite !concat_app. cbn [concat]. rewrite !app_nil_r, <- !app_assoc.
  reflexivity.
Qed.

Lemma writeOutput_spec o parts :
  match writeOutput o parts with
  | Ok parts' =>
      output_ok o = true /\
      Buffer_concat parts' = Buffer_concat parts ++ output_bytes o
  | Throw e =>
      output_ok o = false /\
      field_failure (string_ok (recipient o)) (number_ok (amount o)) e
  end.
Proof.
  unfold writeOutput, output_ok, output_bytes, Buffer_concat.
  use_spec (writeNumber_spec (amount o)) H1;
    rewrite H1; cbn [andb]; [|failed].
  use_spec (writeString_spec (recipient o)) H2;
    rewrite H2; cbn [andb]; [|failed].
  split; [reflexivity|].
  rewrite !concat_app. cbn [concat]. rewrite !app_nil_r, <- !app_assoc.
  reflexivity.
Qed.

Lemma writeInputs_spec ins parts :
  match writeInputs ins parts with
  | Ok parts' =>
      forallb input_ok ins = true /\
      Buffer_concat parts' = Buffer_concat parts ++ flat_map input_bytes ins
  | Throw e =>
      forallb input_ok ins = false /\
      field_failure
        (forallb string_ok (flat_map input_strings ins))
        (forallb number_ok (map (fun i => outputIndex (utxoId i)) ins)) e
  end.
Proof.
  revert parts; induction ins as [|i ins IH]; intros parts;
    cbn [writeInputs forallb flat_map map].
  - now rewrite app_nil_r.
  - pose proof (writeInput_spec i parts) as Hi.
    rewrite forallb_app.
    destruct (writeInput i parts) as [parts1|e]; cbn [bind].
    + destruct Hi as [Hi Hc]. rewrite Hi. cbn [andb].
      specialize (IH parts1).
      destruct (writeInputs ins parts1) as [parts2|e];
        destruct IH as [IH1 IH2]; (split; [assumption|]).
      * now rewrite IH2, Hc, <- app_assoc.
      * eapply field_failure_mono; [eassumption | |];
          intros ->; apply andb_false_r.
    + destruct Hi as [Hi Hf]. rewrite Hi. split; [reflexivity|].
      eapply field_failure_mono; [eassumption | |]; now intros ->.
Qed.

Lemma writeOutputs_spec outs parts :
  match writeOutputs outs parts with
  | Ok parts' =>
      forallb output_ok outs = true /\
      Buffer_concat parts' = Buffer_concat parts ++ flat_map output_bytes outs
  | Throw e =>
      forallb output_ok outs = false /\
      field_failure (forallb string_ok (map recipient outs))
                    (forallb number_ok (map amount outs)) e
  end.
Proof.
  revert parts; induction outs as [|o outs IH]; intros parts;
    cbn [writeOutputs forallb flat_map map].
  - now rewrite app_nil_r.
  - pose proof (writeOutput_spec o parts) as Ho.
    destruct (writeOutput o parts) as [parts1|e]; cbn [bind].
    + destruct Ho as [Ho Hc]. rewrite Ho. cbn [andb].
      specialize (IH parts1).
      destruct (writeOutputs outs parts1) as [parts2|e];
        destruct IH as [IH1 IH2]; (split; [assumption|]).
      * now rewrite IH2, Hc, <- app_assoc.
      * eapply field_failure_mono; [eassumption | |];
          intros ->; apply andb_false_r.
    + destruct Ho as [Ho Hf]. rewrite Ho. split; [reflexivity|].
      eapply field_failure_mono; [eassumption | |]; now intros ->.
Qed.

(** What [encodeTransaction] returns and what it throws. *)
Lemma encodeTransaction_spec tx :
  match encodeTransaction tx with
  | Ok b => within_limits tx = true /\ b = layout tx
  | Throw e =>
      within_limits tx = false /\
      (field_failure (forallb string_ok (tx_strings tx))
                     (forallb number_ok (tx_numbers tx)) e \/
       (e = Error "Inputs too long" /\ (255 < length (inputs tx))%nat) \/
       (e = Error "Outputs too long" /\
        (length (inputs tx) <= 255 < length (outputs tx))%nat))
  end.
Proof.
  unfold encodeTransaction, within_limits, layout, tx_numbers, tx_strings.
  cbn [forallb]. rewrite !forallb_app.
  use_spec (writeString_spec (id tx)) H1;
    rewrite H1; cbn [andb]; [|now (split; [|left; left])].
  use_spec (writeNumber_spec (timestamp tx)) H2;
    rewrite H2; cbn [andb]; [|now (split; [|left; right])].
  destruct (Nat.ltb_spec 255 (length (inputs tx))) as [Hi|Hi].
  { split; [|now auto].
    apply Nat.leb_gt in Hi. now rewrite Hi. }
  apply Nat.leb_le in Hi. rewrite Hi. cbn [andb].
  match goal with
  | |- context [writeInputs ?ins ?parts] =>
      use_spec (writeInputs_spec ins parts) H3
  end; rewrite H3; cbn [andb].
  2:{ split; [reflexivity|]. left.
      eapply field_failure_mono; [eassumption | |]; now intros ->. }
  destruct (Nat.ltb_spec 255 (length (outputs tx))) as [Ho|Ho].
  { split; [|apply Nat.leb_le in Hi; now auto].
    apply Nat.leb_gt in Ho. now rewrite Ho. }
  apply Nat.leb_le in Ho. rewrite Ho. cbn [andb].
  match goal with
  | |- context [writeOutputs ?outs ?parts] =>
      use_spec (writeOutputs_spec outs parts) H4
  end; rewrite H4.
  2:{ split; [reflexivity|]. left.
      eapply field_failure_mono; [eassumption | |];
        intros ->; apply andb_false_r. }
  split; [reflexivity|].
  unfold Buffer_concat in *. rewrite H0, concat_app, H.
  cbn [Buffer_from map concat app].
  rewrite !Z.mod_small by (apply Nat.leb_le in Hi, Ho; lia).
  rewrite <- !app_assoc. reflexivity.
Qed.

(** Encoding succeeds exactly on the transactions within the limits, and
    then produces the wire format. *)
Lemma encodeTransaction_ok tx :
  within_limits tx = true -> encodeTransaction tx = Ok (layout tx).
Proof.
  intros Hok. pose proof (encodeTransaction_spec tx) as H.
  destruct (encodeTransaction tx); destruct H as [H ?]; congruence.
Qed.

Lemma forallb_flat_map {A B} (p : B -> bool) (f : A -> list B) l :
  forallb p (flat_map f l) = forallb (fun a => forallb p (f a)) l.
Proof.
  induction l as [|a l IH]; cbn [flat_map forallb]; [reflexivity|].
  now rewrite forallb_app, IH.
Qed.

Lemma forallb_map {A B} (p : B -> bool) (f : A -> B) l :
  forallb p (map f l) = forallb (fun a => p (f a)) l.
Proof.
  induction l as [|a l IH]; cbn [map forallb]; [reflexivity|].
  now rewrite IH.
Qed.

Lemma forallb_pointwise {A} (p q : A -> bool) l :
  (forall a, p a = q a) -> forallb p l = forallb q l.
Proof.
  intros Hpq. induction l as [|a l IH]; cbn [forallb]; [reflexivity|].
  now rewrite Hpq, IH.
Qed.

Lemma forallb_andb {A} (p q : A -> bool) l :
  forallb (fun a => p a && q a) l = forallb p l && forallb q l.
Proof.
  induction l as [|a l IH]; cbn [forallb]; [reflexivity|].
  rewrite IH. destruct (p a), (q a), (forallb p l); reflexivity.
Qed.

(** The limits, read off the fields: every string field and every numeric
    field is within its limit and neither list is longer than 255. *)
Lemma within_limits_fields tx :
  within_limits tx =
  forallb string_ok (tx_strings tx) && forallb number_ok (tx_numbers tx) &&
  (length (inputs tx) <=? 255)%nat && (length (outputs tx) <=? 255)%nat.
Proof.
  unfold within_limits, tx_strings, tx_numbers. cbn [forallb].
  rewrite !forallb_app, forallb_flat_map, !forallb_map.
  replace (forallb input_ok (inputs tx)) with
    (forallb (fun a => forallb string_ok (input_strings a)) (inputs tx) &&
     forallb (fun a => number_ok (outputIndex (utxoId a))) (inputs tx)).
  2:{ rewrite <- forallb_andb. apply forallb_pointwise. intros i.
      unfold input_ok, input_strings. cbn [forallb].
      destruct (string_ok (txId (utxoId i))),
        (number_ok (outputIndex (utxoId i))), (string_ok (owner i)),
        (string_ok (signature i)); reflexivity. }
  replace (forallb output_ok (outputs tx)) with
    (forallb (fun a => string_ok (recipient a)) (outputs tx) &&
     forallb (fun a => number_ok (amount a)) (outputs tx)).
  2:{ rewrite <- forallb_andb. apply forallb_pointwise. intros o.
      unfold output_ok. apply andb_comm. }
  repeat match goal with
  | |- context [forallb ?p ?l] =>
      let b := fresh "b" in generalize (forallb p l); intros b
  | |- context [Nat.leb ?a ?c] =>
      let b := fresh "b" in generalize (Nat.leb a c); intros b
  | |- context [string_ok ?a] =>
      let b := fresh "b" in generalize (string_ok a); intros b
  | |- context [number_ok ?a] =>
      let b := fresh "b" in generalize (number_ok a); intros b
  end.
  repeat match goal with b : bool |- _ => destruct b end; reflexivity.
Qed.

End Encoding.

(** ** Decoding what the encoder wrote *)

Section Decoding.
Import JS Codec Limits.

Lemma skipn_at {A} (pre l : list A) o :
  o = length pre -> skipn o (pre ++ l) = l.
Proof.
  intros ->. rewrite skipn_app, skipn_all, Nat.sub_diag. reflexivity.
Qed.

Lemma firstn_at {A} (l post : list A) n :
  n = length l -> firstn n (l ++ post) = l.
Proof.
  intros ->. rewrite firstn_app, firstn_all, Nat.sub_diag.
  cbn [firstn]. apply app_nil_r.
Qed.

Lemma readUInt8_at buf pre b post o :
  buf = pre ++ b :: post -> o = length pre -> readUInt8 buf o = Ok b.
Proof.
  intros -> ->. unfold readUInt8.
  rewrite nth_error_app2, Nat.sub_diag by lia. reflexivity.
Qed.

Lemma readUInt8_beyond buf o :
  (length buf <= o)%nat -> readUInt8 buf o = Throw RangeError.
Proof.
  intros H. unfold readUInt8.
  now rewrite (proj2 (nth_error_None buf o) H).
Qed.

Lemma readBigUInt64BE_beyond buf o :
  (length buf < o + 8)%nat -> readBigUInt64BE buf o = Throw RangeError.
Proof.
  intros H. unfold readBigUInt64BE.
  destruct (Nat.leb_spec (o + 8) (length buf)); [lia | reflexivity].
Qed.

Lemma length_string_bytes s :
  length (string_bytes s) = S (length (utf8_encode s)).
Proof. reflexivity. Qed.

Lemma length_number_bytes n : length (number_bytes n) = 8%nat.
Proof. apply length_be_bytes. Qed.

Lemma readString_at buf pre s post o :
  buf = pre ++ string_bytes s ++ post -> o = length pre ->
  readString buf o = Ok (reread s, (o + length (string_bytes s))%nat).
Proof.
  intros Hbuf Ho. unfold readString, string_bytes in *.
  rewrite (readUInt8_at buf pre (Z.of_nat (length (utf8_encode s)))
             (utf8_encode s ++ post) o) by (exact Hbuf || exact Ho).
  cbn [bind]. rewrite Nat2Z.id. unfold subarray, reread.
  replace (o + 1 + length (utf8_encode s) - (o + 1))%nat
    with (length (utf8_encode s)) by lia.
  rewrite Hbuf.
  replace (pre ++ (Z.of_nat (length (utf8_encode s)) :: utf8_encode s) ++ post)
    with ((pre ++ [Z.of_nat (length (utf8_encode s))]) ++ utf8_encode s ++ post)
    by now rewrite <- app_assoc.
  rewrite skipn_at by (rewrite length_app; cbn; lia).
  rewrite firstn_at by reflexivity.
  cbn [length]. do 2 f_equal. lia.
Qed.

Lemma readNumber_at buf pre n post o :
  number_ok n = true ->
  buf = pre ++ number_bytes n ++ post -> o = length pre ->
  readNumber buf o = Ok (n, (o + 8)%nat).
Proof.
  unfold number_ok. intros Hn Hbuf Ho.
  apply andb_true_iff in Hn as [Hn Hhi]. apply andb_true_iff in Hn as [Hint Hlo].
  apply Z.leb_le in Hlo. apply Z.ltb_lt in Hhi.
  unfold readNumber, readBigUInt64BE.
  assert (length buf = (o + 8 + length post)%nat) as Hlen.
  { subst. rewrite !length_app, length_number_bytes. lia. }
  destruct (Nat.leb_spec (o + 8) (length buf)); [|lia].
  cbn [bind]. rewrite Hbuf, skipn_at by assumption.
  rewrite firstn_at by now rewrite length_number_bytes.
  unfold number_bytes, Number.
  rewrite be_value_be_bytes, Z.mod_small by (cbn; lia).
  now rewrite int_Qnum.
Qed.

Ltac buffer_eq :=
  subst; repeat match goal with b := _ |- _ => subst b end;
  repeat (rewrite <- app_assoc || rewrite <- app_comm_cons
          || rewrite app_nil_l);
  reflexivity.
Ltac offset_eq :=
  subst; rewrite ?length_app, ?length_number_bytes; cbn [length]; lia.

Lemma readInput_at buf pre i post o :
  input_ok i = true ->
  buf = pre ++ input_bytes i ++ post -> o = length pre ->
  readInput buf o = Ok (reread_input i, (o + length (input_bytes i))%nat).
Proof.
  unfold input_ok, input_bytes. intros Hi Hbuf Ho.
  repeat (apply andb_true_iff in Hi as [Hi ?]).
  set (b1 := string_bytes (txId (utxoId i))) in *.
  set (b2 := number_bytes (outputIndex (utxoId i))) in *.
  set (b3 := string_bytes (owner i)) in *.
  set (b4 := string_bytes (signature i)) in *.
  unfold readInput.
  rewrite (readString_at buf pre (txId (utxoId i)) (b2 ++ b3 ++ b4 ++ post) o)
    by (buffer_eq || offset_eq).
  cbn [bind]. fold b1.
  rewrite (readNumber_at buf (pre ++ b1) (outputIndex (utxoId i))
             (b3 ++ b4 ++ post))
    by (assumption || buffer_eq || offset_eq).
  cbn [bind].
  rewrite (readString_at buf (pre ++ b1 ++ b2) (owner i) (b4 ++ post))
    by (buffer_eq || (subst o; rewrite !length_app;
                      unfold b2; rewrite length_number_bytes; lia)).
  cbn [bind]. fold b3.
  rewrite (readString_at buf (pre ++ b1 ++ b2 ++ b3) (signature i) post)
    by (buffer_eq || (subst o; rewrite !length_app;
                      unfold b2; rewrite length_number_bytes; lia)).
  cbn [bind]. fold b4. unfold reread_input.
  do 2 f_equal. rewrite !length_app. unfold b2.
  rewrite length_number_bytes. lia.
Qed.

Lemma readOutput_at buf pre out post o :
  output_ok out = true ->
  buf = pre ++ output_bytes out ++ post -> o = length pre ->
  readOutput buf o = Ok (reread_output out, (o + length (output_bytes out))%nat).
Proof.
  unfold output_ok, output_bytes. intros Hi Hbuf Ho.
  apply andb_true_iff in Hi as [Hn Hs].
  set (b1 := number_bytes (amount out)) in *.
  set (b2 := string_bytes (recipient out)) in *.
  unfold readOutput.
  rewrite (readNumber_at buf pre (amount out) (b2 ++ post))
    by (assumption || buffer_eq || offset_eq).
  cbn [bind].
  rewrite (readString_at buf (pre ++ b1) (recipient out) post)
    by (buffer_eq || (subst o; rewrite !length_app;
                      unfold b1; rewrite length_number_bytes; lia)).
  cbn [bind]. fold b2. unfold reread_output.
  do 2 f_equal. rewrite !length_app. unfold b1.
  rewrite length_number_bytes. lia.
Qed.

(** The loops, on a buffer that has the encoding of [ins] (of [outs]) at
    the offset: [length ins] iterations read them, and the remaining [k]
    iterations go on from there. *)
Lemma readInputs_prefix ins : forall buf pre post o acc k,
  forallb input_ok ins = true ->
  buf = pre ++ flat_map input_bytes ins ++ post -> o = length pre ->
  readInputs buf (length ins + k) acc o
  = readInputs buf k (acc ++ map reread_input ins)
               (o + length (flat_map input_bytes ins)).
Proof.
  induction ins as [|i ins IH]; intros buf pre post o acc k Hok Hbuf Ho;
    cbn [length readInputs flat_map map Nat.add].
  - rewrite app_nil_r, Nat.add_0_r. reflexivity.
  - cbn [forallb] in Hok. apply andb_true_iff in Hok as [Hi Hok].
    cbn [flat_map] in Hbuf.
    rewrite (readInput_at buf pre i (flat_map input_bytes ins ++ post))
      by (assumption || buffer_eq).
    cbn [bind].
    rewrite (IH buf (pre ++ input_bytes i) post) by
      (assumption || buffer_eq || offset_eq).
    rewrite <- app_assoc, length_app. cbn [app]. f_equal. lia.
Qed.

Lemma readOutputs_prefix outs : forall buf pre post o acc k,
  forallb output_ok outs = true ->
  buf = pre ++ flat_map output_bytes outs ++ post -> o = length pre ->
  readOutputs buf (length outs + k) acc o
  = readOutputs buf k (acc ++ map reread_output outs)
                (o + length (flat_map output_bytes outs)).
Proof.
  induction outs as [|out outs IH]; intros buf pre post o acc k Hok Hbuf Ho;
    cbn [length readOutputs flat_map map Nat.add].
  - rewrite app_nil_r, Nat.add_0_r. reflexivity.
  - cbn [forallb] in Hok. apply andb_true_iff in Hok as [Hi Hok].
    cbn [flat_map] in Hbuf.
    rewrite (readOutput_at buf pre out (flat_map output_bytes outs ++ post))
      by (assumption || buffer_eq).
    cbn [bind].
    rewrite (IH buf (pre ++ output_bytes out) post) by
      (assumption || buffer_eq || offset_eq).
    rewrite <- app_assoc, length_app. cbn [app]. f_equal. lia.
Qed.

Lemma readInputs_at ins buf pre post o acc :
  forallb input_ok ins = true ->
  buf = pre ++ flat_map input_bytes ins ++ post -> o = length pre ->
  readInputs buf (length ins) acc o
  = Ok (acc ++ map reread_input ins,
        (o + length (flat_map input_bytes ins))%nat).
Proof.
  intros Hok Hbuf Ho. rewrite <- (Nat.add_0_r (length ins)).
  now rewrite (readInputs_prefix ins buf pre post).
Qed.

Lemma readOutputs_at outs buf pre post o acc :
  forallb output_ok outs = true ->
  buf = pre ++ flat_map output_bytes outs ++ post -> o = length pre ->
  readOutputs buf (length outs) acc o
  = Ok (acc ++ map reread_output outs,
        (o + length (flat_map output_bytes outs))%nat).
Proof.
  intros Hok Hbuf Ho. rewrite <- (Nat.add_0_r (length outs)).
  now rewrite (readOutputs_prefix outs buf pre post).
Qed.

(** Decoding the wire format of a transaction, whatever follows it in the
    buffer. *)
Lemma decodeTransaction_layout tx post :
  within_limits tx = true ->
  decodeTransaction (layout tx ++ post) = Ok (reread_transaction tx).
Proof.
  unfold within_limits. intros H.
  repeat (apply andb_true_iff in H as [H ?]).
  unfold decodeTransaction, layout.
  set (b1 := string_bytes (id tx)).
  set (b2 := number_bytes (timestamp tx)).
  set (n3 := Z.of_nat (length (inputs tx))).
  set (b4 := flat_map input_bytes (inputs tx)).
  set (n5 := Z.of_nat (length (outputs tx))).
  set (b6 := flat_map output_bytes (outputs tx)).
  set (buf := (b1 ++ b2 ++ [n3] ++ b4 ++ [n5] ++ b6) ++ post).
  assert (length b2 = 8%nat) as Hb2 by apply length_number_bytes.
  rewrite (readString_at buf [] (id tx) (b2 ++ [n3] ++ b4 ++ [n5] ++ b6 ++ post))
    by (reflexivity || buffer_eq).
  cbn [bind]. fold b1.
  rewrite (readNumber_at buf b1 (timestamp tx) ([n3] ++ b4 ++ [n5] ++ b6 ++ post))
    by (assumption || reflexivity || buffer_eq).
  cbn [bind].
  rewrite (readUInt8_at buf (b1 ++ b2) n3 (b4 ++ [n5] ++ b6 ++ post))
    by (buffer_eq || offset_eq).
  cbn [bind]. unfold n3 at 1. rewrite Nat2Z.id.
  rewrite (readInputs_at (inputs tx) buf (b1 ++ b2 ++ [n3]) ([n5] ++ b6 ++ post))
    by (assumption || buffer_eq || offset_eq).
  cbn [bind app]. fold b4.
  rewrite (readUInt8_at buf (b1 ++ b2 ++ [n3] ++ b4) n5 (b6 ++ post))
    by (buffer_eq || offset_eq).
  cbn [bind]. unfold n5 at 1. rewrite Nat2Z.id.
  rewrite (readOutputs_at (outputs tx) buf (b1 ++ b2 ++ [n3] ++ b4 ++ [n5]) post)
    by (assumption || buffer_eq || offset_eq).
  cbn [bind app]. reflexivity.
Qed.

Lemma map_id_on {A} (f : A -> A) l :
  (forall a, In a l -> f a = a) -> map f l = l.
Proof.
  induction l as [|a l IH]; intros Hf; cbn [map]; [reflexivity|].
  rewrite Hf, IH; auto using in_eq, in_cons.
Qed.

(** A transaction whose strings are well formed is read back as it is. *)
Lemma reread_well_formed tx :
  strings_well_formed tx = true -> reread_transaction tx = tx.
Proof.
  unfold strings_well_formed, tx_strings. cbn [forallb].
  rewrite forallb_app, forallb_flat_map, forallb_map.
  intros H. apply andb_true_iff in H as [Hid H].
  apply andb_true_iff in H as [Hins Houts].
  rewrite forallb_forall in Hins, Houts.
  destruct tx as [i ins outs ts]. unfold reread_transaction.
  cbn [id inputs outputs timestamp] in *.
  f_equal.
  - now apply utf8_decode_encode.
  - apply map_id_on. intros [[t n] o s] Hin.
    specialize (Hins _ Hin). unfold input_strings in Hins.
    cbn [forallb utxoId txId owner signature] in Hins.
    repeat (apply andb_true_iff in Hins as [? Hins]).
    unfold reread_input, reread.
    cbn [utxoId txId outputIndex owner signature].
    now rewrite !utf8_decode_encode.
  - apply map_id_on. intros [a r] Hin.
    specialize (Houts _ Hin). cbn [recipient] in Houts.
    unfold reread_output, reread. cbn [recipient amount].
    now rewrite utf8_decode_encode.
Qed.

(** *** Buffers that end too early *)

Lemma readString_raw buf pre len rest o :
  buf = pre ++ len :: rest -> o = length pre ->
  readString buf o
  = Ok (utf8_decode (firstn (Z.to_nat len) rest), (o + 1 + Z.to_nat len)%nat).
Proof.
  intros Hbuf Ho. unfold readString.
  rewrite (readUInt8_at buf pre len rest o) by assumption.
  cbn [bind]. unfold subarray.
  replace (o + 1 + Z.to_nat len - (o + 1))%nat with (Z.to_nat len) by lia.
  rewrite Hbuf.
  replace (pre ++ len :: rest) with ((pre ++ [len]) ++ rest)
    by now rewrite <- app_assoc.
  rewrite skipn_at by (rewrite length_app; cbn; lia).
  reflexivity.
Qed.

(** The readers throw nothing but [RangeError]. *)
Lemma readUInt8_throws buf o e : readUInt8 buf o = Throw e -> e = RangeError.
Proof. unfold readUInt8. destruct (nth_error buf o); congruence. Qed.

Lemma readString_throws buf o e : readString buf o = Throw e -> e = RangeError.
Proof.
  unfold readString. destruct (readUInt8 buf o) eqn:E; cbn [bind];
    [discriminate|]. intros [= <-]. eauto using readUInt8_throws.
Qed.

Lemma readNumber_throws buf o e : readNumber buf o = Throw e -> e = RangeError.
Proof.
  unfold readNumber, readBigUInt64BE.
  destruct (o + 8 <=? length buf)%nat; cbn [bind]; congruence.
Qed.

Ltac throws lem :=
  match goal with
  | |- context [bind ?r _] =>
      let E := fresh "E" in
      destruct r as [[? ?]|?] eqn:E; cbn [bind];
      [|intros [= <-]; now apply lem in E]
  end.

Lemma readInput_throws buf o e : readInput buf o = Throw e -> e = RangeError.
Proof.
  unfold readInput.
  throws readString_throws. throws readNumber_throws.
  throws readString_throws. throws readString_throws. discriminate.
Qed.

Lemma readOutput_throws buf o e : readOutput buf o = Throw e -> e = RangeError.
Proof.
  unfold readOutput.
  throws readNumber_throws. throws readString_throws. discriminate.
Qed.

(** A read that succeeds on a buffer succeeds on every extension of it,
    and stops at the same offset. *)
Lemma readUInt8_extend buf extra o b :
  readUInt8 buf o = Ok b -> readUInt8 (buf ++ extra) o = Ok b.
Proof.
  unfold readUInt8. destruct (nth_error buf o) eqn:E; [|discriminate].
  intros [= <-]. rewrite nth_error_app1; [now rewrite E|].
  apply nth_error_Some. congruence.
Qed.

Lemma readString_extend buf extra o v o' :
  readString buf o = Ok (v, o') ->
  exists v', readString (buf ++ extra) o = Ok (v', o').
Proof.
  unfold readString. destruct (readUInt8 buf o) as [b|] eqn:E; cbn [bind];
    [|discriminate].
  intros [= <- <-]. rewrite (readUInt8_extend _ _ _ _ E). cbn [bind]. eauto.
Qed.

Lemma readNumber_extend buf extra o r :
  readNumber buf o = Ok r -> readNumber (buf ++ extra) o = Ok r.
Proof.
  unfold readNumber, readBigUInt64BE.
  destruct (Nat.leb_spec (o + 8) (length buf)) as [Hle|]; cbn [bind];
    [|discriminate].
  intros <-. rewrite length_app.
  destruct (Nat.leb_spec (o + 8) (length buf + length extra)); [|lia].
  cbn [bind]. rewrite skipn_app, firstn_app, length_skipn.
  replace (8 - (length buf - o))%nat with 0%nat by lia.
  cbn [firstn]. now rewrite app_nil_r.
Qed.

Lemma readInput_extend buf extra o v o' :
  readInput buf o = Ok (v, o') ->
  exists v', readInput (buf ++ extra) o = Ok (v', o').
Proof.
  unfold readInput.
  destruct (readString buf o) as [[s1 o1]|] eqn:E1; cbn [bind]; [|discriminate].
  destruct (readNumber buf o1) as [[n2 o2]|] eqn:E2; cbn [bind]; [|discriminate].
  destruct (readString buf o2) as [[s3 o3]|] eqn:E3; cbn [bind]; [|discriminate].
  destruct (readString buf o3) as [[s4 o4]|] eqn:E4; cbn [bind]; [|discriminate].
  intros [= <- <-].
  destruct (readString_extend _ extra _ _ _ E1) as [s1' ->]. cbn [bind].
  rewrite (readNumber_extend _ extra _ _ E2). cbn [bind].
  destruct (readString_extend _ extra _ _ _ E3) as [s3' ->]. cbn [bind].
  destruct (readString_extend _ extra _ _ _ E4) as [s4' ->]. cbn [bind].
  eauto.
Qed.

Lemma firstn_app_tail {A} (l tail : list A) k :
  (k <= length tail)%nat ->
  firstn (length (l ++ tail) - k) (l ++ tail)
  = l ++ firstn (length tail - k) tail.
Proof.
  intros Hk. rewrite length_app, firstn_app.
  rewrite firstn_all2 by lia. f_equal. f_equal. lia.
Qed.

Lemma truncate_app_tail (l tail : Buffer) k :
  (k <= length tail)%nat ->
  truncate k (l ++ tail) = l ++ truncate k tail.
Proof.
  intros Hk. unfold truncate, subarray. cbn [skipn].
  rewrite !Nat.sub_0_r. now apply firstn_app_tail.
Qed.

Lemma Ok_pair_inj {A B} (a a' : A) (b b' : B) :
  Ok (a, b) = Ok (a', b') -> a = a' /\ b = b'.
Proof. now intros [= -> ->]. Qed.

Lemma readNumber_offset buf o v o' :
  readNumber buf o = Ok (v, o') -> o' = (o + 8)%nat.
Proof.
  unfold readNumber. destruct (readBigUInt64BE buf o); cbn [bind]; congruence.
Qed.

(** [decodeTransaction] up to the inputs that are whole in the buffer:
    [ins] are read, [k] more iterations of the first loop remain. *)
Lemma decodeTransaction_inputs buf tid ts ins k tail p :
  string_ok tid = true -> number_ok ts = true ->
  forallb input_ok ins = true ->
  buf = string_bytes tid ++ number_bytes ts ++
        [Z.of_nat (length ins + k)] ++ flat_map input_bytes ins ++ tail ->
  p = length (string_bytes tid ++ number_bytes ts ++
              [Z.of_nat (length ins + k)] ++ flat_map input_bytes ins) ->
  decodeTransaction buf =
  let* '(inputs, offset) := readInputs buf k (map reread_input ins) p in
  let* outputsAmount := readUInt8 buf offset in
  let* '(outputs, _) :=
    readOutputs buf (Z.to_nat outputsAmount) [] (offset + 1) in
  Ok (mkTransaction (reread tid) inputs outputs ts).
Proof.
  intros Hid Hts Hins Hbuf Hp. unfold decodeTransaction.
  set (b1 := string_bytes tid) in *.
  set (b2 := number_bytes ts) in *.
  set (n3 := Z.of_nat (length ins + k)) in *.
  set (b4 := flat_map input_bytes ins) in *.
  assert (length b2 = 8%nat) as Hb2 by apply length_number_bytes.
  rewrite (readString_at buf [] tid (b2 ++ [n3] ++ b4 ++ tail))
    by (reflexivity || (rewrite Hbuf; reflexivity)).
  cbn [bind]. fold b1.
  rewrite (readNumber_at buf b1 ts ([n3] ++ b4 ++ tail))
    by (assumption || reflexivity).
  cbn [bind].
  rewrite (readUInt8_at buf (b1 ++ b2) n3 (b4 ++ tail))
    by ((rewrite Hbuf, <- app_assoc; reflexivity) ||
        (rewrite length_app; cbn [length]; lia)).
  cbn [bind]. unfold n3 at 1. rewrite Nat2Z.id.
  rewrite (readInputs_prefix ins buf (b1 ++ b2 ++ [n3]) tail)
    by (assumption || (rewrite Hbuf, <- !app_assoc; reflexivity) ||
        (rewrite !length_app; cbn [length]; lia)).
  cbn [app].
  match goal with
  | |- context [readInputs buf k _ ?o] =>
      replace o with p
        by (rewrite Hp, !length_app; cbn [length]; unfold b4; lia)
  end.
  reflexivity.
Qed.

Lemma length_input_bytes i : (11 <= length (input_bytes i))%nat.
Proof.
  unfold input_bytes.
  rewrite !length_app, !length_string_bytes, length_number_bytes. lia.
Qed.

(** Without outputs, the last three bytes are the count of outputs and two
    bytes before it: some read after the cut is out of range. *)
Lemma decodeTransaction_truncated_no_output tx :
  within_limits tx = true -> outputs tx = [] ->
  decodeTransaction (truncate 3 (layout tx)) = Throw RangeError.
Proof.
  unfold within_limits. intros H Houts.
  repeat (apply andb_true_iff in H as [H ?]).
  destruct tx as [tid ins outs ts]. cbn [id inputs outputs timestamp] in *.
  subst outs. unfold layout. cbn [id inputs outputs timestamp flat_map length].
  induction ins as [|i ins' _] using rev_ind.
  2:{ (* the last input is cut *)
    rewrite forallb_app in *. cbn [forallb] in *.
    match goal with H : _ && _ = true |- _ =>
      apply andb_true_iff in H as [Hins Hi] end.
    rewrite andb_true_r in Hi.
    rewrite flat_map_app. cbn [flat_map]. rewrite app_nil_r.
    replace (length (ins' ++ [i])) with (length ins' + 1)%nat
      by (rewrite length_app; reflexivity).
    set (P := string_bytes tid ++ number_bytes ts ++
              [Z.of_nat (length ins' + 1)] ++ flat_map input_bytes ins').
    pose proof (length_input_bytes i) as Hm.
    set (buf := truncate 3 _).
    assert (buf = P ++ firstn (length (input_bytes i) - 2) (input_bytes i)) as Hbuf.
    { unfold buf.
      match goal with |- truncate 3 ?b = _ =>
        replace b with (P ++ (input_bytes i ++ [0]))
          by (unfold P; cbn [Z.of_nat];
              repeat (rewrite <- app_assoc || rewrite app_nil_r);
              reflexivity)
      end.
      rewrite truncate_app_tail by (rewrite length_app; cbn [length]; lia).
      f_equal. unfold truncate, subarray. rewrite skipn_O.
      rewrite Nat.sub_0_r, length_app, firstn_app. cbn [length].
      replace (length (input_bytes i) + 1 - 3 - length (input_bytes i))%nat with 0%nat by lia.
      cbn [firstn]. rewrite app_nil_r. f_equal. lia. }
    assert (length buf = (length P + (length (input_bytes i) - 2))%nat) as Hlen.
    { rewrite Hbuf, length_app, length_firstn. lia. }
    rewrite (decodeTransaction_inputs buf tid ts ins' 1
               (firstn (length (input_bytes i) - 2) (input_bytes i)) (length P));
      try assumption.
    2:{ rewrite Hbuf. unfold P. rewrite <- !app_assoc. reflexivity. }
    2:{ reflexivity. }
    cbn [readInputs].
    destruct (readInput buf (length P)) as [[v o']|e] eqn:E; cbn [bind].
    - destruct (readInput_extend _ (skipn (length (input_bytes i) - 2) (input_bytes i)) _ _ _ E)
        as [v' E'].
      rewrite Hbuf, <- app_assoc, firstn_skipn in E'.
      rewrite (readInput_at (P ++ input_bytes i) P i [])
        in E' by (assumption || reflexivity || now rewrite app_nil_r).
      apply Ok_pair_inj in E' as [_ <-].
      rewrite readUInt8_beyond by lia. reflexivity.
    - now rewrite (readInput_throws _ _ _ E). }
  (* no input either: the timestamp is cut *)
  cbn [flat_map length app].
  set (buf := truncate 3 _).
  assert (buf = string_bytes tid ++ firstn 7 (number_bytes ts)) as Hbuf.
  { unfold buf.
    match goal with |- truncate 3 ?b = _ =>
      replace b with (string_bytes tid ++ (number_bytes ts ++ [0; 0]))
        by reflexivity
    end.
    rewrite truncate_app_tail
      by (rewrite length_app, length_number_bytes; cbn [length]; lia).
    now f_equal. }
  unfold decodeTransaction.
  rewrite (readString_at buf [] tid (firstn 7 (number_bytes ts)))
    by (assumption || reflexivity).
  cbn [bind]. unfold readNumber.
  rewrite readBigUInt64BE_beyond; [reflexivity|].
  rewrite Hbuf, length_app, length_firstn, length_number_bytes.
  cbn [length]. lia.
Qed.

Lemma length_output_bytes o :
  length (output_bytes o) = (9 + length (utf8_encode (recipient o)))%nat.
Proof.
  unfold output_bytes.
  rewrite length_app, length_string_bytes, length_number_bytes. lia.
Qed.

(** With outputs, the last three bytes belong to the last output: they are
    bytes of its recipient's text when that has three bytes or more, and
    then nothing is read after the cut and no exception is thrown. *)
Lemma decodeTransaction_truncated_last_output tx outs o :
  within_limits tx = true -> outputs tx = outs ++ [o] ->
  decodeTransaction (truncate 3 (layout tx)) =
  if (3 <=? length (utf8_encode (recipient o)))%nat
  then Ok (mkTransaction (reread (id tx)) (map reread_input (inputs tx))
                         (map reread_output outs ++ [cut_recipient 3 o])
                         (timestamp tx))
  else Throw RangeError.
Proof.
  unfold within_limits. intros H Houts.
  repeat (apply andb_true_iff in H as [H ?]).
  destruct tx as [tid ins outs0 ts]. cbn [id inputs outputs timestamp] in *.
  subst outs0. unfold layout. cbn [id inputs outputs timestamp].
  rewrite forallb_app in *. cbn [forallb] in *.
  match goal with H : _ && _ = true |- _ =>
    apply andb_true_iff in H as [Houts Ho] end.
  rewrite andb_true_r in Ho.
  rewrite flat_map_app. cbn [flat_map]. rewrite app_nil_r.
  replace (length (outs ++ [o])) with (length outs + 1)%nat
    by (rewrite length_app; reflexivity).
  replace (length ins) with (length ins + 0)%nat at 1 by lia.
  set (P := string_bytes tid ++ number_bytes ts ++
            [Z.of_nat (length ins + 0)] ++ flat_map input_bytes ins).
  set (n5 := Z.of_nat (length outs + 1)).
  set (b6 := flat_map output_bytes outs).
  set (L := length (utf8_encode (recipient o))).
  pose proof (length_output_bytes o) as Hm. fold L in Hm.
  set (buf := truncate 3 _).
  assert (buf = P ++ [n5] ++ b6 ++ truncate 3 (output_bytes o)) as Hbuf.
  { unfold buf.
    match goal with |- truncate 3 ?b = _ =>
      replace b with ((P ++ [n5] ++ b6) ++ output_bytes o)
        by (unfold P; repeat (rewrite <- app_assoc || rewrite app_nil_r);
            reflexivity)
    end.
    rewrite truncate_app_tail by lia. now rewrite <- !app_assoc. }
  assert (length (truncate 3 (output_bytes o)) = (6 + L)%nat) as Hcut.
  { unfold truncate, subarray. rewrite skipn_O, length_firstn. lia. }
  rewrite (decodeTransaction_inputs buf tid ts ins 0
             ([n5] ++ b6 ++ truncate 3 (output_bytes o)) (length P));
    try assumption; try reflexivity.
  2:{ rewrite Hbuf. unfold P. now rewrite <- !app_assoc. }
  cbn [readInputs bind].
  rewrite (readUInt8_at buf P n5 (b6 ++ truncate 3 (output_bytes o)))
    by (assumption || reflexivity).
  cbn [bind]. unfold n5 at 1. rewrite Nat2Z.id.
  rewrite (readOutputs_prefix outs buf (P ++ [n5])
             (truncate 3 (output_bytes o)))
    by (assumption || (rewrite Hbuf, <- !app_assoc; reflexivity) ||
        (rewrite length_app; reflexivity)).
  cbn [readOutputs app]. fold b6.
  set (q := (length P + 1 + length b6)%nat).
  assert (length buf = (q + 6 + L)%nat) as Hlen.
  { rewrite Hbuf, !length_app, Hcut. cbn [length]. lia. }
  destruct (Nat.leb_spec 3 L) as [HL|HL].
  - (* the recipient's text is cut, nothing is read after it *)
    assert (truncate 3 (output_bytes o)
            = number_bytes (amount o) ++ Z.of_nat L ::
              firstn (L - 3) (utf8_encode (recipient o))) as HT.
    { unfold output_bytes, string_bytes. fold L.
      replace (number_bytes (amount o) ++
               Z.of_nat L :: utf8_encode (recipient o))
        with ((number_bytes (amount o) ++ [Z.of_nat L]) ++
              utf8_encode (recipient o))
        by now rewrite <- app_assoc.
      rewrite truncate_app_tail by (fold L; lia).
      rewrite <- app_assoc. unfold truncate, subarray.
      now rewrite skipn_O, Nat.sub_0_r. }
    apply andb_true_iff in Ho as [Hamount _].
    unfold readOutput.
    rewrite (readNumber_at buf (P ++ [n5] ++ b6) (amount o)
               (Z.of_nat L :: firstn (L - 3) (utf8_encode (recipient o))))
      by (assumption || (rewrite Hbuf, HT, <- !app_assoc; reflexivity) ||
          (unfold q; rewrite !length_app; cbn [length]; lia)).
    cbn [bind].
    rewrite (readString_raw buf
               (P ++ [n5] ++ b6 ++ number_bytes (amount o)) (Z.of_nat L)
               (firstn (L - 3) (utf8_encode (recipient o))))
      by ((rewrite Hbuf, HT, <- !app_assoc; reflexivity) ||
          (unfold q; rewrite !length_app, length_number_bytes;
           cbn [length]; lia)).
    cbn [bind]. rewrite Nat2Z.id, firstn_firstn.
    replace (Nat.min L (L - 3)) with (L - 3)%nat by lia.
    reflexivity.
  - (* the cut is at the length byte of the recipient or before it *)
    unfold readOutput.
    destruct (readNumber buf q) as [[a o1]|e] eqn:E; cbn [bind].
    + apply readNumber_offset in E as ->.
      unfold readString. rewrite readUInt8_beyond by lia. reflexivity.
    + now rewrite (readNumber_throws _ _ _ E).
Qed.

End Decoding.

(** ** The codec: round trip, rejected numbers, length boundaries *)

Section CodecClaims.
Import JS Codec Limits Samples MoreSamples EdgeSamples.

(** C1, as the specification states it, fails: a transaction whose [id] is
    an unpaired surrogate is within every limit (its UTF-8 form is the three
    bytes of U+FFFD), it is encoded, and decoding the bytes gives another
    transaction, whose [id] is U+FFFD. *)
Lemma roundtrip_lone_surrogate :
  within_limits lone_surrogate_tx = true /\
  (let* buffer := encodeTransaction lone_surrogate_tx in
   decodeTransaction buffer)
  = Ok (mkTransaction [0xFFFD] [] [] (int 0)) /\
  mkTransaction [0xFFFD] [] [] (int 0) <> lone_surrogate_tx.
Proof.
  split; [reflexivity|]. split; [reflexivity|]. discriminate.
Qed.

(** C1 (amended): for every transaction within the limits of the codec
    (strings of at most 255 UTF-8 bytes, at most 255 inputs and 255 outputs,
    numbers that are unsigned 64-bit integers) whose strings have no
    unpaired surrogate, encoding succeeds and decoding the bytes gives the
    transaction back. *)
Theorem roundtrip tx :
  within_limits tx = true -> strings_well_formed tx = true ->
  exists buffer,
    encodeTransaction tx = Ok buffer /\ decodeTransaction buffer = Ok tx.
Proof.
  intros Hlim Hwf. exists (layout tx). split.
  - now apply encodeTransaction_ok.
  - rewrite <- (app_nil_r (layout tx)).
    rewrite decodeTransaction_layout by assumption.
    now rewrite reread_well_formed.
Qed.

Lemma roundtrip_witness :
  within_limits sample_tx = true /\ strings_well_formed sample_tx = true /\
  exists buffer,
    encodeTransaction sample_tx = Ok buffer /\
    decodeTransaction buffer = Ok sample_tx.
Proof.
  split; [reflexivity|]. split; [reflexivity|].
  apply (roundtrip sample_tx); reflexivity.
Defined.

(** C10, as stated, fails for the same reason as C1: with three bytes
    appended, the transaction whose recipient ends with an unpaired
    surrogate is decoded with U+FFFD in its place. *)
Lemma trailing_bytes_lone_surrogate :
  within_limits lone_surrogate_output_tx = true /\
  (let* buffer := encodeTransaction lone_surrogate_output_tx in
   decodeTransaction (buffer ++ [1; 2; 3]))
  = Ok (mkTransaction (lit "t") []
          [mkOutput (int 1) (lit "bob" ++ [0xFFFD])] (int 0)) /\
  mkTransaction (lit "t") [] [mkOutput (int 1) (lit "bob" ++ [0xFFFD])] (int 0)
  <> lone_surrogate_output_tx.
Proof.
  split; [reflexivity|]. split; [reflexivity|]. discriminate.
Qed.

(** C10 (amended): for every transaction within the limits of the codec
    and every sequence of extra bytes, decoding the encoding followed by the
    extra bytes succeeds and gives what decoding the encoding alone gives:
    the trailing bytes are never looked at.  When the strings of the
    transaction have no unpaired surrogate, what it gives is the
    transaction. *)
Theorem trailing_bytes_ignored tx extra :
  within_limits tx = true ->
  exists buffer,
    encodeTransaction tx = Ok buffer /\
    decodeTransaction (buffer ++ extra) = decodeTransaction buffer /\
    (exists decoded, decodeTransaction (buffer ++ extra) = Ok decoded) /\
    (strings_well_formed tx = true ->
     decodeTransaction (buffer ++ extra) = Ok tx).
Proof.
  intros Hlim. exists (layout tx). split; [|split; [|split]].
  - now apply encodeTransaction_ok.
  - rewrite <- (app_nil_r (layout tx)) at 2.
    now rewrite !decodeTransaction_layout.
  - rewrite decodeTransaction_layout by assumption. eauto.
  - intros Hwf. rewrite decodeTransaction_layout by assumption.
    now rewrite reread_well_formed.
Qed.

Lemma trailing_bytes_ignored_witness :
  within_limits sample_tx = true /\ strings_well_formed sample_tx = true /\
  exists buffer,
    encodeTransaction sample_tx = Ok buffer /\
    decodeTransaction (buffer ++ [0xDE; 0xAD; 0xBE; 0xEF]) = Ok sample_tx.
Proof.
  split; [reflexivity|]. split; [reflexivity|].
  destruct (trailing_bytes_ignored sample_tx [0xDE; 0xAD; 0xBE; 0xEF])
    as (buffer & Henc & _ & _ & Hdec); [reflexivity|].
  exists buffer. split; [assumption|]. now apply Hdec.
Defined.

(** C2, as the specification states it, fails: the sample transaction is
    encoded, the last three bytes of the buffer are dropped, and decoding
    throws nothing: it returns the transaction with the last three bytes of
    the recipient's text missing. *)
Lemma truncated_buffer_is_decoded :
  within_limits sample_tx = true /\
  (let* buffer := encodeTransaction sample_tx in
   decodeTransaction (truncate 3 buffer))
  = Ok (mkTransaction (id sample_tx) (inputs sample_tx)
          [mkOutput (int 100) ([0x62; 0xF6; 0x62] ++ lit "-al")]
          (timestamp sample_tx)).
Proof. split; reflexivity. Qed.

(** C2 (amended): for every transaction within the limits of the codec,
    decoding its encoding without the last three bytes throws a
    [RangeError] (an out-of-range read) when the transaction has no output
    or when the recipient of its last output has fewer than three UTF-8
    bytes; when that recipient has three bytes or more, decoding does not
    fail: it returns the transaction with the last three bytes of that
    recipient's text missing. *)
Theorem truncated_buffer tx :
  within_limits tx = true ->
  exists buffer,
    encodeTransaction tx = Ok buffer /\
    (outputs tx = [] ->
     decodeTransaction (truncate 3 buffer) = Throw RangeError) /\
    (forall outs o, outputs tx = outs ++ [o] ->
     decodeTransaction (truncate 3 buffer) =
     if (3 <=? length (utf8_encode (recipient o)))%nat
     then Ok (mkTransaction
                (reread (id tx)) (map reread_input (inputs tx))
                (map reread_output outs ++ [cut_recipient 3 o])
                (timestamp tx))
     else Throw RangeError).
Proof.
  intros Hlim. exists (layout tx). split; [|split].
  - now apply encodeTransaction_ok.
  - now apply decodeTransaction_truncated_no_output.
  - intros outs o Houts.
    now apply decodeTransaction_truncated_last_output.
Qed.

Lemma truncated_buffer_witness :
  (within_limits tx_short_recipient = true /\
   exists buffer,
     encodeTransaction tx_short_recipient = Ok buffer /\
     decodeTransaction (truncate 3 buffer) = Throw RangeError) /\
  (within_limits (mkTransaction (lit "t") [filler_input] [] (int 0)) = true /\
   exists buffer,
     encodeTransaction (mkTransaction (lit "t") [filler_input] [] (int 0))
     = Ok buffer /\
     decodeTransaction (truncate 3 buffer) = Throw RangeError).
Proof.
  split.
  - split; [reflexivity|].
    destruct (truncated_buffer tx_short_recipient)
      as (buffer & Henc & _ & Hcut); [reflexivity|].
    exists buffer. split; [assumption|].
    exact (Hcut [] filler_output eq_refl).
  - split; [reflexivity|].
    destruct (truncated_buffer
                (mkTransaction (lit "t") [filler_input] [] (int 0)))
      as (buffer & Henc & Hcut & _); [reflexivity|].
    exists buffer. split; [assumption|]. exact (Hcut eq_refl).
Defined.

Lemma number_ok_negative n : (n < 0)%Qc -> number_ok n = false.
Proof.
  intros H. unfold Qclt, Qlt in H.
  change (Qnum n * 1 < 0 * QDen n) in H. unfold number_ok.
  destruct (Z.leb_spec 0 (Qnum n)); [lia|].
  now rewrite andb_false_r.
Qed.

Lemma number_ok_fractional n : is_integer n = false -> number_ok n = false.
Proof. unfold number_ok. now intros ->. Qed.

(** C3, as the specification states it, fails for [encodeTransaction]: a
    transaction can hold a negative number and be rejected with another
    error, that of a check that comes earlier.  With an [id] of 256 bytes
    and the timestamp -5 the error is that of the string; with 256 inputs
    whose [outputIndex] is -1 it is that of the count of inputs. *)
Lemma invalid_number_other_error :
  (In (int (-5)) (tx_numbers tx_long_id_negative) /\ (int (-5) < 0)%Qc /\
   encodeTransaction tx_long_id_negative = Throw (Error "String too long")) /\
  (In (int (-1)) (tx_numbers tx_bad_inputs_256) /\ (int (-1) < 0)%Qc /\
   encodeTransaction tx_bad_inputs_256 = Throw (Error "Inputs too long")).
Proof.
  split; (split; [|split; reflexivity]).
  - left. reflexivity.
  - right. left. reflexivity.
Qed.

(** C3 (amended): a number that is negative or has a fractional part is
    rejected by [writeNumber], which throws (the [RangeError] of [BigInt]
    or of [writeBigUInt64BE], the specification's InvalidNumber) and emits
    no byte; [encodeTransaction] throws on every transaction that has such
    a number among its numeric fields and returns no buffer; the exception
    is that [RangeError] when the strings and the two lengths are within
    their limits, and otherwise it can be the error of a check that comes
    earlier: "String too long", "Inputs too long" or "Outputs too
    long". *)
Theorem writeNumber_rejects n :
  (n < 0)%Qc \/ is_integer n = false ->
  writeNumber n = Throw RangeError /\
  forall tx, In n (tx_numbers tx) ->
    exists e, encodeTransaction tx = Throw e /\
      (forallb string_ok (tx_strings tx) = true ->
       (length (inputs tx) <= 255)%nat ->
       (length (outputs tx) <= 255)%nat -> e = RangeError) /\
      (e = RangeError \/ e = Error "String too long" \/
       e = Error "Inputs too long" \/ e = Error "Outputs too long").
Proof.
  intros Hn.
  assert (number_ok n = false) as Hbad
    by (destruct Hn; [now apply number_ok_negative
                     | now apply number_ok_fractional]).
  split.
  - pose proof (writeNumber_spec n) as H.
    destruct (writeNumber n); destruct H as [H ?]; congruence.
  - intros tx Hin.
    assert (forallb number_ok (tx_numbers tx) = false) as Hnums.
    { destruct (forallb number_ok (tx_numbers tx)) eqn:E; [|reflexivity].
      rewrite forallb_forall in E. rewrite (E _ Hin) in Hbad. discriminate. }
    pose proof (encodeTransaction_spec tx) as H.
    destruct (encodeTransaction tx) as [b|e]; destruct H as [Hlim H].
    + rewrite within_limits_fields, Hnums, andb_false_r in Hlim. discriminate.
    + exists e. split; [reflexivity|]. split.
      * intros Hs Hi Ho.
        destruct H as [[[_ H]|[H _]]|[[_ H]|[_ H]]];
          [congruence | assumption | lia | lia].
      * destruct H as [[[H _]|[H _]]|[[H _]|[H _]]]; auto.
Qed.

Lemma writeNumber_rejects_witness :
  writeNumber (int (-5)) = Throw RangeError /\
  encodeTransaction tx_negative = Throw RangeError /\
  writeNumber (Q2Qc (1 # 2)) = Throw RangeError /\
  encodeTransaction tx_fractional = Throw RangeError.
Proof.
  destruct (writeNumber_rejects (int (-5))) as [H1 H2]; [left; reflexivity|].
  destruct (writeNumber_rejects (Q2Qc (1 # 2))) as [H3 H4]; [right; reflexivity|].
  destruct (H2 tx_negative) as (e1 & E1 & K1 & _); [left; reflexivity|].
  destruct (H4 tx_fractional) as (e2 & E2 & K2 & _);
    [right; left; reflexivity|].
  rewrite E1, E2, H1, H3.
  rewrite K1, K2 by (reflexivity || (cbn; lia)).
  repeat split.
Defined.

(** C7: with every numeric field an unsigned 64-bit integer,
    [encodeTransaction] succeeds when every string has at most 255 UTF-8
    bytes and there are at most 255 inputs and at most 255 outputs (so with
    exactly 255 of each and a string of exactly 255 bytes); it throws
    "Inputs too long" on 256 inputs, "Outputs too long" on 256 outputs,
    and "String too long" when a string field has 256 bytes. *)
Theorem length_boundaries tx :
  forallb number_ok (tx_numbers tx) = true ->
  (forallb string_ok (tx_strings tx) = true ->
   (length (inputs tx) <= 255)%nat -> (length (outputs tx) <= 255)%nat ->
   exists buffer, encodeTransaction tx = Ok buffer) /\
  (forallb string_ok (tx_strings tx) = true ->
   length (inputs tx) = 256%nat ->
   encodeTransaction tx = Throw (Error "Inputs too long")) /\
  (forallb string_ok (tx_strings tx) = true ->
   (length (inputs tx) <= 255)%nat -> length (outputs tx) = 256%nat ->
   encodeTransaction tx = Throw (Error "Outputs too long")) /\
  ((length (inputs tx) <= 255)%nat -> (length (outputs tx) <= 255)%nat ->
   (exists s, In s (tx_strings tx) /\ length (utf8_encode s) = 256%nat) ->
   encodeTransaction tx = Throw (Error "String too long")).
Proof.
  intros Hnum.
  pose proof (encodeTransaction_spec tx) as H.
  rewrite within_limits_fields, Hnum in H.
  repeat split.
  - intros Hstr Hi Ho. apply Nat.leb_le in Hi, Ho.
    rewrite Hstr, Hi, Ho in H.
    destruct (encodeTransaction tx) as [b|e]; [now exists b|].
    now destruct H.
  - intros Hstr Hi.
    destruct (encodeTransaction tx) as [b|e]; destruct H as [Hlim H].
    + rewrite Hstr, Hi in Hlim. discriminate.
    + destruct H as [[[_ H]|[_ H]]|[[-> _]|[_ H]]];
        [congruence | congruence | reflexivity | lia].
  - intros Hstr Hi Ho.
    destruct (encodeTransaction tx) as [b|e]; destruct H as [Hlim H].
    + rewrite Hstr, Ho, andb_false_r in Hlim. discriminate.
    + destruct H as [[[_ H]|[_ H]]|[[_ H]|[-> _]]];
        [congruence | congruence | lia | reflexivity].
  - intros Hi Ho (s & Hin & Hlen).
    assert (forallb string_ok (tx_strings tx) = false) as Hstr.
    { destruct (forallb string_ok (tx_strings tx)) eqn:E; [|reflexivity].
      rewrite forallb_forall in E. specialize (E _ Hin).
      unfold string_ok in E. rewrite Hlen in E. discriminate. }
    destruct (encodeTransaction tx) as [b|e]; destruct H as [Hlim H].
    + rewrite Hstr in Hlim. discriminate.
    + destruct H as [[[-> _]|[_ H]]|[[_ H]|[_ H]]];
        [reflexivity | congruence | lia | lia].
Qed.

Lemma length_boundaries_witness :
  (length (inputs tx_at_limits) = 255%nat /\
   length (outputs tx_at_limits) = 255%nat /\
   length (utf8_encode (id tx_at_limits)) = 255%nat /\
   exists buffer, encodeTransaction tx_at_limits = Ok buffer) /\
  encodeTransaction tx_256_inputs = Throw (Error "Inputs too long") /\
  encodeTransaction tx_256_outputs = Throw (Error "Outputs too long") /\
  encodeTransaction tx_256_bytes = Throw (Error "String too long").
Proof.
  split; [do 3 (split; [reflexivity|])|split; [|split]].
  - apply (length_boundaries tx_at_limits);
      (reflexivity || (apply Nat.leb_le; reflexivity)).
  - apply (length_boundaries tx_256_inputs); reflexivity.
  - apply (length_boundaries tx_256_outputs);
      (reflexivity || (apply Nat.leb_le; reflexivity)).
  - apply (length_boundaries tx_256_bytes);
      try (reflexivity || (apply Nat.leb_le; reflexivity)).
    exists (repeat 0x61 256). split; [|reflexivity].
    vm_compute. do 4 right. left. reflexivity.
Defined.

End CodecClaims.

(** ** The additions of the validator *)

Section Arithmetic.
Import JS ValidatorSpec.

Lemma strict_neq_true a b : strict_neq a b = true <-> a <> b.
Proof.
  destruct a as [x|s], b as [y|s']; cbn [strict_neq].
  - rewrite negb_true_iff, bool_decide_eq_false. split.
    + intros H [= E]. now apply H.
    + intros H E. apply H. now rewrite E.
  - split; [discriminate | reflexivity].
  - split; [discriminate | reflexivity].
  - rewrite negb_true_iff, eqb_false_iff. split.
    + intros H [= E]. now apply H.
    + intros H E. apply H. now rewrite E.
Qed.

Lemma strict_neq_false a b : strict_neq a b = false <-> a = b.
Proof.
  destruct a as [x|s], b as [y|s']; cbn [strict_neq].
  - rewrite negb_false_iff, bool_decide_eq_true.
    split; [now intros -> | now intros [= ->]].
  - split; discriminate.
  - split; discriminate.
  - rewrite negb_false_iff, eqb_true_iff.
    split; [now intros -> | now intros [= ->]].
Qed.

Lemma this_int z : this (int z) = inject_Z z.
Proof.
  unfold int. cbn [this Q2Qc]. apply Qred_identity.
  cbn [Qnum Qden inject_Z]. apply Z.gcd_1_r.
Qed.

Lemma int_add x y : (int x + int y)%Qc = int (x + y).
Proof.
  apply Qc_is_canon.
  change (this (int x + int y)%Qc)
    with (Qred (this (int x) + this (int y))).
  etransitivity; [apply Qred_correct|].
  rewrite !this_int, inject_Z_plus. reflexivity.
Qed.

Lemma floor_log2_int z : z <> 0 -> floor_log2 z 1 = Z.log2 (Z.abs z).
Proof.
  intros Hz. unfold floor_log2.
  change (Z.log2 (Z.pos 1)) with 0. rewrite Z.sub_0_r.
  pose proof (Z.log2_nonneg (Z.abs z)) as Hl.
  destruct (Z.leb_spec 0 (Z.log2 (Z.abs z))); [|lia].
  destruct (Z.log2_spec (Z.abs z)) as [Hlo _]; [lia|].
  destruct (Z.leb_spec (1 * 2 ^ Z.log2 (Z.abs z)) (Z.abs z)); [reflexivity|lia].
Qed.

Lemma nearest_even_1 n : nearest_even n 1 = n.
Proof.
  unfold nearest_even. rewrite Z.mod_1_r, Z.div_1_r. reflexivity.
Qed.

(** An integer below [2^53] in absolute value is a double. *)
Lemma round_int z : Z.abs z < 2 ^ 53 -> round (int z) = Finite (int z).
Proof.
  intros Hz. unfold round. rewrite this_int. cbn [Qnum Qden inject_Z].
  destruct (Z.eqb_spec z 0) as [->|Hne]; [reflexivity|].
  rewrite floor_log2_int by assumption.
  assert (0 <= Z.log2 (Z.abs z) <= 52) as Hl.
  { split; [apply Z.log2_nonneg|].
    enough (Z.log2 (Z.abs z) < 53) by lia.
    apply Z.log2_lt_pow2; lia. }
  rewrite Z.max_l by lia.
  destruct (Z.leb_spec 0 (Z.log2 (Z.abs z) - 52)) as [Hp|Hp].
  - replace (Z.log2 (Z.abs z) - 52) with 0 by lia.
    change (Z.pos 1 * 2 ^ 0) with 1. rewrite nearest_even_1.
    change (2 ^ 0) with 1. rewrite !Z.mul_1_r.
    destruct (Z.leb_spec (2 ^ 1024) (Z.abs z)) as [Hbig|_]; [|reflexivity].
    exfalso. assert (2 ^ 53 <= 2 ^ 1024) by (apply Z.pow_le_mono_r; lia). lia.
  - rewrite nearest_even_1. f_equal. apply Qc_is_canon.
    unfold int. cbn [this Q2Qc]. rewrite !Qred_correct.
    unfold Qeq. cbn [Qnum Qden inject_Z].
    rewrite Z2Pos.id by (apply Z.pow_pos_nonneg; lia). lia.
Qed.

Lemma add_int x y :
  Z.abs (x + y) < 2 ^ 53 -> add (Finite (int x)) (int y) = Finite (int (x + y)).
Proof.
  intros H. unfold add. rewrite int_add. now apply round_int.
Qed.

Lemma sum_from_app start l1 l2 :
  sum_from start (l1 ++ l2) = sum_from (sum_from start l1) l2.
Proof. unfold sum_from. apply fold_left_app. Qed.

Lemma sum_from_safe amounts : forall acc,
  safe_from acc amounts = true ->
  sum_from (Finite (int acc)) amounts
  = Finite (int acc + exact_sum amounts)%Qc.
Proof.
  induction amounts as [|a amounts IH]; intros acc Hs;
    cbn [sum_from fold_left exact_sum fold_right].
  - now rewrite Qcplus_0_r.
  - cbn [safe_from] in Hs. apply andb_true_iff in Hs as [Hs Hrest].
    apply andb_true_iff in Hs as [Hint Hlt]. apply Z.ltb_lt in Hlt.
    rewrite <- (int_Qnum a Hint) at 1.
    rewrite add_int by assumption.
    fold (sum_from (Finite (int (acc + Qnum a))) amounts).
    rewrite IH by assumption. fold (exact_sum amounts).
    rewrite <- int_add, (int_Qnum a Hint). f_equal.
    symmetry. apply Qcplus_assoc.
Qed.

(** When the amounts are integers and their sums, one amount after the
    other, stay below [2^53] in absolute value, the total that the program
    computes is the exact sum. *)
Lemma computed_total_safe amounts :
  safe_integers amounts = true ->
  computed_total amounts = Finite (exact_sum amounts).
Proof.
  intros Hs. unfold computed_total.
  rewrite (sum_from_safe amounts 0 Hs). f_equal. apply Qcplus_0_l.
Qed.

(** The additions round as those of the platform do: a tie goes to the
    even significand, a small amount is absorbed by a large one, the sum
    of two doubles is not always a decimal one expects, and the largest
    double added to itself is an infinity. *)
Lemma add_rounds :
  add (Finite (int (2 ^ 53))) (int 1) = Finite (int (2 ^ 53)) /\
  add (Finite (int (2 ^ 53))) (int 3) = Finite (int (2 ^ 53 + 4)) /\
  add (Finite (int (2 ^ 60))) (int (-1)) = Finite (int (2 ^ 60)) /\
  add (Finite (int 100)) (Q2Qc (1 # 2 ^ 60)) = Finite (int 100) /\
  add (Finite (Q2Qc (3602879701896397 # 2 ^ 55)))
      (Q2Qc (3602879701896397 # 2 ^ 54))
  = Finite (Q2Qc (1351079888211149 # 2 ^ 52)) /\
  add (Finite (int ((2 ^ 53 - 1) * 2 ^ 971))) (int ((2 ^ 53 - 1) * 2 ^ 971))
  = Infinity false /\
  add (Infinity false) (int (-1)) = Infinity false.
Proof.
  repeat split; vm_compute; try reflexivity;
    f_equal; apply Qc_is_canon; reflexivity.
Qed.

End Arithmetic.

(** ** The validator *)

Section ValidatorFacts.
Import JS Validator ValidatorSpec.

Variable getUTXO : string -> number -> option UTXO.
Variable getUTXOKey : UTXOId -> string.
Variable toString : float -> string.
Variable JSON_stringify : json -> string.

Local Abbreviation body verify :=
  (validateTransaction_body getUTXO verify getUTXOKey toString JSON_stringify).
Local Abbreviation loop verify :=
  (validateTransaction_loop getUTXO verify getUTXOKey toString JSON_stringify).
Local Abbreviation validate verify :=
  (validateTransaction getUTXO verify getUTXOKey toString JSON_stringify).
Local Abbreviation data := (createTransactionDataForSigning_ JSON_stringify).
Local Abbreviation start tx :=
  (mkState ([] ++ validateNonEmptyInputsAndOutputs tx) (Finite (int 0)) ∅).

Lemma count_code_app c l1 l2 :
  count_code c (l1 ++ l2) = (count_code c l1 + count_code c l2)%nat.
Proof. unfold count_code. now rewrite filter_app, length_app. Qed.

Lemma count_code_other c c' l :
  Forall (fun e => code e = c') l -> c' <> c -> count_code c l = 0%nat.
Proof.
  intros Hl Hc. induction Hl as [|[ce me] l He _ IH]; [reflexivity|].
  unfold count_code in *. cbn [code] in He. subst ce.
  cbn [filter code].
  destruct c, c'; cbn [code_eqb]; try assumption; congruence.
Qed.

Lemma count_code_nil c : count_code c [] = 0%nat.
Proof. reflexivity. Qed.

(** *** The balance check *)

Lemma validateBalance_loop_total outs : forall errors total,
  snd (validateBalance_loop toString outs errors total)
  = sum_from total (map amount outs).
Proof.
  induction outs as [|o outs IH]; intros errors total;
    cbn [validateBalance_loop map sum_from fold_left snd]; [reflexivity|].
  now rewrite IH.
Qed.

Lemma validateBalance_loop_errors outs : forall errors total,
  exists new,
    fst (validateBalance_loop toString outs errors total) = errors ++ new /\
    Forall (fun e => code e = NEGATIVE_AMOUNT) new.
Proof.
  induction outs as [|o outs IH]; intros errors total;
    cbn [validateBalance_loop fst].
  - exists []. now rewrite app_nil_r.
  - destruct (le_zero (amount o)).
    + destruct (IH (errors ++
                    [createValidationError NEGATIVE_AMOUNT
                       (lit "Output amount can not be negative or zero: "
                        ++ toString (Finite (amount o)))])
                   (add total (amount o))) as (new & -> & Hnew).
      eexists (_ :: new). split; [now rewrite <- app_assoc|].
      constructor; [reflexivity | assumption].
    + apply IH.
Qed.

(** [validateBalance] reports the outputs that are not positive and then,
    exactly when the two totals differ, the mismatch. *)
Lemma validateBalance_spec inputsTotal tx :
  exists new,
    Forall (fun e => code e = NEGATIVE_AMOUNT) new /\
    validateBalance toString inputsTotal tx =
    new ++
    (if strict_neq inputsTotal (computed_total (map amount (outputs tx)))
     then [createValidationError AMOUNT_MISMATCH
             (lit "AMOUNTS MISMATCH: " ++ toString inputsTotal ++ lit " != "
              ++ toString (computed_total (map amount (outputs tx))))]
     else []).
Proof.
  unfold validateBalance.
  pose proof (validateBalance_loop_total (outputs tx) [] (Finite (int 0)))
    as Ht.
  destruct (validateBalance_loop_errors (outputs tx) [] (Finite (int 0)))
    as (new & He & Hnew).
  destruct (validateBalance_loop toString (outputs tx) [] (Finite (int 0)))
    as [errors total].
  cbn [fst snd app] in *. subst errors total.
  exists new. split; [assumption|].
  fold (computed_total (map amount (outputs tx))).
  destruct (strict_neq inputsTotal (computed_total (map amount (outputs tx))));
    [reflexivity | now rewrite app_nil_r].
Qed.

(** *** The loop over the inputs *)

Section WithVerifier.
Variable verify : string -> string -> string -> bool.

(** What one iteration does to the total. *)
Lemma body_total tx input st :
  imputTotal (body verify tx input st)
  = sum_from (imputTotal st) (input_amounts getUTXO input).
Proof.
  unfold validateTransaction_body, input_amounts.
  destruct (getUTXO _ _) as [u|]; cbn [imputTotal]; [|reflexivity].
  unfold validateDoubleSpending.
  destruct (bool_decide _); reflexivity.
Qed.

Lemma loop_total tx ins : forall st,
  imputTotal (loop verify tx ins st)
  = sum_from (imputTotal st) (resolved_amounts getUTXO ins).
Proof.
  induction ins as [|i ins IH]; intros st;
    cbn [validateTransaction_loop resolved_amounts flat_map]; [reflexivity|].
  fold (resolved_amounts getUTXO ins).
  now rewrite IH, body_total, sum_from_app.
Qed.

(** One iteration only appends to the errors. *)
Lemma body_errors tx input st :
  exists new,
    st_errors (body verify tx input st) = st_errors st ++ new /\
    match getUTXO (txId (utxoId input)) (outputIndex (utxoId input)) with
    | None =>
        new = [createValidationError UTXO_NOT_FOUND
                 (lit "Utxo not found: " ++ txId (utxoId input) ++ lit ":"
                  ++ toString (Finite (outputIndex (utxoId input))))]
    | Some u =>
        (le_zero (utxo_amount u) = true ->
         In (createValidationError NEGATIVE_AMOUNT
               (lit "Utxo amount must be positive")) new) /\
        count_code DOUBLE_SPENDING new =
        (if bool_decide (getUTXOKey (utxoId input) ∈ utxos st)
         then 1%nat else 0%nat)
    end.
Proof.
  unfold validateTransaction_body.
  destruct (getUTXO _ _) as [u|]; cbn [st_errors]; [|eauto].
  unfold validateDoubleSpending, validateInputSignature.
  destruct (le_zero (utxo_amount u)), (negb (verify _ _ _)),
    (bool_decide _); cbn [st_errors];
    rewrite <- ?app_assoc;
    (eexists; split; [reflexivity || (symmetry; apply app_nil_r)|]);
    (split; [cbn; intros; auto; discriminate | reflexivity]).
Qed.

Lemma loop_errors_app tx ins : forall st,
  exists new, st_errors (loop verify tx ins st) = st_errors st ++ new.
Proof.
  induction ins as [|i ins IH]; intros st; cbn [validateTransaction_loop].
  - exists []. now rewrite app_nil_r.
  - destruct (IH (body verify tx i st)) as (new2 & ->).
    destruct (body_errors tx i st) as (new1 & -> & _).
    exists (new1 ++ new2). now rewrite app_assoc.
Qed.

(** Every input is reported on: its own errors are among the final
    ones. *)
Lemma loop_reports tx ins input :
  In input ins -> forall st,
  exists st0 new,
    st_errors (body verify tx input st0) = st_errors st0 ++ new /\
    incl new (st_errors (loop verify tx ins st)) /\
    match getUTXO (txId (utxoId input)) (outputIndex (utxoId input)) with
    | None =>
        new = [createValidationError UTXO_NOT_FOUND
                 (lit "Utxo not found: " ++ txId (utxoId input) ++ lit ":"
                  ++ toString (Finite (outputIndex (utxoId input))))]
    | Some u =>
        le_zero (utxo_amount u) = true ->
        In (createValidationError NEGATIVE_AMOUNT
              (lit "Utxo amount must be positive")) new
    end.
Proof.
  induction ins as [|i ins IH]; intros Hin st; [destruct Hin|].
  cbn [validateTransaction_loop].
  destruct Hin as [->|Hin].
  - destruct (body_errors tx input st) as (new & Hnew & Hcase).
    destruct (loop_errors_app tx ins (body verify tx input st))
      as (rest & Hrest).
    exists st, new. split; [assumption|]. split.
    + rewrite Hrest, Hnew. intros e He.
      apply in_or_app; left. apply in_or_app; now right.
    + destruct (getUTXO _ _); [now destruct Hcase | assumption].
  - apply (IH Hin).
Qed.

Lemma body_utxos tx input st u :
  getUTXO (txId (utxoId input)) (outputIndex (utxoId input)) = Some u ->
  getUTXOKey (utxoId input) ∈ utxos (body verify tx input st).
Proof.
  intros Hu. unfold validateTransaction_body. rewrite Hu.
  unfold validateDoubleSpending.
  destruct (bool_decide (getUTXOKey (utxoId input) ∈ utxos st)) eqn:E;
    cbn [utxos].
  - now apply bool_decide_eq_true in E.
  - apply elem_of_union_l, elem_of_singleton. reflexivity.
Qed.

Lemma body_not_mismatch tx input st :
  Forall not_mismatch (st_errors st) ->
  Forall not_mismatch (st_errors (body verify tx input st)).
Proof.
  intros Hst. unfold validateTransaction_body.
  destruct (getUTXO _ _) as [u|]; cbn [st_errors].
  - unfold validateDoubleSpending, validateInputSignature.
    destruct (le_zero (utxo_amount u)), (negb (verify _ _ _)),
      (bool_decide _); cbn [st_errors];
      repeat (apply Forall_app; split); try assumption;
      now repeat constructor.
  - apply Forall_app; split; [assumption|]. now repeat constructor.
Qed.

Lemma loop_not_mismatch tx ins : forall st,
  Forall not_mismatch (st_errors st) ->
  Forall not_mismatch (st_errors (loop verify tx ins st)).
Proof.
  induction ins as [|i ins IH]; intros st Hst;
    cbn [validateTransaction_loop]; [assumption|].
  now apply IH, body_not_mismatch.
Qed.

Lemma structure_not_mismatch tx :
  Forall not_mismatch ([] ++ validateNonEmptyInputsAndOutputs tx).
Proof.
  unfold validateNonEmptyInputsAndOutputs.
  destruct (length (inputs tx) =? 0)%nat, (length (outputs tx) =? 0)%nat;
    now repeat constructor.
Qed.

Lemma validate_errors tx :
  errors (validate verify tx) =
  st_errors (loop verify tx (inputs tx) (start tx))
  ++ validateBalance toString
       (inputsTotal getUTXO verify getUTXOKey toString JSON_stringify tx) tx.
Proof. reflexivity. Qed.

(** The total that the balance check receives is the one computed over
    the inputs that resolve. *)
Lemma inputsTotal_resolved tx :
  inputsTotal getUTXO verify getUTXOKey toString JSON_stringify tx
  = computed_total (resolved_amounts getUTXO (inputs tx)).
Proof. unfold inputsTotal. now rewrite loop_total. Qed.

(** The mismatch is among the errors exactly when the total of the inputs
    is not the total of the outputs. *)
Lemma mismatch_iff tx :
  (exists e, In e (errors (validate verify tx)) /\ code e = AMOUNT_MISMATCH)
  <-> inputsTotal getUTXO verify getUTXOKey toString JSON_stringify tx
      <> computed_total (map amount (outputs tx)).
Proof.
  rewrite validate_errors.
  set (total := inputsTotal _ _ _ _ _ tx).
  destruct (validateBalance_spec total tx) as (new & Hnew & ->).
  pose proof (loop_not_mismatch tx (inputs tx) (start tx)
                (structure_not_mismatch tx)) as Hloop.
  rewrite List.Forall_forall in Hloop, Hnew.
  rewrite <- strict_neq_true.
  destruct (strict_neq total (computed_total (map amount (outputs tx))));
    split.
  - reflexivity.
  - intros _. eexists. split.
    + apply in_or_app; right. apply in_or_app; right. now left.
    + reflexivity.
  - intros (e & Hin & Hcode). exfalso.
    rewrite app_nil_r in Hin.
    apply in_app_or in Hin as [Hin|Hin].
    + now apply (Hloop e Hin).
    + specialize (Hnew e Hin). congruence.
  - discriminate.
Qed.

Lemma resolved_total_exact ins :
  resolved_total getUTXO ins = exact_sum (resolved_amounts getUTXO ins).
Proof.
  induction ins as [|i ins IH];
    cbn [resolved_total resolved_amounts flat_map fold_right exact_sum];
    [reflexivity|].
  fold (resolved_total getUTXO ins). fold (resolved_amounts getUTXO ins).
  rewrite IH. unfold input_amount, input_amounts.
  destruct (getUTXO _ _); cbn [app exact_sum fold_right];
    [reflexivity | apply Qcplus_0_l].
Qed.

Lemma outputs_total_exact outs :
  outputs_total outs = exact_sum (map amount outs).
Proof.
  induction outs as [|o outs IH];
    cbn [outputs_total map fold_right exact_sum]; [reflexivity|].
  fold (outputs_total outs). now rewrite IH.
Qed.

(** When the additions are exact, the mismatch is reported exactly when
    the exact sums differ. *)
Lemma mismatch_iff_exact tx :
  safe_integers (resolved_amounts getUTXO (inputs tx)) = true ->
  safe_integers (map amount (outputs tx)) = true ->
  ((exists e, In e (errors (validate verify tx)) /\ code e = AMOUNT_MISMATCH)
   <-> resolved_total getUTXO (inputs tx) <> outputs_total (outputs tx)).
Proof.
  intros Hi Ho. rewrite mismatch_iff, inputsTotal_resolved.
  rewrite (computed_total_safe _ Hi), (computed_total_safe _ Ho).
  rewrite resolved_total_exact, outputs_total_exact.
  split; intros H E; apply H; [now rewrite E | now injection E].
Qed.

(** C4: the result of [validateTransaction] has [valid] true exactly when
    its [errors] are empty, and false exactly when there is an error.  The
    function is total: whatever the transaction, the store and the
    verifier, it returns a result, and the findings are in [errors]. *)
Theorem valid_iff_no_errors tx :
  let result :=
    validateTransaction getUTXO verify getUTXOKey toString JSON_stringify tx in
  (valid result = true <-> errors result = []) /\
  (valid result = false <-> exists e, In e (errors result)).
Proof.
  unfold validateTransaction. cbn [valid errors].
  match goal with |- context [length ?l] => generalize l end.
  intros [|e l]; cbn [length Nat.eqb]; split; split;
    try discriminate; try reflexivity.
  - intros (e & []).
  - intros _. exists e. now left.
Qed.

(** Every input that the store does not have is reported. *)
Lemma unknown_utxo_reported tx input :
  In input (inputs tx) ->
  getUTXO (txId (utxoId input)) (outputIndex (utxoId input)) = None ->
  exists e, In e (errors (validate verify tx)) /\ code e = UTXO_NOT_FOUND.
Proof.
  intros Hin Hnone.
  destruct (loop_reports tx (inputs tx) input Hin (start tx))
    as (st0 & new & _ & Hincl & Hnew).
  rewrite Hnone in Hnew. subst new.
  eexists. rewrite validate_errors. split.
  - apply in_or_app; left. apply Hincl. now left.
  - reflexivity.
Qed.

(** C5 (amended): when an input refers to an output that the store does
    not have, the result has an error [UTXO_NOT_FOUND], and the balance is
    checked all the same on the inputs that resolve: the result has an
    error [AMOUNT_MISMATCH] exactly when the total of the outputs differs
    from the total of these inputs, both as the program computes them,
    each addition rounded to a double.  When all the amounts are integers
    and their sums, one amount after the other, stay below [2^53] in
    absolute value, the additions are exact, and both errors are there
    whenever the exact sums differ. *)
Theorem unknown_utxo_and_mismatch tx input :
  In input (inputs tx) ->
  getUTXO (txId (utxoId input)) (outputIndex (utxoId input)) = None ->
  (exists e1,
     In e1 (errors (validate verify tx)) /\ code e1 = UTXO_NOT_FOUND) /\
  ((exists e2,
      In e2 (errors (validate verify tx)) /\ code e2 = AMOUNT_MISMATCH)
   <-> computed_total (map amount (outputs tx))
       <> computed_total (resolved_amounts getUTXO (inputs tx))) /\
  (safe_integers (map amount (outputs tx)) = true ->
   safe_integers (resolved_amounts getUTXO (inputs tx)) = true ->
   outputs_total (outputs tx) <> resolved_total getUTXO (inputs tx) ->
   exists e1 e2,
     In e1 (errors (validate verify tx)) /\ code e1 = UTXO_NOT_FOUND /\
     In e2 (errors (validate verify tx)) /\ code e2 = AMOUNT_MISMATCH).
Proof.
  intros Hin Hnone.
  destruct (unknown_utxo_reported tx input Hin Hnone) as (e1 & Hin1 & Hc1).
  split; [now exists e1|]. split.
  - rewrite mismatch_iff, inputsTotal_resolved.
    split; intros H E; apply H; now rewrite E.
  - intros Ho Hi Hsum.
    destruct (proj2 (mismatch_iff_exact tx Hi Ho)) as (e2 & Hin2 & Hc2);
      [congruence|].
    now exists e1, e2.
Qed.

Lemma structure_no_double_spending tx :
  count_code DOUBLE_SPENDING (validateNonEmptyInputsAndOutputs tx)
  = 0%nat.
Proof.
  unfold validateNonEmptyInputsAndOutputs.
  destruct (length (inputs tx) =? 0)%nat, (length (outputs tx) =? 0)%nat;
    reflexivity.
Qed.

Lemma balance_no_double_spending total tx :
  count_code DOUBLE_SPENDING (validateBalance toString total tx) = 0%nat.
Proof.
  destruct (validateBalance_spec total tx) as (new & Hnew & ->).
  rewrite count_code_app.
  rewrite (count_code_other _ NEGATIVE_AMOUNT new) by (assumption || discriminate).
  now destruct (strict_neq _ _).
Qed.

(** C6: a transaction with exactly two inputs that refer to the same
    output, which the store has, gets exactly one error
    [DOUBLE_SPENDING]. *)
Theorem double_spending_once tx i1 i2 u :
  inputs tx = [i1; i2] -> utxoId i1 = utxoId i2 ->
  getUTXO (txId (utxoId i1)) (outputIndex (utxoId i1)) = Some u ->
  count_code DOUBLE_SPENDING (errors (validate verify tx)) = 1%nat.
Proof.
  intros Hins Heq Hu.
  rewrite validate_errors, Hins. cbn [validateTransaction_loop].
  set (st0 := start tx).
  pose proof (body_utxos tx i1 st0 u Hu) as Hseen.
  destruct (body_errors tx i1 st0) as (new1 & E1 & H1).
  rewrite Hu in H1. destruct H1 as [_ H1].
  set (st1 := body verify tx i1 st0) in *.
  destruct (body_errors tx i2 st1) as (new2 & E2 & H2).
  rewrite <- Heq, Hu in H2. destruct H2 as [_ H2].
  rewrite (bool_decide_eq_true_2 _ Hseen) in H2.
  rewrite bool_decide_eq_false_2 in H1 by (cbn [utxos st0]; set_solver).
  rewrite E2, E1. cbn [st_errors st0].
  rewrite !count_code_app, H1, H2, structure_no_double_spending,
    balance_no_double_spending, count_code_nil.
  reflexivity.
Qed.



End WithVerifier.

(** *** The signed payload *)

Lemma unsignedTx_keys tx :
  json_keys (unsignedTx tx)
  = ["id"; "inputs"]%string
    ++ flat_map (fun _ => ["utxoId"; "owner"]%string) (inputs tx)
    ++ ["outputs"; "timestamp"]%string.
Proof.
  unfold unsignedTx. cbn [json_keys flat_map fst snd app].
  do 2 f_equal. f_equal.
  induction (inputs tx) as [|i ins IH];
    cbn [map flat_map json_keys fst snd app]; [reflexivity|].
  now rewrite IH.
Qed.

Lemma unsignedTx_no_signature tx :
  Forall (fun key => key <> "signature"%string) (json_keys (unsignedTx tx)).
Proof.
  rewrite unsignedTx_keys.
  constructor; [discriminate|]. constructor; [discriminate|].
  apply Forall_app; split; [|now repeat (constructor; [discriminate|])].
  induction (inputs tx) as [|i ins IH]; cbn [flat_map app]; [constructor|].
  now repeat (constructor; [discriminate|]).
Qed.

Lemma unsignedTx_resign f tx : unsignedTx (resign f tx) = unsignedTx tx.
Proof.
  unfold unsignedTx, resign. cbn [id inputs outputs timestamp].
  now rewrite map_map.
Qed.

Lemma unsigned_objects ins : forall ins',
  map (fun input =>
         JObject [("utxoId"%string, JUTXOId (utxoId input));
                  ("owner"%string, JString (owner input))]) ins
  = map (fun input =>
           JObject [("utxoId"%string, JUTXOId (utxoId input));
                    ("owner"%string, JString (owner input))]) ins'
  <-> map (fun input => (utxoId input, owner input)) ins
      = map (fun input => (utxoId input, owner input)) ins'.
Proof.
  induction ins as [|i ins IH]; intros [|i' ins']; cbn [map];
    try (split; discriminate); [tauto|].
  split.
  - intros [= Hu Ho Hrest]. rewrite Hu, Ho. f_equal. now apply IH.
  - intros [= Hu Ho Hrest]. rewrite Hu, Ho. f_equal. now apply IH.
Qed.

(** The object that is serialized holds the [id], the [timestamp], the
    [outputs] and the inputs without their signatures, and nothing
    else of the transaction. *)
Lemma unsignedTx_content tx tx' :
  unsignedTx tx = unsignedTx tx' <->
  id tx = id tx' /\ timestamp tx = timestamp tx' /\
  outputs tx = outputs tx' /\ unsigned_inputs tx = unsigned_inputs tx'.
Proof.
  unfold unsignedTx, unsigned_inputs. split.
  - intros [= Hid Hins Houts Hts]. repeat split; try assumption.
    now apply unsigned_objects.
  - intros (-> & -> & -> & Hins). apply unsigned_objects in Hins.
    now rewrite Hins.
Qed.

Lemma loop_verifier verify verify' tx ins : forall st,
  (forall input, In input ins ->
     verify (data tx) (signature input) (owner input)
     = verify' (data tx) (signature input) (owner input)) ->
  loop verify tx ins st = loop verify' tx ins st.
Proof.
  induction ins as [|i ins IH]; intros st Hagree;
    cbn [validateTransaction_loop]; [reflexivity|].
  rewrite IH by (intros; apply Hagree; now right).
  f_equal. unfold validateTransaction_body, validateInputSignature.
  now rewrite (Hagree i (or_introl eq_refl)).
Qed.

(** C9 (amended): the message that [validateInputSignature] gives to the
    verifier is the serialization of the object made of the transaction's
    [id], of its inputs reduced to [utxoId] and [owner], of its [outputs]
    and of its [timestamp]: a verifier that accepts one message only
    accepts exactly when that message is this serialization; the object
    holds these fields and nothing else of the transaction (two
    transactions give the same object exactly when they agree on them);
    the fields of the objects that are built are [id], [inputs],
    [utxoId] and [owner] for each input, [outputs] and [timestamp], none
    of them [signature]; the message is the same whatever the signatures
    of the inputs are; and the verifier is consulted on nothing else: two
    verifiers that agree on this message, with the signature and the
    owner of each input, give the same validation result. *)
Theorem signing_payload tx :
  (forall m input errors,
     validateInputSignature (fun message _ _ => bool_decide (message = m))
       JSON_stringify tx input errors = errors
     <-> JSON_stringify (unsignedTx tx) = m) /\
  (forall tx',
     unsignedTx tx = unsignedTx tx' <->
     id tx = id tx' /\ timestamp tx = timestamp tx' /\
     outputs tx = outputs tx' /\ unsigned_inputs tx = unsigned_inputs tx') /\
  json_keys (unsignedTx tx)
  = ["id"; "inputs"]%string
    ++ flat_map (fun _ => ["utxoId"; "owner"]%string) (inputs tx)
    ++ ["outputs"; "timestamp"]%string /\
  Forall (fun key => key <> "signature"%string) (json_keys (unsignedTx tx)) /\
  (forall f, data (resign f tx) = data tx) /\
  (forall verify verify',
     (forall input, In input (inputs tx) ->
        verify (data tx) (signature input) (owner input)
        = verify' (data tx) (signature input) (owner input)) ->
     validate verify tx = validate verify' tx).
Proof.
  split; [|split; [apply unsignedTx_content|]].
  - intros m input errors.
    unfold validateInputSignature, createTransactionDataForSigning_.
    destruct (bool_decide (JSON_stringify (unsignedTx tx) = m)) eqn:E;
      cbn [negb].
    + apply bool_decide_eq_true in E. tauto.
    + apply bool_decide_eq_false in E. split; [|contradiction].
      intros H. apply (f_equal (@length _)) in H.
      rewrite length_app in H. cbn [length] in H. lia.
  - split; [apply unsignedTx_keys|].
    split; [apply unsignedTx_no_signature|]. split.
    + intros f. unfold createTransactionDataForSigning_.
      now rewrite unsignedTx_resign.
    + intros verify verify' Hagree. unfold validateTransaction.
      now rewrite (loop_verifier verify verify' tx (inputs tx) _ Hagree).
Qed.

End ValidatorFacts.

(** *** The theorems of the validator on the sample stores *)

Section ValidatorWitnesses.
Import JS Validator ValidatorSpec Samples EdgeSamples.

(** C5, as the specification states it, fails: with an input that holds
    [2^53], an input that the store does not have, and the outputs [2^53]
    and 1, the sum of the outputs differs from the sum of the inputs that
    resolve, and yet the only error is [UTXO_NOT_FOUND]: the program adds
    1 to [2^53] in double precision, which gives [2^53]. *)
Lemma unknown_utxo_without_mismatch :
  In unknown_input (inputs spend_rounded) /\
  vault_getUTXO (txId (utxoId unknown_input))
                (outputIndex (utxoId unknown_input)) = None /\
  outputs_total (outputs spend_rounded)
  <> resolved_total vault_getUTXO (inputs spend_rounded) /\
  map code (errors (vault_validate spend_rounded)) = [UTXO_NOT_FOUND].
Proof.
  split; [right; left; reflexivity|]. split; [reflexivity|].
  split; [discriminate | reflexivity].
Qed.

Lemma unknown_utxo_and_mismatch_witness :
  exists e1 e2,
    In e1 (errors (sample_validate spend_unknown)) /\
    code e1 = UTXO_NOT_FOUND /\
    In e2 (errors (sample_validate spend_unknown)) /\
    code e2 = AMOUNT_MISMATCH.
Proof.
  apply (unknown_utxo_and_mismatch sample_getUTXO sample_getUTXOKey
           sample_toString sample_stringify sample_verify spend_unknown
           (mkInput (mkUTXOId (lit "nowhere") (int 7)) (lit "alice")
                    (lit "sig-alice"))).
  - right. left. reflexivity.
  - reflexivity.
  - reflexivity.
  - reflexivity.
  - discriminate.
Defined.

Lemma double_spending_once_witness :
  count_code DOUBLE_SPENDING (errors (sample_validate spend_twice)) = 1%nat.
Proof.
  eapply (double_spending_once sample_getUTXO sample_getUTXOKey
            sample_toString sample_stringify sample_verify spend_twice);
    reflexivity.
Defined.


(** C9, as the specification states it, fails: when the signature of an
    input is also the text of its owner, that text is in the message. *)
Lemma signature_text_in_payload :
  exists input,
    In input (inputs spend_self_signed) /\
    occurs_in
      (createTransactionDataForSigning_ sample_stringify spend_self_signed)
      (signature input) = true.
Proof. eexists. split; [left; reflexivity | reflexivity]. Qed.

Lemma signing_payload_witness :
  Validator.validateTransaction sample_getUTXO sample_verify
    sample_getUTXOKey sample_toString sample_stringify (spend 100)
  = Validator.validateTransaction sample_getUTXO picky_verify
      sample_getUTXOKey sample_toString sample_stringify (spend 100).
Proof.
  apply (signing_payload sample_getUTXO sample_getUTXOKey sample_toString
           sample_stringify (spend 100)).
  intros input [<-|[]]. reflexivity.
Defined.

End ValidatorWitnesses.

(** ** More on the encoder *)

Section EncoderCoverage.
Import JS Codec Limits Sizes Samples MoreSamples.

Lemma encodeTransaction_inv tx buffer :
  encodeTransaction tx = Ok buffer ->
  within_limits tx = true /\ buffer = layout tx.
Proof.
  intros E. pose proof (encodeTransaction_spec tx) as H.
  now rewrite E in H.
Qed.

(** X1: [encodeTransaction] returns a buffer exactly for the transactions
    within the limits (strings of at most 255 UTF-8 bytes, numbers that are
    unsigned 64-bit integers, at most 255 inputs and 255 outputs), and the
    buffer is then the wire format: the length-prefixed [id], the eight
    bytes of the timestamp, the count of inputs and the inputs, the count of
    outputs and the outputs. *)
Theorem encodeTransaction_exact tx buffer :
  encodeTransaction tx = Ok buffer <->
  within_limits tx = true /\ buffer = layout tx.
Proof.
  split.
  - apply encodeTransaction_inv.
  - intros [Hlim ->]. now apply encodeTransaction_ok.
Qed.

Lemma length_flat_map_sum {A} (f : A -> list Z) (size : A -> nat) l :
  (forall a, length (f a) = size a) ->
  length (flat_map f l) = list_sum (map size l).
Proof.
  intros Hf. induction l as [|a l IH]; cbn [flat_map map list_sum];
    [reflexivity|].
  now rewrite length_app, Hf, IH.
Qed.

Lemma length_layout tx : length (layout tx) = transaction_size tx.
Proof.
  unfold layout, transaction_size.
  rewrite !length_app, length_string_bytes, length_number_bytes.
  rewrite (length_flat_map_sum input_bytes input_size),
    (length_flat_map_sum output_bytes output_size).
  - cbn [length]. lia.
  - intros o. rewrite length_output_bytes. reflexivity.
  - intros i. unfold input_bytes, input_size.
    rewrite !length_app, !length_string_bytes, length_number_bytes. lia.
Qed.

(** X2: the buffer that [encodeTransaction] returns has 11 bytes, plus the
    UTF-8 bytes of [id], plus for every input 11 bytes and the UTF-8 bytes of
    its three strings, plus for every output 9 bytes and the UTF-8 bytes of
    its recipient; so it never has fewer than 11 bytes. *)
Theorem encoded_size tx buffer :
  encodeTransaction tx = Ok buffer ->
  length buffer = transaction_size tx /\ (11 <= length buffer)%nat.
Proof.
  intros E. apply encodeTransaction_inv in E as [_ ->].
  rewrite length_layout. split; [reflexivity|].
  unfold transaction_size. lia.
Qed.

Lemma encoded_size_witness :
  encodeTransaction sample_tx = Ok (layout sample_tx) /\
  length (layout sample_tx) = 65%nat.
Proof.
  split; [reflexivity|].
  destruct (encoded_size sample_tx (layout sample_tx)) as [H _];
    [reflexivity|].
  rewrite H. reflexivity.
Defined.

(** X3: the checks of [encodeTransaction] come in the order of the wire
    format.  An oversized [id] is reported whatever the rest is; then a
    timestamp that is not an unsigned 64-bit integer; the count of inputs is
    checked before any input is written, so more than 255 inputs are
    reported even when an input is itself invalid; the count of outputs is
    checked after the inputs are written, so an invalid input is reported
    (as a string or a number error) even when there are more than 255
    outputs. *)
Theorem encodeTransaction_error_order tx :
  (string_ok (id tx) = false ->
   encodeTransaction tx = Throw (Error "String too long")) /\
  (string_ok (id tx) = true -> number_ok (timestamp tx) = false ->
   encodeTransaction tx = Throw RangeError) /\
  (string_ok (id tx) = true -> number_ok (timestamp tx) = true ->
   (255 < length (inputs tx))%nat ->
   encodeTransaction tx = Throw (Error "Inputs too long")) /\
  (string_ok (id tx) = true -> number_ok (timestamp tx) = true ->
   (length (inputs tx) <= 255)%nat -> forallb input_ok (inputs tx) = false ->
   encodeTransaction tx = Throw (Error "String too long") \/
   encodeTransaction tx = Throw RangeError).
Proof.
  unfold encodeTransaction.
  pose proof (writeString_spec (id tx)) as Hid.
  pose proof (writeNumber_spec (timestamp tx)) as Hts.
  destruct (writeString (id tx)) as [p1|e1]; destruct Hid as [Hid ?]; subst;
    cbn [bind].
  2:{ split; [reflexivity|]. repeat split; congruence. }
  split; [congruence|].
  destruct (writeNumber (timestamp tx)) as [p2|e2]; destruct Hts as [Hts ?];
    subst; cbn [bind].
  2:{ split; [reflexivity|]. repeat split; congruence. }
  split; [congruence|]. split.
  - intros _ _ Hlen.
    destruct (Nat.ltb_spec 255 (length (inputs tx))); [reflexivity | lia].
  - intros _ _ Hlen Hbad.
    destruct (Nat.ltb_spec 255 (length (inputs tx))); [lia|].
    match goal with
    | |- context [writeInputs ?ins ?parts] =>
        pose proof (writeInputs_spec ins parts) as Hins;
        destruct (writeInputs ins parts) as [parts'|e]
    end; cbn [bind].
    + destruct Hins as [Hins _]. congruence.
    + destruct Hins as [_ [[-> _]|[-> _]]]; auto.
Qed.

Lemma encodeTransaction_error_order_witness :
  encodeTransaction tx_bad_inputs_256 = Throw (Error "Inputs too long") /\
  (encodeTransaction tx_bad_input_256_outputs
   = Throw (Error "String too long") \/
   encodeTransaction tx_bad_input_256_outputs = Throw RangeError).
Proof.
  split.
  - apply (encodeTransaction_error_order tx_bad_inputs_256);
      try reflexivity.
    apply Nat.ltb_lt. reflexivity.
  - apply (encodeTransaction_error_order tx_bad_input_256_outputs);
      try reflexivity.
    apply Nat.leb_le. reflexivity.
Defined.

(** X4: the encoding is a prefix code on the transactions whose strings
    have no unpaired surrogate: when the encodings of two of them, each
    followed by any bytes, are the same buffer, the two transactions are
    the same, and so are the bytes that follow.  In particular two
    different transactions never have the same encoding, and no encoding is
    the beginning of another. *)
Theorem encoding_prefix_free tx1 tx2 buffer1 buffer2 rest1 rest2 :
  strings_well_formed tx1 = true -> strings_well_formed tx2 = true ->
  encodeTransaction tx1 = Ok buffer1 -> encodeTransaction tx2 = Ok buffer2 ->
  buffer1 ++ rest1 = buffer2 ++ rest2 ->
  tx1 = tx2 /\ buffer1 = buffer2 /\ rest1 = rest2.
Proof.
  intros Hwf1 Hwf2 E1 E2 Heq.
  apply encodeTransaction_inv in E1 as [Hlim1 ->].
  apply encodeTransaction_inv in E2 as [Hlim2 ->].
  pose proof (decodeTransaction_layout tx1 rest1 Hlim1) as D1.
  pose proof (decodeTransaction_layout tx2 rest2 Hlim2) as D2.
  rewrite Heq, D2, !reread_well_formed in D1 by assumption.
  injection D1 as <-. split; [reflexivity|]. split; [reflexivity|].
  now apply app_inv_head in Heq.
Qed.

Lemma encoding_prefix_free_witness :
  sample_tx = sample_tx /\ layout sample_tx = layout sample_tx /\
  [1; 2] = [1; 2].
Proof.
  apply (encoding_prefix_free sample_tx sample_tx (layout sample_tx)
           (layout sample_tx) [1; 2] [1; 2]); reflexivity.
Defined.

End EncoderCoverage.

(** ** More on the decoder *)

Section DecoderCoverage.
Import JS Codec Limits Sizes Samples MoreSamples.

Lemma readInputs_throws buf count : forall acc o e,
  readInputs buf count acc o = Throw e -> e = RangeError.
Proof.
  induction count as [|count IH]; intros acc o e; cbn [readInputs];
    [discriminate|].
  destruct (readInput buf o) as [[input next]|e'] eqn:E; cbn [bind].
  - apply IH.
  - intros [= <-]. now apply readInput_throws in E.
Qed.

Lemma readOutputs_throws buf count : forall acc o e,
  readOutputs buf count acc o = Throw e -> e = RangeError.
Proof.
  induction count as [|count IH]; intros acc o e; cbn [readOutputs];
    [discriminate|].
  destruct (readOutput buf o) as [[output next]|e'] eqn:E; cbn [bind].
  - apply IH.
  - intros [= <-]. now apply readOutput_throws in E.
Qed.

Lemma decodeTransaction_RangeError buffer e :
  decodeTransaction buffer = Throw e -> e = RangeError.
Proof.
  unfold decodeTransaction.
  destruct (readString buffer 0) as [[i o1]|e1] eqn:E1; cbn [bind];
    [|intros [= <-]; now apply readString_throws in E1].
  destruct (readNumber buffer o1) as [[ts o2]|e2] eqn:E2; cbn [bind];
    [|intros [= <-]; now apply readNumber_throws in E2].
  destruct (readUInt8 buffer o2) as [n3|e3] eqn:E3; cbn [bind];
    [|intros [= <-]; now apply readUInt8_throws in E3].
  destruct (readInputs buffer (Z.to_nat n3) [] (o2 + 1)) as [[ins o4]|e4] eqn:E4;
    cbn [bind]; [|intros [= <-]; now apply readInputs_throws in E4].
  destruct (readUInt8 buffer o4) as [n5|e5] eqn:E5; cbn [bind];
    [|intros [= <-]; now apply readUInt8_throws in E5].
  destruct (readOutputs buffer (Z.to_nat n5) [] (o4 + 1)) as [[outs o6]|e6] eqn:E6;
    cbn [bind]; [|intros [= <-]; now apply readOutputs_throws in E6].
  discriminate.
Qed.

(** X5: whatever the buffer, [decodeTransaction] throws nothing but the
    [RangeError] of an out-of-range read: it has no check of its own and
    never throws one of the [Error]s of the encoder. *)
Theorem decodeTransaction_throws buffer e :
  decodeTransaction buffer = Throw e -> e = RangeError.
Proof. apply decodeTransaction_RangeError. Qed.

Lemma decodeTransaction_throws_witness :
  decodeTransaction [] = Throw RangeError /\
  decodeTransaction [200; 1; 2] = Throw RangeError.
Proof.
  destruct (decodeTransaction []) as [tx|e] eqn:E1; [discriminate E1|].
  destruct (decodeTransaction [200; 1; 2]) as [tx|e'] eqn:E2;
    [discriminate E2|].
  rewrite (decodeTransaction_throws [] e E1).
  rewrite (decodeTransaction_throws [200; 1; 2] e' E2).
  split; reflexivity.
Defined.

(** *** How far the reads go *)

Lemma readUInt8_bounds buf o b :
  readUInt8 buf o = Ok b -> (o < length buf)%nat /\ In b buf.
Proof.
  unfold readUInt8. destruct (nth_error buf o) as [b'|] eqn:E; [|discriminate].
  intros [= <-]. split.
  - apply nth_error_Some. congruence.
  - eapply nth_error_In; eassumption.
Qed.

Lemma readString_bounds buf o v o' :
  readString buf o = Ok (v, o') -> (o < length buf)%nat /\ (o + 1 <= o')%nat.
Proof.
  unfold readString. destruct (readUInt8 buf o) as [b|] eqn:E; cbn [bind];
    [|discriminate].
  intros [= _ <-]. apply readUInt8_bounds in E as [E _]. lia.
Qed.

Lemma readNumber_bounds buf o v o' :
  readNumber buf o = Ok (v, o') ->
  (o + 8 <= length buf)%nat /\ o' = (o + 8)%nat.
Proof.
  unfold readNumber, readBigUInt64BE.
  destruct (Nat.leb_spec (o + 8) (length buf)); cbn [bind]; [|discriminate].
  intros [= _ <-]. lia.
Qed.

Lemma readInput_bounds buf o v o' :
  readInput buf o = Ok (v, o') ->
  (o + 11 <= length buf)%nat /\ (o + 11 <= o')%nat.
Proof.
  unfold readInput.
  destruct (readString buf o) as [[s1 o1]|] eqn:E1; cbn [bind]; [|discriminate].
  destruct (readNumber buf o1) as [[n2 o2]|] eqn:E2; cbn [bind]; [|discriminate].
  destruct (readString buf o2) as [[s3 o3]|] eqn:E3; cbn [bind]; [|discriminate].
  destruct (readString buf o3) as [[s4 o4]|] eqn:E4; cbn [bind]; [|discriminate].
  intros [= _ <-].
  apply readString_bounds in E1, E3, E4. apply readNumber_bounds in E2. lia.
Qed.

Lemma readOutput_bounds buf o v o' :
  readOutput buf o = Ok (v, o') ->
  (o + 9 <= length buf)%nat /\ (o + 9 <= o')%nat.
Proof.
  unfold readOutput.
  destruct (readNumber buf o) as [[n1 o1]|] eqn:E1; cbn [bind]; [|discriminate].
  destruct (readString buf o1) as [[s2 o2]|] eqn:E2; cbn [bind]; [|discriminate].
  intros [= _ <-].
  apply readString_bounds in E2. apply readNumber_bounds in E1. lia.
Qed.

Lemma readInputs_bounds buf count : forall acc o l o',
  readInputs buf count acc o = Ok (l, o') ->
  length l = (length acc + count)%nat /\ (o + 11 * count <= o')%nat /\
  (count <> 0%nat -> (o + 11 * count <= length buf)%nat).
Proof.
  induction count as [|count IH]; intros acc o l o'; cbn [readInputs].
  - intros [= <- <-]. lia.
  - destruct (readInput buf o) as [[input next]|] eqn:E; cbn [bind];
      [|discriminate].
    intros H. apply IH in H as (Hl & Ho & Hb).
    apply readInput_bounds in E. rewrite length_app in Hl. cbn [length] in Hl.
    repeat split; lia.
Qed.

Lemma readOutputs_bounds buf count : forall acc o l o',
  readOutputs buf count acc o = Ok (l, o') ->
  length l = (length acc + count)%nat /\ (o + 9 * count <= o')%nat /\
  (count <> 0%nat -> (o + 9 * count <= length buf)%nat).
Proof.
  induction count as [|count IH]; intros acc o l o'; cbn [readOutputs].
  - intros [= <- <-]. lia.
  - destruct (readOutput buf o) as [[output next]|] eqn:E; cbn [bind];
      [|discriminate].
    intros H. apply IH in H as (Hl & Ho & Hb).
    apply readOutput_bounds in E. rewrite length_app in Hl. cbn [length] in Hl.
    repeat split; lia.
Qed.

(** What a successful [decodeTransaction] has read: the two counts, and the
    offsets. *)
Lemma decodeTransaction_Ok buffer tx :
  decodeTransaction buffer = Ok tx ->
  exists n3 n5,
    In n3 buffer /\ In n5 buffer /\
    length (inputs tx) = Z.to_nat n3 /\
    length (outputs tx) = Z.to_nat n5 /\
    (11 + 11 * length (inputs tx) + 9 * length (outputs tx)
     <= length buffer)%nat.
Proof.
  unfold decodeTransaction.
  destruct (readString buffer 0) as [[i o1]|] eqn:E1; cbn [bind]; [|discriminate].
  destruct (readNumber buffer o1) as [[ts o2]|] eqn:E2; cbn [bind]; [|discriminate].
  destruct (readUInt8 buffer o2) as [n3|] eqn:E3; cbn [bind]; [|discriminate].
  destruct (readInputs buffer (Z.to_nat n3) [] (o2 + 1)) as [[ins o4]|] eqn:E4;
    cbn [bind]; [|discriminate].
  destruct (readUInt8 buffer o4) as [n5|] eqn:E5; cbn [bind]; [|discriminate].
  destruct (readOutputs buffer (Z.to_nat n5) [] (o4 + 1)) as [[outs o6]|] eqn:E6;
    cbn [bind]; [|discriminate].
  intros [= <-]. cbn [inputs outputs].
  apply readString_bounds in E1. apply readNumber_bounds in E2.
  apply readUInt8_bounds in E3 as [E3 I3]. apply readUInt8_bounds in E5 as [E5 I5].
  apply readInputs_bounds in E4 as (L4 & O4 & _).
  apply readOutputs_bounds in E6 as (L6 & _ & B6).
  cbn [length] in L4, L6.
  exists n3, n5. repeat split; try assumption.
  rewrite L4, L6. cbn [Nat.add].
  destruct (Z.to_nat n5) as [|c]; [lia|]. specialize (B6 ltac:(lia)). lia.
Qed.

(** X6: a buffer that [decodeTransaction] accepts has at least 11 bytes,
    plus 11 for every input and 9 for every output of the transaction it
    returns; every buffer of fewer than 11 bytes is rejected with a
    [RangeError]. *)
Theorem decodeTransaction_minimum_size buffer :
  (forall tx, decodeTransaction buffer = Ok tx ->
     (11 + 11 * length (inputs tx) + 9 * length (outputs tx)
      <= length buffer)%nat) /\
  ((length buffer < 11)%nat -> decodeTransaction buffer = Throw RangeError).
Proof.
  split.
  - intros tx E. now destruct (decodeTransaction_Ok buffer tx E)
      as (n3 & n5 & _ & _ & _ & _ & H).
  - intros Hlen. destruct (decodeTransaction buffer) as [tx|e] eqn:E.
    + destruct (decodeTransaction_Ok buffer tx E)
        as (n3 & n5 & _ & _ & _ & _ & H). lia.
    + now rewrite (decodeTransaction_RangeError buffer e E).
Qed.

Lemma decodeTransaction_minimum_size_witness :
  decodeTransaction [0; 0; 0; 0; 0; 0; 0; 0; 0; 0] = Throw RangeError /\
  (11 + 11 * 1 + 9 * 1 <= length (layout tx_short_recipient))%nat.
Proof.
  split.
  - apply (decodeTransaction_minimum_size [0; 0; 0; 0; 0; 0; 0; 0; 0; 0]).
    cbn. lia.
  - apply (proj1 (decodeTransaction_minimum_size (layout tx_short_recipient))
             tx_short_recipient).
    reflexivity.
Defined.

(** X7: the two counts of the wire format are single bytes.  When every
    element of the buffer is a byte, a transaction that [decodeTransaction]
    returns has at most 255 inputs and at most 255 outputs, as many as the
    count bytes say. *)
Theorem decodeTransaction_counts buffer tx :
  Forall (fun b => 0 <= b <= 255) buffer ->
  decodeTransaction buffer = Ok tx ->
  (length (inputs tx) <= 255)%nat /\ (length (outputs tx) <= 255)%nat.
Proof.
  intros Hbytes E.
  destruct (decodeTransaction_Ok buffer tx E)
    as (n3 & n5 & I3 & I5 & -> & -> & _).
  rewrite List.Forall_forall in Hbytes.
  pose proof (Hbytes n3 I3). pose proof (Hbytes n5 I5). lia.
Qed.

Lemma decodeTransaction_counts_witness :
  (length (inputs tx_short_recipient) <= 255)%nat /\
  (length (outputs tx_short_recipient) <= 255)%nat.
Proof.
  apply (decodeTransaction_counts (layout tx_short_recipient)).
  - apply List.Forall_forall. intros b Hb.
    assert (forallb (fun b => (0 <=? b) && (b <=? 255))
              (layout tx_short_recipient) = true) as H by reflexivity.
    rewrite forallb_forall in H. specialize (H b Hb).
    apply andb_true_iff in H as [H1 H2].
    apply Z.leb_le in H1, H2. lia.
  - reflexivity.
Defined.

(** *** Every way of cutting an encoding short *)

Lemma readInputs_extend buf extra count : forall acc acc' o l o',
  readInputs buf count acc o = Ok (l, o') ->
  exists l', readInputs (buf ++ extra) count acc' o = Ok (l', o').
Proof.
  induction count as [|count IH]; intros acc acc' o l o'; cbn [readInputs].
  - intros [= _ <-]. eauto.
  - destruct (readInput buf o) as [[v next]|] eqn:E; cbn [bind]; [|discriminate].
    destruct (readInput_extend _ extra _ _ _ E) as [v' ->]. cbn [bind].
    apply IH.
Qed.

Lemma readOutput_extend buf extra o v o' :
  readOutput buf o = Ok (v, o') ->
  exists v', readOutput (buf ++ extra) o = Ok (v', o').
Proof.
  unfold readOutput.
  destruct (readNumber buf o) as [[n1 o1]|] eqn:E1; cbn [bind]; [|discriminate].
  destruct (readString buf o1) as [[s2 o2]|] eqn:E2; cbn [bind]; [|discriminate].
  intros [= <- <-].
  rewrite (readNumber_extend _ extra _ _ E1). cbn [bind].
  destruct (readString_extend _ extra _ _ _ E2) as [s2' ->]. cbn [bind].
  eauto.
Qed.

Lemma readOutputs_extend buf extra count : forall acc acc' o l o',
  readOutputs buf count acc o = Ok (l, o') ->
  exists l', readOutputs (buf ++ extra) count acc' o = Ok (l', o').
Proof.
  induction count as [|count IH]; intros acc acc' o l o'; cbn [readOutputs].
  - intros [= _ <-]. eauto.
  - destruct (readOutput buf o) as [[v next]|] eqn:E; cbn [bind]; [|discriminate].
    destruct (readOutput_extend _ extra _ _ _ E) as [v' ->]. cbn [bind].
    apply IH.
Qed.

(** The last iteration of the loop over the outputs. *)
Lemma readOutputs_last buf count : forall acc o l o',
  readOutputs buf (count + 1) acc o = Ok (l, o') ->
  exists l1 o1 v,
    readOutputs buf count acc o = Ok (l1, o1) /\
    readOutput buf o1 = Ok (v, o').
Proof.
  induction count as [|count IH]; intros acc o l o';
    cbn [readOutputs Nat.add].
  - destruct (readOutput buf o) as [[v next]|] eqn:E; cbn [bind]; [|discriminate].
    intros [= _ <-]. eauto.
  - destruct (readOutput buf o) as [[v next]|] eqn:E; cbn [bind]; [|discriminate].
    apply IH.
Qed.

Ltac same_buffer :=
  subst; repeat match goal with b := _ |- _ => subst b end;
  repeat (rewrite <- app_assoc || rewrite <- app_comm_cons
          || rewrite app_nil_l || rewrite app_nil_r);
  reflexivity.

Lemma truncate_prefix k (buffer : Buffer) :
  truncate k buffer ++ skipn (length buffer - k) buffer = buffer.
Proof.
  unfold truncate, subarray. rewrite skipn_O, Nat.sub_0_r.
  apply firstn_skipn.
Qed.

Lemma length_truncate k (buffer : Buffer) :
  length (truncate k buffer) = (length buffer - k)%nat.
Proof.
  unfold truncate, subarray. rewrite skipn_O, Nat.sub_0_r, length_firstn. lia.
Qed.

(** A cut that takes more than the text of the last recipient, or any cut
    when there is no output, makes some read go out of range. *)
Lemma decodeTransaction_cut_short tx k :
  within_limits tx = true -> (0 < k)%nat ->
  (outputs tx = [] \/
   exists outs o, outputs tx = outs ++ [o] /\
                  (length (utf8_encode (recipient o)) < k)%nat) ->
  decodeTransaction (truncate k (layout tx)) = Throw RangeError.
Proof.
  unfold within_limits. intros H Hk Hcase.
  repeat (apply andb_true_iff in H as [H ?]).
  destruct (decodeTransaction (truncate k (layout tx))) as [tx'|e] eqn:E;
    [exfalso | now rewrite (decodeTransaction_RangeError _ e E)].
  pose proof (truncate_prefix k (layout tx)) as Hsplit.
  pose proof (length_truncate k (layout tx)) as Hlen.
  set (cut := truncate k (layout tx)) in *.
  set (extra := skipn (length (layout tx) - k) (layout tx)) in *.
  set (b1 := string_bytes (id tx)).
  set (b2 := number_bytes (timestamp tx)).
  set (n3 := Z.of_nat (length (inputs tx))).
  set (b4 := flat_map input_bytes (inputs tx)).
  set (n5 := Z.of_nat (length (outputs tx))).
  set (b6 := flat_map output_bytes (outputs tx)).
  assert (layout tx = b1 ++ b2 ++ [n3] ++ b4 ++ [n5] ++ b6) as Hlay by reflexivity.
  assert (length b2 = 8%nat) as Hb2 by apply length_number_bytes.
  unfold decodeTransaction in E.
  destruct (readString cut 0) as [[i o1]|] eqn:E1; cbn [bind] in E; [|discriminate].
  destruct (readNumber cut o1) as [[ts o2]|] eqn:E2; cbn [bind] in E; [|discriminate].
  destruct (readUInt8 cut o2) as [c3|] eqn:E3; cbn [bind] in E; [|discriminate].
  destruct (readInputs cut (Z.to_nat c3) [] (o2 + 1)) as [[ins o4]|] eqn:E4;
    cbn [bind] in E; [|discriminate].
  destruct (readUInt8 cut o4) as [c5|] eqn:E5; cbn [bind] in E; [|discriminate].
  destruct (readOutputs cut (Z.to_nat c5) [] (o4 + 1)) as [[outs' o6]|] eqn:E6;
    cbn [bind] in E; [|discriminate].
  clear E.
  (* the same reads on the whole encoding stop at the same offsets *)
  destruct (readString_extend _ extra _ _ _ E1) as [i' F1].
  rewrite Hsplit in F1.
  rewrite (readString_at (layout tx) [] (id tx) (b2 ++ [n3] ++ b4 ++ [n5] ++ b6))
    in F1 by reflexivity.
  apply Ok_pair_inj in F1 as [_ F1]. fold b1 in F1. cbn [Nat.add] in F1.
  pose proof (readNumber_bounds _ _ _ _ E2) as [_ F2].
  pose proof (readUInt8_extend _ extra _ _ E3) as F3.
  rewrite Hsplit in F3.
  rewrite (readUInt8_at (layout tx) (b1 ++ b2) n3 (b4 ++ [n5] ++ b6))
    in F3 by (same_buffer || (rewrite length_app; lia)).
  injection F3 as <-.
  unfold n3 in E4. rewrite Nat2Z.id in E4.
  destruct (readInputs_extend _ extra _ _ [] _ _ _ E4) as [ins' F4].
  rewrite Hsplit in F4.
  rewrite (readInputs_at (inputs tx) (layout tx) (b1 ++ b2 ++ [n3])
             ([n5] ++ b6))
    in F4 by (assumption || same_buffer ||
              (rewrite !length_app; cbn [length]; lia)).
  apply Ok_pair_inj in F4 as [_ F4]. fold b4 in F4.
  pose proof (readUInt8_bounds _ _ _ E5) as [B5 _].
  pose proof (readUInt8_extend _ extra _ _ E5) as F5.
  rewrite Hsplit in F5.
  rewrite (readUInt8_at (layout tx) (b1 ++ b2 ++ [n3] ++ b4) n5 b6)
    in F5 by (same_buffer || (rewrite !length_app; cbn [length]; lia)).
  injection F5 as <-.
  assert (length (layout tx) = (o4 + 1 + length b6)%nat) as Hall.
  { rewrite Hlay, !length_app. cbn [length]. lia. }
  destruct Hcase as [Hnone | (outs & o & Houts & Hshort)].
  - (* no output: the count of outputs is the last byte *)
    unfold b6 in Hall. rewrite Hnone in Hall. cbn [flat_map length] in Hall.
    lia.
  - (* the last output starts less than nine bytes before the cut *)
    unfold n5 in E6. rewrite Nat2Z.id, Houts, length_app in E6.
    cbn [length] in E6.
    apply readOutputs_last in E6 as (l1 & q & v & E6 & E7).
    destruct (readOutputs_extend _ extra _ _ [] _ _ _ E6) as [l1' F6].
    rewrite Hsplit in F6.
    assert (forallb output_ok outs = true) as Hok.
    { match goal with Hf : forallb output_ok (outputs tx) = true |- _ =>
        rewrite Houts, forallb_app in Hf;
        now apply andb_true_iff in Hf as [Hf _] end. }
    rewrite (readOutputs_at outs (layout tx) (b1 ++ b2 ++ [n3] ++ b4 ++ [n5])
               (output_bytes o))
      in F6 by (assumption ||
                (rewrite !length_app; cbn [length]; lia) ||
                (rewrite Hlay; unfold b6; rewrite Houts, flat_map_app;
                 cbn [flat_map]; same_buffer)).
    apply Ok_pair_inj in F6 as [_ F6].
    apply readOutput_bounds in E7 as [B7 _].
    unfold b6 in Hall. rewrite Houts, flat_map_app, length_app in Hall.
    cbn [flat_map] in Hall. rewrite app_nil_r, length_output_bytes in Hall.
    lia.
Qed.

(** A cut inside the text of the last recipient is not noticed. *)
Lemma decodeTransaction_cut_recipient tx outs o k :
  within_limits tx = true -> outputs tx = outs ++ [o] ->
  (k <= length (utf8_encode (recipient o)))%nat ->
  decodeTransaction (truncate k (layout tx)) =
  Ok (mkTransaction (reread (id tx)) (map reread_input (inputs tx))
                    (map reread_output outs ++ [cut_recipient k o])
                    (timestamp tx)).
Proof.
  unfold within_limits. intros H Houts Hk.
  repeat (apply andb_true_iff in H as [H ?]).
  destruct tx as [tid ins outs0 ts]. cbn [id inputs outputs timestamp] in *.
  subst outs0. unfold layout. cbn [id inputs outputs timestamp].
  rewrite forallb_app in *. cbn [forallb] in *.
  match goal with H : _ && _ = true |- _ =>
    apply andb_true_iff in H as [Houts Ho] end.
  rewrite andb_true_r in Ho. apply andb_true_iff in Ho as [Hamount _].
  rewrite flat_map_app. cbn [flat_map]. rewrite app_nil_r.
  replace (length (outs ++ [o])) with (length outs + 1)%nat
    by (rewrite length_app; reflexivity).
  replace (length ins) with (length ins + 0)%nat at 1 by lia.
  set (P := string_bytes tid ++ number_bytes ts ++
            [Z.of_nat (length ins + 0)] ++ flat_map input_bytes ins).
  set (n5 := Z.of_nat (length outs + 1)).
  set (b6 := flat_map output_bytes outs).
  set (L := length (utf8_encode (recipient o))) in *.
  set (text := firstn (L - k) (utf8_encode (recipient o))).
  set (buf := truncate k _).
  assert (buf = P ++ [n5] ++ b6 ++ number_bytes (amount o) ++
                Z.of_nat L :: text) as Hbuf.
  { unfold buf.
    match goal with |- truncate k ?b = _ =>
      replace b with ((P ++ [n5] ++ b6 ++ number_bytes (amount o)
                       ++ [Z.of_nat L]) ++ utf8_encode (recipient o))
        by (unfold P, output_bytes, string_bytes; fold L; same_buffer)
    end.
    rewrite truncate_app_tail by (fold L; lia).
    unfold truncate, subarray. rewrite skipn_O, Nat.sub_0_r. fold L text.
    same_buffer. }
  rewrite (decodeTransaction_inputs buf tid ts ins 0
             ([n5] ++ b6 ++ number_bytes (amount o) ++ Z.of_nat L :: text)
             (length P));
    try assumption; try reflexivity.
  2:{ rewrite Hbuf. unfold P. now rewrite <- !app_assoc. }
  cbn [readInputs bind].
  rewrite (readUInt8_at buf P n5
             (b6 ++ number_bytes (amount o) ++ Z.of_nat L :: text))
    by (assumption || reflexivity).
  cbn [bind]. unfold n5 at 1. rewrite Nat2Z.id.
  rewrite (readOutputs_prefix outs buf (P ++ [n5])
             (number_bytes (amount o) ++ Z.of_nat L :: text))
    by (assumption || (rewrite Hbuf, <- !app_assoc; reflexivity) ||
        (rewrite length_app; reflexivity)).
  cbn [readOutputs app]. fold b6.
  unfold readOutput.
  rewrite (readNumber_at buf (P ++ [n5] ++ b6) (amount o) (Z.of_nat L :: text))
    by (assumption || (rewrite Hbuf, <- !app_assoc; reflexivity) ||
        (rewrite !length_app; cbn [length]; lia)).
  cbn [bind].
  rewrite (readString_raw buf (P ++ [n5] ++ b6 ++ number_bytes (amount o))
             (Z.of_nat L) text)
    by ((rewrite Hbuf, <- !app_assoc; reflexivity) ||
        (rewrite !length_app, length_number_bytes; cbn [length]; lia)).
  cbn [bind]. unfold text. rewrite Nat2Z.id, firstn_firstn.
  replace (Nat.min L (L - k)) with (L - k)%nat by lia.
  reflexivity.
Qed.

(** X8: a buffer that has lost its last [k] bytes is accepted without any
    error when these bytes are all bytes of the text of the last
    recipient: [readString] takes whatever [subarray] finds and nothing is
    read after it; the transaction returned has that recipient cut
    short. *)
Theorem truncated_recipient_accepted tx outs o k :
  within_limits tx = true -> outputs tx = outs ++ [o] ->
  (k <= length (utf8_encode (recipient o)))%nat ->
  exists buffer,
    encodeTransaction tx = Ok buffer /\
    decodeTransaction (truncate k buffer) =
    Ok (mkTransaction (reread (id tx)) (map reread_input (inputs tx))
                      (map reread_output outs ++ [cut_recipient k o])
                      (timestamp tx)).
Proof.
  intros Hlim Houts Hk. exists (layout tx). split.
  - now apply encodeTransaction_ok.
  - now apply decodeTransaction_cut_recipient.
Qed.

Lemma truncated_recipient_accepted_witness :
  exists buffer,
    encodeTransaction sample_tx = Ok buffer /\
    decodeTransaction (truncate 6 buffer) =
    Ok (mkTransaction (id sample_tx) (inputs sample_tx)
          [mkOutput (int 100) [0x62; 0xF6; 0x62]] (timestamp sample_tx)).
Proof.
  destruct (truncated_recipient_accepted sample_tx []
              (mkOutput (int 100) ([0x62; 0xF6; 0x62] ++ lit "-alice")) 6)
    as (buffer & Henc & Hdec);
    [reflexivity | reflexivity | apply Nat.leb_le; reflexivity |].
  exists buffer. split; [assumption|]. rewrite Hdec. reflexivity.
Defined.

(** X9: every other way of cutting an encoding short is rejected: when at
    least one byte is dropped and either the transaction has no output or
    more bytes are dropped than the text of the last recipient has,
    [decodeTransaction] throws a [RangeError]. *)
Theorem truncated_buffer_rejected tx k :
  within_limits tx = true -> (0 < k)%nat ->
  (outputs tx = [] \/
   exists outs o, outputs tx = outs ++ [o] /\
                  (length (utf8_encode (recipient o)) < k)%nat) ->
  exists buffer,
    encodeTransaction tx = Ok buffer /\
    decodeTransaction (truncate k buffer) = Throw RangeError.
Proof.
  intros Hlim Hk Hcase. exists (layout tx). split.
  - now apply encodeTransaction_ok.
  - now apply decodeTransaction_cut_short.
Qed.

Lemma truncated_buffer_rejected_witness :
  exists buffer,
    encodeTransaction sample_tx = Ok buffer /\
    decodeTransaction (truncate 20 buffer) = Throw RangeError.
Proof.
  apply (truncated_buffer_rejected sample_tx 20); [reflexivity | lia |].
  right. exists [], (mkOutput (int 100) ([0x62; 0xF6; 0x62] ++ lit "-alice")).
  split; [reflexivity | apply Nat.ltb_lt; reflexivity].
Defined.

End DecoderCoverage.

(** ** The fields, one at a time *)

Section FieldCoverage.
Import JS Codec Limits Sizes Strings Samples MoreSamples.

Lemma be_bytes_range n v : Forall (fun b => 0 <= b <= 255) (be_bytes n v).
Proof.
  revert v; induction n as [|n IH]; intros v; cbn [be_bytes]; [constructor|].
  apply Forall_app; split; [apply IH|].
  constructor; [|constructor].
  pose proof (Z.mod_pos_bound v 256). lia.
Qed.

(** X10: when [writeNumber] returns, it returns exactly eight bytes, the
    big-endian digits of the number in base 256, and [readNumber] at the
    offset where these bytes lie in any buffer returns the number and the
    offset of the byte after them. *)
Theorem writeNumber_readNumber n bytes :
  writeNumber n = Ok bytes ->
  length bytes = 8%nat /\ Forall (fun b => 0 <= b <= 255) bytes /\
  be_value bytes = Qnum n /\
  forall pre post,
    readNumber (pre ++ bytes ++ post) (length pre)
    = Ok (n, (length pre + 8)%nat).
Proof.
  intros E. pose proof (writeNumber_spec n) as H. rewrite E in H.
  destruct H as [Hok ->]. split; [apply length_number_bytes|].
  split; [apply be_bytes_range|]. split.
  - unfold number_bytes, number_ok in *.
    apply andb_true_iff in Hok as [Hok Hhi].
    apply andb_true_iff in Hok as [_ Hlo].
    apply Z.leb_le in Hlo. apply Z.ltb_lt in Hhi.
    rewrite be_value_be_bytes, Z.mod_small by (cbn; lia). reflexivity.
  - intros pre post. now apply (readNumber_at _ pre n post).
Qed.

Lemma writeNumber_readNumber_witness :
  readNumber ([7; 7] ++ [0; 0; 0; 0; 0; 0; 1; 0] ++ [9]) 2
  = Ok (int 256, 10%nat).
Proof.
  destruct (writeNumber_readNumber (int 256) [0; 0; 0; 0; 0; 0; 1; 0])
    as (_ & _ & _ & H); [reflexivity|].
  exact (H [7; 7] [9]).
Defined.

(** X11: when [writeString] returns, it returns the count of the UTF-8
    bytes of the string, which is at most 255, followed by these bytes;
    [readString] at the offset where they lie in any buffer returns the
    offset of the byte after them and the string, provided it has no
    unpaired surrogate. *)
Theorem writeString_readString s bytes :
  writeString s = Ok bytes ->
  (length (utf8_encode s) <= 255)%nat /\
  bytes = Z.of_nat (length (utf8_encode s)) :: utf8_encode s /\
  forall pre post,
    well_formed s = true ->
    readString (pre ++ bytes ++ post) (length pre)
    = Ok (s, (length pre + length bytes)%nat).
Proof.
  intros E. pose proof (writeString_spec s) as H. rewrite E in H.
  destruct H as [Hok ->]. split; [now apply Nat.leb_le|].
  split; [reflexivity|]. intros pre post Hwf.
  rewrite (readString_at _ pre s post) by reflexivity.
  unfold reread. now rewrite utf8_decode_encode.
Qed.

Lemma writeString_readString_witness :
  readString ([7] ++ [3; 0x62; 0x6F; 0x62] ++ [9; 9]) 1
  = Ok (lit "bob", 5%nat).
Proof.
  destruct (writeString_readString (lit "bob") [3; 0x62; 0x6F; 0x62])
    as (_ & _ & H); [reflexivity|].
  exact (H [7] [9; 9] eq_refl).
Defined.

Lemma writeInput_parts i parts parts' :
  writeInput i parts = Ok parts' ->
  parts' = parts ++ [string_bytes (txId (utxoId i));
                     number_bytes (outputIndex (utxoId i));
                     string_bytes (owner i);
                     string_bytes (signature i)].
Proof.
  unfold writeInput.
  pose proof (writeString_spec (txId (utxoId i))) as H1.
  destruct (writeString (txId (utxoId i))); cbn [bind]; [|discriminate].
  pose proof (writeNumber_spec (outputIndex (utxoId i))) as H2.
  destruct (writeNumber (outputIndex (utxoId i))); cbn [bind]; [|discriminate].
  pose proof (writeString_spec (owner i)) as H3.
  destruct (writeString (owner i)); cbn [bind]; [|discriminate].
  pose proof (writeString_spec (signature i)) as H4.
  destruct (writeString (signature i)); cbn [bind]; [|discriminate].
  destruct H1 as [_ ->], H2 as [_ ->], H3 as [_ ->], H4 as [_ ->].
  intros [= <-]. now rewrite <- !app_assoc.
Qed.

Lemma writeOutput_parts o parts parts' :
  writeOutput o parts = Ok parts' ->
  parts' = parts ++ [number_bytes (amount o); string_bytes (recipient o)].
Proof.
  unfold writeOutput.
  pose proof (writeNumber_spec (amount o)) as H1.
  destruct (writeNumber (amount o)); cbn [bind]; [|discriminate].
  pose proof (writeString_spec (recipient o)) as H2.
  destruct (writeString (recipient o)); cbn [bind]; [|discriminate].
  destruct H1 as [_ ->], H2 as [_ ->].
  intros [= <-]. now rewrite <- !app_assoc.
Qed.

(** X12: [writeInput] and [writeOutput] leave the parts pushed before them
    as they are and push four parts and two parts; [readInput] and
    [readOutput], at the offset where the bytes of these parts lie in any
    buffer, return the offset of the byte after them and the input or
    the output, provided its strings have no unpaired surrogate. *)
Theorem write_read_input_output :
  (forall i parts parts',
     writeInput i parts = Ok parts' ->
     exists pushed,
       parts' = parts ++ pushed /\ length pushed = 4%nat /\
       forall pre post,
         forallb well_formed (input_strings i) = true ->
         readInput (pre ++ Buffer_concat pushed ++ post) (length pre)
         = Ok (i, (length pre + length (Buffer_concat pushed))%nat)) /\
  (forall o parts parts',
     writeOutput o parts = Ok parts' ->
     exists pushed,
       parts' = parts ++ pushed /\ length pushed = 2%nat /\
       forall pre post,
         well_formed (recipient o) = true ->
         readOutput (pre ++ Buffer_concat pushed ++ post) (length pre)
         = Ok (o, (length pre + length (Buffer_concat pushed))%nat)).
Proof.
  split.
  - intros i parts parts' E.
    pose proof (writeInput_spec i parts) as H. rewrite E in H.
    destruct H as [Hok _]. apply writeInput_parts in E as ->.
    eexists. split; [reflexivity|]. split; [reflexivity|].
    intros pre post Hwf. unfold Buffer_concat. cbn [concat].
    rewrite app_nil_r.
    rewrite (readInput_at _ pre i post)
      by (assumption || reflexivity ||
          (unfold input_bytes; now rewrite <- !app_assoc)).
    unfold input_strings in Hwf. cbn [forallb] in Hwf.
    repeat (apply andb_true_iff in Hwf as [? Hwf]).
    unfold reread_input, reread. rewrite !utf8_decode_encode by assumption.
    destruct i as [[t n] o s]. cbn [utxoId txId outputIndex owner signature].
    do 2 f_equal.
  - intros o parts parts' E.
    pose proof (writeOutput_spec o parts) as H. rewrite E in H.
    destruct H as [Hok _]. apply writeOutput_parts in E as ->.
    eexists. split; [reflexivity|]. split; [reflexivity|].
    intros pre post Hwf. unfold Buffer_concat. cbn [concat].
    rewrite app_nil_r.
    rewrite (readOutput_at _ pre o post)
      by (assumption || reflexivity ||
          (unfold output_bytes; now rewrite <- !app_assoc)).
    unfold reread_output, reread. rewrite utf8_decode_encode by assumption.
    destruct o as [a r]. cbn [amount recipient]. do 2 f_equal.
Qed.

Lemma write_read_input_output_witness :
  exists pushed,
    [[1]] ++ pushed = [[1]] ++ pushed /\ length pushed = 4%nat /\
    readInput ([5] ++ Buffer_concat pushed ++ [6]) 1
    = Ok (filler_input, (1 + length (Buffer_concat pushed))%nat).
Proof.
  destruct write_read_input_output as [Hin _].
  destruct (writeInput filler_input [[1]]) as [parts'|] eqn:E;
    [|discriminate E].
  destruct (Hin filler_input [[1]] parts' E) as (pushed & _ & Hlen & Hread).
  exists pushed. split; [reflexivity|]. split; [assumption|].
  exact (Hread [5] [6] eq_refl).
Defined.

End FieldCoverage.

(** ** Decoded transactions are canonical *)

Section Canonical.
Import JS Codec Limits Sizes Strings Samples MoreSamples.

Ltac units :=
  repeat match goal with
    | H : (_ && _)%bool = true |- _ => apply andb_true_iff in H; destruct H
    | H : (_ <=? _) = true |- _ => apply Z.leb_le in H
    | H : (_ <? _) = true |- _ => apply Z.ltb_lt in H
    | H : (_ && _)%bool = false |- _ => apply andb_false_iff in H
    | H : (_ <=? _) = false |- _ => apply Z.leb_gt in H
    | H : (_ <? _) = false |- _ => apply Z.ltb_ge in H
    end.

Lemma code_points_of_code_units s :
  code_units s = true -> Forall is_scalar (code_points s).
Proof.
  unfold code_units.
  induction s as [| u | u v s IHs IHv] using string_pair_ind; intros Hs.
  - constructor.
  - cbn [forallb] in Hs. apply andb_true_iff in Hs as [Hu _].
    rewrite code_points_cons. cbn [code_points].
    destruct (is_high_surrogate u) eqn:Hh;
      [|destruct (is_low_surrogate u) eqn:Hl];
      (constructor; [|constructor]).
    1,2: unfold is_scalar; lia.
    unfold is_code_unit, is_high_surrogate, is_low_surrogate, is_scalar in *.
    units. lia.
  - pose proof Hs as Hs'. cbn [forallb] in Hs.
    apply andb_true_iff in Hs as [Hu Hs].
    assert (Hvs : forallb is_code_unit (v :: s) = true) by exact Hs.
    cbn [forallb] in Hs. apply andb_true_iff in Hs as [Hv Hs].
    rewrite code_points_cons.
    destruct (is_high_surrogate u) eqn:Hh;
      [destruct (is_low_surrogate v) eqn:Hl
      |destruct (is_low_surrogate u) eqn:Hl].
    + constructor; [|now apply IHs].
      unfold is_high_surrogate, is_low_surrogate, is_scalar in *.
      units. lia.
    + constructor; [unfold is_scalar; lia | now apply IHv].
    + constructor; [unfold is_scalar; lia | now apply IHv].
    + constructor; [|now apply IHv].
      unfold is_code_unit, is_high_surrogate, is_low_surrogate, is_scalar in *.
      units. lia.
Qed.

Lemma utf16_of_scalar c rest :
  is_scalar c ->
  code_points (utf16_of_code_point c ++ rest) = c :: code_points rest /\
  well_formed (utf16_of_code_point c ++ rest) = well_formed rest.
Proof.
  intros Hc. unfold is_scalar in Hc. unfold utf16_of_code_point.
  destruct (Z.ltb_spec c 0x10000) as [Hlt | Hge]; cbn [app].
  - assert (Hh : is_high_surrogate c = false)
      by (unfold is_high_surrogate; apply andb_false_iff;
          rewrite Z.leb_gt, Z.leb_gt; lia).
    assert (Hl : is_low_surrogate c = false)
      by (unfold is_low_surrogate; apply andb_false_iff;
          rewrite Z.leb_gt, Z.leb_gt; lia).
    assert (Hu : is_code_unit c = true)
      by (unfold is_code_unit; apply andb_true_iff;
          rewrite Z.leb_le, Z.ltb_lt; lia).
    rewrite code_points_cons, well_formed_cons, Hh, Hl, Hu.
    split; reflexivity.
  - set (hi := 0xD800 + (c - 0x10000) / 0x400).
    set (lo := 0xDC00 + (c - 0x10000) mod 0x400).
    assert (Hhi : 0xD800 <= hi <= 0xDBFF)
      by (subst hi; Z.div_mod_to_equations; lia).
    assert (Hlo : 0xDC00 <= lo <= 0xDFFF)
      by (subst lo; Z.div_mod_to_equations; lia).
    assert (Hh : is_high_surrogate hi = true)
      by (unfold is_high_surrogate; apply andb_true_iff;
          rewrite !Z.leb_le; lia).
    assert (Hl : is_low_surrogate lo = true)
      by (unfold is_low_surrogate; apply andb_true_iff;
          rewrite !Z.leb_le; lia).
    assert (Hu : is_code_unit hi = true)
      by (unfold is_code_unit; apply andb_true_iff;
          rewrite Z.leb_le, Z.ltb_lt; lia).
    rewrite code_points_cons, well_formed_cons, Hh, Hl, Hu.
    split; [|reflexivity]. f_equal.
    subst hi lo. Z.div_mod_to_equations. lia.
Qed.

Lemma utf16_of_scalars cps :
  Forall is_scalar cps ->
  code_points (flat_map utf16_of_code_point cps) = cps /\
  well_formed (flat_map utf16_of_code_point cps) = true.
Proof.
  induction 1 as [|c cps Hc _ [IH1 IH2]]; [split; reflexivity|].
  cbn [flat_map].
  destruct (utf16_of_scalar c (flat_map utf16_of_code_point cps) Hc)
    as [-> ->].
  now rewrite IH1.
Qed.

(** What is read back of a string is well formed and has the UTF-8 bytes
    of the string. *)
Lemma reread_canonical s :
  code_units s = true ->
  well_formed (reread s) = true /\ utf8_encode (reread s) = utf8_encode s.
Proof.
  intros Hs. apply code_points_of_code_units in Hs.
  unfold reread, utf8_decode. unfold utf8_encode at 1 3.
  rewrite <- (app_nil_r (flat_map utf8_of_code_point (code_points s))).
  rewrite decoder_run_scalars by assumption.
  cbn [decoder_run decoder_init bytes_needed]. rewrite !app_nil_r.
  destruct (utf16_of_scalars _ Hs) as [H1 H2].
  split; [assumption|]. unfold utf8_encode. now rewrite H1.
Qed.

Lemma flat_map_pointwise {A B} (f g : A -> list B) l :
  (forall a, In a l -> f a = g a) -> flat_map f l = flat_map g l.
Proof.
  induction l as [|a l IH]; intros H; cbn [flat_map]; [reflexivity|].
  rewrite H, IH; auto using in_eq, in_cons.
Qed.

Lemma reread_input_canonical a :
  forallb code_units (input_strings a) = true ->
  forallb well_formed (input_strings (reread_input a)) = true /\
  input_bytes (reread_input a) = input_bytes a /\
  input_ok (reread_input a) = input_ok a.
Proof.
  destruct a as [[t n] o s].
  unfold input_strings, input_bytes, input_ok, string_bytes, string_ok.
  cbn [forallb reread_input utxoId txId outputIndex owner signature].
  intros H. apply andb_true_iff in H as [Ht H].
  apply andb_true_iff in H as [Ho H]. apply andb_true_iff in H as [Hs _].
  destruct (reread_canonical t Ht) as [-> ->].
  destruct (reread_canonical o Ho) as [-> ->].
  destruct (reread_canonical s Hs) as [-> ->].
  repeat split.
Qed.

Lemma reread_output_canonical a :
  code_units (recipient a) = true ->
  well_formed (recipient (reread_output a)) = true /\
  output_bytes (reread_output a) = output_bytes a /\
  output_ok (reread_output a) = output_ok a.
Proof.
  destruct a as [m r].
  unfold output_bytes, output_ok, string_bytes, string_ok.
  cbn [reread_output amount recipient].
  intros Hr. destruct (reread_canonical r Hr) as [-> ->].
  repeat split.
Qed.

Lemma forallb_map_pointwise {A} (p : A -> bool) (f : A -> A) l :
  (forall a, In a l -> p (f a) = p a) ->
  forallb p (map f l) = forallb p l.
Proof.
  induction l as [|a l IH]; intros H; cbn [map forallb]; [reflexivity|].
  rewrite H, IH; auto using in_eq, in_cons.
Qed.

Lemma flat_map_map_pointwise {A B} (g : A -> list B) (f : A -> A) l :
  (forall a, In a l -> g (f a) = g a) ->
  flat_map g (map f l) = flat_map g l.
Proof.
  induction l as [|a l IH]; intros H; cbn [map flat_map]; [reflexivity|].
  rewrite H, IH; auto using in_eq, in_cons.
Qed.

Lemma reread_transaction_canonical tx :
  strings_of_code_units tx = true ->
  strings_well_formed (reread_transaction tx) = true /\
  layout (reread_transaction tx) = layout tx /\
  within_limits (reread_transaction tx) = within_limits tx.
Proof.
  unfold strings_of_code_units, strings_well_formed, tx_strings.
  cbn [forallb]. rewrite !forallb_app, !forallb_flat_map, !forallb_map.
  intros H. apply andb_true_iff in H as [Hid H].
  apply andb_true_iff in H as [Hins Houts].
  rewrite forallb_forall in Hins, Houts.
  destruct tx as [i ins outs ts].
  unfold reread_transaction, layout, within_limits.
  cbn [id inputs outputs timestamp] in *.
  destruct (reread_canonical i Hid) as [Hw He].
  unfold string_bytes at 1 2. unfold string_ok at 1 2.
  rewrite Hw, He, !length_map. cbn [andb].
  rewrite (flat_map_map_pointwise input_bytes),
          (flat_map_map_pointwise output_bytes),
          (forallb_map_pointwise input_ok),
          (forallb_map_pointwise output_ok).
  2,4: intros a Ha; now apply reread_output_canonical, Houts.
  2,3: intros a Ha; now apply reread_input_canonical, Hins.
  split; [|split; reflexivity].
  apply andb_true_iff. split; apply forallb_forall.
  - intros x Hx. apply in_map_iff in Hx as (a & <- & Ha).
    now apply reread_input_canonical, Hins.
  - intros x Hx. apply in_map_iff in Hx as (a & <- & Ha).
    now apply reread_output_canonical, Houts.
Qed.

(** X13: what [decodeTransaction] returns on an encoded transaction is
    canonical: its strings have no unpaired surrogate, [encodeTransaction]
    gives the same bytes for it as for the transaction that was encoded,
    and decoding these bytes again returns it unchanged. *)
Theorem decoded_is_canonical tx buffer :
  strings_of_code_units tx = true ->
  encodeTransaction tx = Ok buffer ->
  exists decoded,
    decodeTransaction buffer = Ok decoded /\
    strings_well_formed decoded = true /\
    encodeTransaction decoded = Ok buffer /\
    (decoded = tx <-> strings_well_formed tx = true).
Proof.
  intros Hs E. pose proof (encodeTransaction_spec tx) as H.
  rewrite E in H. destruct H as [Hok ->].
  destruct (reread_transaction_canonical tx Hs) as (Hw & Hl & Hlim).
  exists (reread_transaction tx).
  split; [|split; [assumption|split]].
  - rewrite <- (app_nil_r (layout tx)). now apply decodeTransaction_layout.
  - rewrite encodeTransaction_ok by congruence. now rewrite Hl.
  - split; [now intros <- | apply reread_well_formed].
Qed.

Lemma decoded_is_canonical_witness :
  exists decoded,
    decodeTransaction (layout lone_surrogate_tx) = Ok decoded /\
    strings_well_formed decoded = true /\
    encodeTransaction decoded = Ok (layout lone_surrogate_tx) /\
    (decoded = lone_surrogate_tx <->
     strings_well_formed lone_surrogate_tx = true).
Proof.
  apply (decoded_is_canonical lone_surrogate_tx); reflexivity.
Defined.

(** *** Every element of an encoding is a byte *)

Lemma utf8_of_code_point_bytes c :
  is_scalar c -> Forall (fun b => 0 <= b <= 255) (utf8_of_code_point c).
Proof.
  unfold is_scalar, utf8_of_code_point. intros Hc.
  destruct (Z.ltb_spec c 0x80); [|destruct (Z.ltb_spec c 0x800);
    [|destruct (Z.ltb_spec c 0x10000)]];
    repeat (constructor; [Z.div_mod_to_equations; lia|]); constructor.
Qed.

Lemma string_bytes_bytes s :
  code_units s = true -> string_ok s = true ->
  Forall (fun b => 0 <= b <= 255) (string_bytes s).
Proof.
  intros Hs Hok. unfold string_bytes, string_ok in *.
  apply Nat.leb_le in Hok. constructor; [lia|].
  unfold utf8_encode. apply Forall_flat_map.
  eapply List.Forall_impl; [|now apply code_points_of_code_units].
  apply utf8_of_code_point_bytes.
Qed.

Lemma number_bytes_bytes n : Forall (fun b => 0 <= b <= 255) (number_bytes n).
Proof. apply be_bytes_range. Qed.

(** X21: every element of the buffer that [encodeTransaction] returns is
    a byte, from 0 to 255. *)
Theorem encoded_bytes tx buffer :
  strings_of_code_units tx = true ->
  encodeTransaction tx = Ok buffer ->
  Forall (fun b => 0 <= b <= 255) buffer.
Proof.
  intros Hs E. pose proof (encodeTransaction_spec tx) as H.
  rewrite E in H. destruct H as [Hok ->].
  unfold strings_of_code_units, tx_strings in Hs. cbn [forallb] in Hs.
  rewrite forallb_app, forallb_flat_map, forallb_map in Hs.
  apply andb_true_iff in Hs as [Hid Hs].
  apply andb_true_iff in Hs as [Hins Houts].
  rewrite forallb_forall in Hins, Houts.
  unfold within_limits in Hok.
  repeat (apply andb_true_iff in Hok as [Hok ?]).
  repeat match goal with
         | H : (_ <=? _)%nat = true |- _ => apply Nat.leb_le in H
         | H : forallb _ _ = true |- _ => rewrite forallb_forall in H
         end.
  unfold layout. rewrite !Forall_app. repeat split.
  - now apply string_bytes_bytes.
  - apply number_bytes_bytes.
  - constructor; [lia | constructor].
  - apply Forall_flat_map, List.Forall_forall. intros i Hi.
    match goal with
    | H : forall x, In x (inputs tx) -> input_ok x = true |- _ =>
        specialize (H i Hi); unfold input_ok in H;
        repeat (apply andb_true_iff in H as [H ?])
    end.
    specialize (Hins i Hi). unfold input_strings in Hins.
    cbn [forallb] in Hins.
    repeat (apply andb_true_iff in Hins as [? Hins]).
    unfold input_bytes. rewrite !Forall_app. repeat split;
      (now apply string_bytes_bytes) || apply number_bytes_bytes.
  - constructor; [lia | constructor].
  - apply Forall_flat_map, List.Forall_forall. intros o Ho.
    match goal with
    | H : forall x, In x (outputs tx) -> output_ok x = true |- _ =>
        specialize (H o Ho); unfold output_ok in H;
        apply andb_true_iff in H as [? ?]
    end.
    specialize (Houts o Ho).
    unfold output_bytes. apply Forall_app; split;
      [apply number_bytes_bytes | now apply string_bytes_bytes].
Qed.

Lemma encoded_bytes_witness :
  Forall (fun b => 0 <= b <= 255) (layout sample_tx).
Proof.
  apply (encoded_bytes sample_tx); reflexivity.
Defined.

End Canonical.

(** ** The size report *)

Section EfficiencyCoverage.
Import JS Codec Limits Sizes Efficiency Samples.

Variable JSON_stringify : Transaction -> string.
Variable savingsPercent : nat -> nat -> string.

(** X14: [getEncodingEfficiency] turns every failure of
    [encodeTransaction] into a report: the binary size is -1 and the
    savings are the text of the [catch] branch exactly when the transaction
    is beyond a limit of the format; otherwise the binary size is that of
    the layout, at least 11 bytes, and the savings end with a percent
    sign.  The JSON size is reported in both cases. *)
Theorem getEncodingEfficiency_report tx :
  jsonSize (getEncodingEfficiency JSON_stringify savingsPercent tx)
  = Z.of_nat (length (utf8_encode (JSON_stringify tx))) /\
  (within_limits tx = true ->
   binarySize (getEncodingEfficiency JSON_stringify savingsPercent tx)
   = Z.of_nat (transaction_size tx) /\
   11 <= binarySize (getEncodingEfficiency JSON_stringify savingsPercent tx) /\
   savings (getEncodingEfficiency JSON_stringify savingsPercent tx)
   = savingsPercent (length (utf8_encode (JSON_stringify tx)))
                    (transaction_size tx) ++ lit "%") /\
  (within_limits tx = false ->
   binarySize (getEncodingEfficiency JSON_stringify savingsPercent tx) = -1 /\
   savings (getEncodingEfficiency JSON_stringify savingsPercent tx)
   = lit "Not implemented") /\
  (savings (getEncodingEfficiency JSON_stringify savingsPercent tx)
   = lit "Not implemented" <-> within_limits tx = false).
Proof.
  unfold getEncodingEfficiency.
  pose proof (encodeTransaction_spec tx) as H.
  destruct (encodeTransaction tx) as [b|e].
  - destruct H as [Hok ->]. cbn [jsonSize binarySize savings].
    rewrite length_layout.
    split; [reflexivity|]. split; [|split].
    + intros _. split; [reflexivity|]. split; [|reflexivity].
      unfold transaction_size. lia.
    + congruence.
    + split; [|congruence]. intros E. exfalso.
      apply (f_equal (@rev Z)) in E. rewrite rev_app_distr in E.
      discriminate E.
  - destruct H as [Hno _]. cbn [jsonSize binarySize savings].
    split; [reflexivity|]. split; [congruence|]. split; [now intros _|].
    split; auto.
Qed.

End EfficiencyCoverage.

(** ** Bytes and code units *)

Section ByteCoverage.
Import JS Codec Limits Sizes Strings Samples MoreSamples.

Lemma utf8_of_code_point_length c :
  (1 <= length (utf8_of_code_point c) <= 4)%nat /\
  (c < 0x10000 -> (length (utf8_of_code_point c) <= 3)%nat).
Proof.
  unfold utf8_of_code_point.
  destruct (c <? 0x80), (c <? 0x800), (Z.ltb_spec c 0x10000);
    cbn [length]; lia.
Qed.

(** A string has at least as many UTF-8 bytes as code units, and at most
    three times as many. *)
Lemma utf8_encode_length (s : string) :
  (length s <= length (utf8_encode s))%nat /\
  (code_units s = true -> (length (utf8_encode s) <= 3 * length s)%nat).
Proof.
  unfold utf8_encode, code_units.
  induction s as [| u | u v s IHs IHv] using string_pair_ind.
  - cbn. lia.
  - rewrite code_points_cons. cbn [code_points].
    destruct (is_high_surrogate u); [cbn; lia|].
    destruct (is_low_surrogate u); [cbn; lia|].
    cbn [flat_map forallb length]. rewrite app_nil_r.
    pose proof (utf8_of_code_point_length u) as [H1 H2].
    split; [lia|]. intros Hu. rewrite andb_true_r in Hu.
    unfold is_code_unit in Hu. apply andb_true_iff in Hu as [_ Hu].
    apply Z.ltb_lt in Hu. specialize (H2 Hu). lia.
  - rewrite code_points_cons.
    assert (Hsplit : forallb is_code_unit (u :: v :: s) = true ->
                     is_code_unit u = true /\
                     forallb is_code_unit (v :: s) = true /\
                     forallb is_code_unit s = true).
    { cbn [forallb]. intros H. apply andb_true_iff in H as [? H].
      pose proof H as H'. apply andb_true_iff in H as [? ?]. auto. }
    destruct IHs as [IHs1 IHs2], IHv as [IHv1 IHv2].
    destruct (is_high_surrogate u) eqn:Hh;
      [destruct (is_low_surrogate v) eqn:Hl
      |destruct (is_low_surrogate u) eqn:Hl];
      cbn [flat_map]; rewrite length_app; cbn [length] in *.
    + pose proof (utf8_of_code_point_length
                    (65536 + (u - 55296) * 1024 + (v - 56320))) as [H1 _].
      split; [|intros H; apply Hsplit in H as (_ & _ & H);
               specialize (IHs2 H)].
      * enough (length (utf8_of_code_point
                  (65536 + (u - 55296) * 1024 + (v - 56320))) = 4)%nat
          by lia.
        unfold is_high_surrogate, is_low_surrogate in Hh, Hl.
        apply andb_true_iff in Hh as [Hh1 Hh2].
        apply andb_true_iff in Hl as [Hl1 Hl2].
        apply Z.leb_le in Hh1, Hh2, Hl1, Hl2.
        unfold utf8_of_code_point.
        destruct (Z.ltb_spec (65536 + (u - 55296) * 1024 + (v - 56320)) 0x80);
          [lia|].
        destruct (Z.ltb_spec (65536 + (u - 55296) * 1024 + (v - 56320)) 0x800);
          [lia|].
        destruct (Z.ltb_spec (65536 + (u - 55296) * 1024 + (v - 56320)) 0x10000);
          [lia|]. reflexivity.
      * lia.
    + change (length (utf8_of_code_point 65533)) with 3%nat.
      split; [lia|]. intros H. apply Hsplit in H as (_ & H & _).
      specialize (IHv2 H). lia.
    + change (length (utf8_of_code_point 65533)) with 3%nat.
      split; [lia|]. intros H. apply Hsplit in H as (_ & H & _).
      specialize (IHv2 H). lia.
    + pose proof (utf8_of_code_point_length u) as [H1 H2].
      split; [lia|]. intros H. apply Hsplit in H as (Hu & H & _).
      specialize (IHv2 H). unfold is_code_unit in Hu.
      apply andb_true_iff in Hu as [_ Hu]. apply Z.ltb_lt in Hu.
      specialize (H2 Hu). lia.
Qed.

(** X20: the limit of [writeString] is on bytes, not on characters: a
    string of more than 255 code units is always refused, with the
    message of the length check, and a string of at most 85 code units
    is always written. *)
Theorem writeString_code_units (s : string) :
  ((255 < length s)%nat -> writeString s = Throw (Error "String too long")) /\
  (code_units s = true -> (length s <= 85)%nat ->
   writeString s = Ok (string_bytes s)).
Proof.
  pose proof (utf8_encode_length s) as [Hlo Hhi].
  pose proof (writeString_spec s) as H. unfold string_ok in H.
  split.
  - intros Hlong. destruct (writeString s) as [b|e].
    + destruct H as [H _]. apply Nat.leb_le in H. lia.
    + now destruct H as [_ ->].
  - intros Hs Hshort. specialize (Hhi Hs).
    destruct (writeString s) as [b|e].
    + now destruct H as [_ ->].
    + destruct H as [H _]. apply Nat.leb_gt in H. lia.
Qed.

Lemma writeString_code_units_witness :
  writeString (repeat 0x61 256) = Throw (Error "String too long") /\
  writeString (repeat 0xD800 85) = Ok (string_bytes (repeat 0xD800 85)).
Proof.
  split.
  - apply (writeString_code_units (repeat 0x61 256)).
    rewrite repeat_length. lia.
  - apply (writeString_code_units (repeat 0xD800 85)); [reflexivity|].
    rewrite repeat_length. lia.
Defined.

End ByteCoverage.

(** ** The errors of a transaction, listed *)

Section ValidatorCoverage.
Import JS Validator ValidatorSpec Findings.

Variable getUTXO : string -> number -> option UTXO.
Variable verify : string -> string -> string -> bool.
Variable getUTXOKey : UTXOId -> string.
Variable toString : float -> string.
Variable JSON_stringify : json -> string.

Local Abbreviation body :=
  (validateTransaction_body getUTXO verify getUTXOKey toString JSON_stringify).
Local Abbreviation loop :=
  (validateTransaction_loop getUTXO verify getUTXOKey toString JSON_stringify).
Local Abbreviation validate :=
  (validateTransaction getUTXO verify getUTXOKey toString JSON_stringify).
Local Abbreviation data := (createTransactionDataForSigning_ JSON_stringify).
Local Abbreviation seen before :=
  (list_to_set (C := gset string) (keys getUTXOKey (resolved getUTXO before))).
Local Abbreviation listed :=
  (findings getUTXO verify getUTXOKey toString JSON_stringify).
Local Abbreviation listed_inputs :=
  (inputs_findings getUTXO verify getUTXOKey toString JSON_stringify).
Local Abbreviation listed_input :=
  (input_findings getUTXO verify getUTXOKey toString JSON_stringify).

Lemma validateBalance_loop_listing outs : forall errors total,
  validateBalance_loop toString outs errors total
  = (errors ++ flat_map (output_findings toString) outs,
     sum_from total (map amount outs)).
Proof.
  induction outs as [|o outs IH]; intros errors total;
    cbn [validateBalance_loop flat_map map sum_from fold_left].
  - now rewrite app_nil_r.
  - rewrite IH. unfold output_findings at 2.
    fold (sum_from (add total (amount o)) (map amount outs)).
    destruct (le_zero (amount o)); [rewrite <- app_assoc|]; reflexivity.
Qed.

Lemma validateBalance_listing total tx :
  validateBalance toString total tx
  = flat_map (output_findings toString) (outputs tx)
    ++ balance_finding toString total (outputs tx).
Proof.
  unfold validateBalance, balance_finding.
  rewrite validateBalance_loop_listing. cbn [app].
  fold (computed_total (map amount (outputs tx))).
  destruct (strict_neq total (computed_total (map amount (outputs tx))));
    [reflexivity | now rewrite app_nil_r].
Qed.

Lemma resolved_snoc before input :
  resolved getUTXO (before ++ [input])
  = resolved getUTXO before
    ++ (if resolves getUTXO input then [input] else []).
Proof.
  unfold resolved. rewrite List.filter_app. cbn [List.filter].
  now destruct (resolves getUTXO input).
Qed.

Lemma seen_snoc before input :
  seen (before ++ [input])
  = if resolves getUTXO input
    then {[ getUTXOKey (utxoId input) ]} ∪ seen before
    else seen before.
Proof.
  rewrite resolved_snoc. unfold keys. rewrite map_app, list_to_set_app_L.
  destruct (resolves getUTXO input); cbn [map list_to_set].
  - now rewrite (right_id_L ∅ (∪)), (comm_L (∪)).
  - now rewrite (right_id_L ∅ (∪)).
Qed.

Lemma body_listing tx before input st :
  utxos st = seen before ->
  body tx input st
  = mkState (st_errors st ++ listed_input tx before input)
            (sum_from (imputTotal st) (input_amounts getUTXO input))
            (seen (before ++ [input])).
Proof.
  intros Hseen. rewrite seen_snoc.
  unfold validateTransaction_body, input_findings, input_amounts,
    validateInputSignature, validateDoubleSpending, spent_before, resolves.
  destruct (getUTXO (txId (utxoId input)) (outputIndex (utxoId input)))
    as [u|].
  - rewrite Hseen.
    rewrite (bool_decide_ext
               (getUTXOKey (utxoId input) ∈ seen before)
               (getUTXOKey (utxoId input)
                ∈ keys getUTXOKey (resolved getUTXO before)))
      by apply elem_of_list_to_set.
    destruct (le_zero (utxo_amount u)),
      (verify (data tx) (signature input) (owner input)),
      (bool_decide (getUTXOKey (utxoId input)
                    ∈ keys getUTXOKey (resolved getUTXO before))) eqn:Hin;
      cbn [negb app]; rewrite <- ?app_assoc, ?app_nil_r; cbn [app];
      f_equal.
    all: apply bool_decide_eq_true in Hin; symmetry;
         apply subseteq_union_1_L, singleton_subseteq_l;
         now apply elem_of_list_to_set.
  - rewrite Hseen. reflexivity.
Qed.

Lemma loop_listing tx ins : forall before st,
  utxos st = seen before ->
  loop tx ins st
  = mkState (st_errors st ++ listed_inputs tx before ins)
            (sum_from (imputTotal st) (resolved_amounts getUTXO ins))
            (seen (before ++ ins)).
Proof.
  induction ins as [|input ins IH]; intros before st Hseen;
    cbn [validateTransaction_loop inputs_findings resolved_amounts flat_map].
  - rewrite !app_nil_r, <- Hseen. now destruct st.
  - rewrite (body_listing tx before input st Hseen).
    rewrite (IH (before ++ [input])) by reflexivity.
    cbn [st_errors imputTotal utxos].
    fold (resolved_amounts getUTXO ins).
    rewrite <- !app_assoc, sum_from_app. reflexivity.
Qed.

Lemma validate_listing tx :
  validate tx
  = mkValidationResult (length (listed tx) =? 0)%nat (listed tx).
Proof.
  unfold validateTransaction.
  rewrite (loop_listing tx (inputs tx) []) by reflexivity.
  cbn [st_errors imputTotal]. rewrite validateBalance_listing.
  fold (computed_total (resolved_amounts getUTXO (inputs tx))).
  assert (E : [] ++ validateNonEmptyInputsAndOutputs tx
              = structure_findings tx).
  { unfold validateNonEmptyInputsAndOutputs, structure_findings.
    destruct (length (inputs tx) =? 0)%nat,
      (length (outputs tx) =? 0)%nat; reflexivity. }
  rewrite E. unfold findings. now rewrite <- !app_assoc.
Qed.

(** X15: the errors of [validateTransaction] are, in this order: those of
    the two emptiness checks; for each input in turn, either the one of a
    missing output or those of a non-positive amount, of a refused
    signature and of a key that an earlier input that resolves has; one
    for each non-positive output in turn; and the mismatch of the totals,
    which are those that the program computes, each addition rounded to
    a double.  The set that the loop fills holds the keys of the inputs
    that resolved so far. *)
Theorem errors_in_order tx :
  errors (validateTransaction getUTXO verify getUTXOKey toString
            JSON_stringify tx)
  = findings getUTXO verify getUTXOKey toString JSON_stringify tx /\
  utxos (validateTransaction_loop getUTXO verify getUTXOKey toString
           JSON_stringify tx (inputs tx)
           (mkState ([] ++ validateNonEmptyInputsAndOutputs tx)
                    (Finite (int 0)) ∅))
  = list_to_set (keys getUTXOKey (resolved getUTXO (inputs tx))).
Proof.
  split; [now rewrite validate_listing|].
  now rewrite (loop_listing tx (inputs tx) []).
Qed.

(** *** When a transaction is accepted *)

Lemma le_zero_false n : le_zero n = false <-> (0 < n)%Qc.
Proof.
  unfold le_zero. rewrite bool_decide_eq_false. split.
  - apply Qcnot_le_lt.
  - apply Qclt_not_le.
Qed.

Lemma structure_findings_nil tx :
  structure_findings tx = [] <-> inputs tx <> [] /\ outputs tx <> [].
Proof.
  unfold structure_findings.
  destruct (inputs tx), (outputs tx); cbn [length Nat.eqb app]; split;
    try discriminate; try (intros [? ?]; congruence).
  intros _. split; discriminate.
Qed.

Lemma output_findings_nil outs :
  flat_map (output_findings toString) outs = []
  <-> Forall (fun output => (0 < amount output)%Qc) outs.
Proof.
  induction outs as [|o outs IH]; cbn [flat_map].
  - split; [constructor | reflexivity].
  - unfold output_findings at 1.
    destruct (le_zero (amount o)) eqn:E.
    + split; [discriminate|]. intros H. apply Forall_inv in H.
      apply le_zero_false in H. congruence.
    + cbn [app]. rewrite IH. apply le_zero_false in E.
      split; [now constructor | apply Forall_inv_tail].
Qed.

Lemma balance_finding_nil total outs :
  balance_finding toString total outs = []
  <-> total = computed_total (map amount outs).
Proof.
  unfold balance_finding.
  destruct (strict_neq total (computed_total (map amount outs))) eqn:E.
  - apply strict_neq_true in E. split; [discriminate | now intros ?].
  - apply strict_neq_false in E. split; [now intros _ | reflexivity].
Qed.

(** An input that raises no error of its own. *)
Local Abbreviation sound tx :=
  (fun input =>
     exists utxo,
       getUTXO (txId (utxoId input)) (outputIndex (utxoId input)) = Some utxo
       /\ (0 < utxo_amount utxo)%Qc
       /\ verify (data tx) (signature input) (owner input) = true).

Lemma input_findings_nil tx before input :
  listed_input tx before input = []
  <-> sound tx input /\
      getUTXOKey (utxoId input) ∉ keys getUTXOKey (resolved getUTXO before).
Proof.
  unfold input_findings, spent_before.
  destruct (getUTXO (txId (utxoId input)) (outputIndex (utxoId input)))
    as [u|].
  - split.
    + intros H. apply app_eq_nil in H as [H1 H].
      apply app_eq_nil in H as [H2 H3].
      destruct (le_zero (utxo_amount u)) eqn:E1; [discriminate|].
      destruct (verify (data tx) (signature input) (owner input)) eqn:E2;
        [|discriminate].
      destruct (bool_decide _) eqn:E3 in H3; [discriminate|].
      apply bool_decide_eq_false in E3. apply le_zero_false in E1.
      split; [exists u|]; auto.
    + intros [(u' & [= <-] & Hpos & Hv) Hnew].
      apply le_zero_false in Hpos. rewrite Hpos, Hv.
      now rewrite bool_decide_eq_false_2.
  - split; [discriminate|]. intros [(u & [=] & _) _].
Qed.

Lemma sound_resolves tx input : sound tx input -> resolves getUTXO input = true.
Proof. intros (u & E & _). unfold resolves. now rewrite E. Qed.

Lemma inputs_findings_nil tx ins : forall before,
  listed_inputs tx before ins = []
  <-> Forall (sound tx) ins /\
      (forall input, In input ins ->
         getUTXOKey (utxoId input)
         ∉ keys getUTXOKey (resolved getUTXO before)) /\
      NoDup (keys getUTXOKey ins).
Proof.
  induction ins as [|i ins IH]; intros before; cbn [inputs_findings keys map].
  - split; [|reflexivity]. intros _.
    split; [constructor|]. split; [intros ? []|constructor].
  - fold (keys getUTXOKey ins).
    assert (Hsnoc : sound tx i -> forall k,
              k ∈ keys getUTXOKey (resolved getUTXO (before ++ [i]))
              <-> k ∈ keys getUTXOKey (resolved getUTXO before)
                  \/ k = getUTXOKey (utxoId i)).
    { intros Hi k. rewrite resolved_snoc, (sound_resolves tx i Hi).
      unfold keys. rewrite map_app, elem_of_app. cbn [map].
      now rewrite list_elem_of_singleton. }
    assert (Hnotin : getUTXOKey (utxoId i) ∉ keys getUTXOKey ins
                     <-> forall input, In input ins ->
                           getUTXOKey (utxoId input)
                           <> getUTXOKey (utxoId i)).
    { rewrite list_elem_of_In. unfold keys. rewrite in_map_iff. split.
      - intros H input Hin E. apply H. now exists input.
      - intros H (input & E & Hin). now apply (H input). }
    rewrite NoDup_cons, Hnotin. split.
    + intros H. apply app_eq_nil in H as [Hi H].
      apply input_findings_nil in Hi as [Hi Hnew].
      apply IH in H as (Hall & Hkeys & Hdup).
      split; [now constructor|]. split; [|split; [|assumption]].
      * intros input [<-|Hin]; [assumption|].
        intros Hk. apply (Hkeys input Hin). apply (Hsnoc Hi). now left.
      * intros input Hin E. apply (Hkeys input Hin).
        apply (Hsnoc Hi). now right.
    + intros (Hall & Hkeys & Hne & Hdup).
      pose proof (Forall_inv Hall) as Hi. apply Forall_inv_tail in Hall.
      apply app_nil; split.
      * apply input_findings_nil. split; [assumption|].
        apply Hkeys. now left.
      * apply IH. split; [assumption|]. split; [|assumption].
        intros input Hin Hk. apply (Hsnoc Hi) in Hk as [Hk|Hk].
        -- now apply (Hkeys input (or_intror Hin)).
        -- now apply (Hne input Hin).
Qed.

(** X16: [validateTransaction] accepts a transaction exactly when it has
    an input and an output, every input refers to an output of the store
    that holds more than nothing and has a signature that [verify]
    accepts on the signed payload for its owner, no two inputs have the
    same key, every output has an amount over zero, and the total of the
    amounts of the referred outputs is the total of the amounts of the
    outputs, both as the program computes them: added in order, each
    addition rounded to a double. *)
Theorem accepted_iff tx :
  valid (validateTransaction getUTXO verify getUTXOKey toString
           JSON_stringify tx) = true
  <-> inputs tx <> [] /\ outputs tx <> [] /\
      Forall (fun input =>
                exists utxo,
                  getUTXO (txId (utxoId input)) (outputIndex (utxoId input))
                  = Some utxo
                  /\ (0 < utxo_amount utxo)%Qc
                  /\ verify (createTransactionDataForSigning_ JSON_stringify tx)
                            (signature input) (owner input) = true)
             (inputs tx) /\
      NoDup (keys getUTXOKey (inputs tx)) /\
      Forall (fun output => (0 < amount output)%Qc) (outputs tx) /\
      computed_total (resolved_amounts getUTXO (inputs tx))
      = computed_total (map amount (outputs tx)).
Proof.
  rewrite validate_listing. cbn [valid].
  rewrite Nat.eqb_eq, length_zero_iff_nil. unfold findings.
  rewrite !app_nil, structure_findings_nil, inputs_findings_nil,
    output_findings_nil, balance_finding_nil.
  split.
  - intros ((? & ?) & (? & _ & ?) & ? & ?). auto 10.
  - intros (? & ? & ? & ? & ? & ?).
    split; [auto|]. split; [|auto].
    split; [assumption|]. split; [|assumption].
    intros input _ Hk. cbn in Hk. now apply elem_of_nil in Hk.
Qed.

(** *** How many errors of each kind *)

Lemma count_code_input c tx before input :
  count_code c (listed_input tx before input) =
  match c with
  | UTXO_NOT_FOUND => if resolves getUTXO input then 0 else 1
  | NEGATIVE_AMOUNT => if non_positive getUTXO input then 1 else 0
  | INVALID_SIGNATURE =>
      if badly_signed getUTXO verify JSON_stringify tx input then 1 else 0
  | DOUBLE_SPENDING =>
      if resolves getUTXO input
         && spent_before getUTXO getUTXOKey before input
      then 1 else 0
  | _ => 0
  end%nat.
Proof.
  unfold input_findings, resolves, non_positive, badly_signed, resolves.
  destruct (getUTXO (txId (utxoId input)) (outputIndex (utxoId input)))
    as [u|]; [|now destruct c].
  destruct (le_zero (utxo_amount u)),
    (verify (data tx) (signature input) (owner input)),
    (spent_before getUTXO getUTXOKey before input);
    now destruct c.
Qed.

Lemma count_code_inputs c (p : TransactionInput -> bool) tx ins :
  (forall before input,
     count_code c (listed_input tx before input)
     = if p input then 1%nat else 0%nat) ->
  forall before,
    count_code c (listed_inputs tx before ins) = length (List.filter p ins).
Proof.
  intros Hp. induction ins as [|i ins IH]; intros before;
    cbn [inputs_findings List.filter]; [reflexivity|].
  rewrite count_code_app, Hp, IH.
  now destruct (p i).
Qed.

Lemma length_filter_false {A} (l : list A) :
  length (List.filter (fun _ => false) l) = 0%nat.
Proof. now induction l. Qed.

Lemma count_code_outputs c outs :
  count_code c (flat_map (output_findings toString) outs) =
  match c with
  | NEGATIVE_AMOUNT =>
      length (List.filter (fun output => le_zero (amount output)) outs)
  | _ => 0%nat
  end.
Proof.
  induction outs as [|o outs IH]; cbn [flat_map List.filter];
    [now destruct c|].
  rewrite count_code_app, IH. unfold output_findings.
  destruct (le_zero (amount o)); now destruct c.
Qed.

Lemma count_code_structure c tx :
  count_code c (structure_findings tx) =
  match c with
  | EMPTY_INPUTS => if (length (inputs tx) =? 0)%nat then 1 else 0
  | EMPTY_OUTPUTS => if (length (outputs tx) =? 0)%nat then 1 else 0
  | _ => 0
  end%nat.
Proof.
  unfold structure_findings.
  destruct (length (inputs tx) =? 0)%nat, (length (outputs tx) =? 0)%nat;
    now destruct c.
Qed.

Lemma count_code_balance c total outs :
  count_code c (balance_finding toString total outs) =
  match c with
  | AMOUNT_MISMATCH =>
      if strict_neq total (computed_total (map amount outs)) then 1 else 0
  | _ => 0
  end%nat.
Proof.
  unfold balance_finding.
  destruct (strict_neq total (computed_total (map amount outs)));
    now destruct c.
Qed.

(** X17: the errors of [validateTransaction] have one [EMPTY_INPUTS] when
    there is no input and one [EMPTY_OUTPUTS] when there is no output; one
    [UTXO_NOT_FOUND] for each input that the store does not resolve; one
    [INVALID_SIGNATURE] for each input that resolves and whose signature
    is refused, so that the signature of an input that does not resolve is
    not looked at; one [NEGATIVE_AMOUNT] for each input whose output holds
    nothing or less and for each output with such an amount; and one
    [AMOUNT_MISMATCH] when the totals that the program computes, each
    addition rounded to a double, differ. *)
Theorem error_census tx :
  let es :=
    errors (validateTransaction getUTXO verify getUTXOKey toString
              JSON_stringify tx) in
  count_code EMPTY_INPUTS es
  = (if (length (inputs tx) =? 0)%nat then 1 else 0)%nat /\
  count_code EMPTY_OUTPUTS es
  = (if (length (outputs tx) =? 0)%nat then 1 else 0)%nat /\
  count_code UTXO_NOT_FOUND es
  = length (List.filter (fun input => negb (resolves getUTXO input))
                        (inputs tx)) /\
  count_code INVALID_SIGNATURE es
  = length (List.filter (badly_signed getUTXO verify JSON_stringify tx)
                        (inputs tx)) /\
  count_code NEGATIVE_AMOUNT es
  = (length (List.filter (non_positive getUTXO) (inputs tx))
     + length (List.filter (fun output => le_zero (amount output))
                           (outputs tx)))%nat /\
  count_code AMOUNT_MISMATCH es
  = (if strict_neq (computed_total (resolved_amounts getUTXO (inputs tx)))
                   (computed_total (map amount (outputs tx)))
     then 1 else 0)%nat.
Proof.
  cbv zeta. rewrite validate_listing. cbn [errors]. unfold findings.
  repeat split;
    rewrite !count_code_app, count_code_structure, count_code_outputs,
      count_code_balance.
  - rewrite (count_code_inputs _ (fun _ => false)), length_filter_false;
      [lia|].
    intros. now rewrite count_code_input.
  - rewrite (count_code_inputs _ (fun _ => false)), length_filter_false;
      [lia|].
    intros. now rewrite count_code_input.
  - rewrite (count_code_inputs _ (fun input => negb (resolves getUTXO input)));
      [lia|].
    intros. rewrite count_code_input. now destruct (resolves getUTXO input).
  - rewrite (count_code_inputs _ (badly_signed getUTXO verify JSON_stringify tx));
      [lia|].
    intros. now rewrite count_code_input.
  - rewrite (count_code_inputs _ (non_positive getUTXO)); [lia|].
    intros. now rewrite count_code_input.
  - rewrite (count_code_inputs _ (fun _ => false)), length_filter_false;
      [lia|].
    intros. now rewrite count_code_input.
Qed.

Lemma size_seen_snoc before input :
  (size (seen (before ++ [input]))
   + (if resolves getUTXO input
         && spent_before getUTXO getUTXOKey before input
      then 1 else 0)
   = size (seen before) + (if resolves getUTXO input then 1 else 0))%nat.
Proof.
  rewrite seen_snoc. unfold spent_before.
  destruct (resolves getUTXO input); cbn [andb]; [|lia].
  destruct (bool_decide _) eqn:Hin.
  - apply bool_decide_eq_true in Hin.
    rewrite (subseteq_union_1_L {[getUTXOKey (utxoId input)]} (seen before));
      [lia|].
    now apply singleton_subseteq_l, elem_of_list_to_set.
  - apply bool_decide_eq_false in Hin.
    rewrite size_union, size_singleton; [lia|].
    apply disjoint_singleton_l. now rewrite elem_of_list_to_set.
Qed.

Lemma count_double_spending tx ins : forall before,
  (count_code DOUBLE_SPENDING (listed_inputs tx before ins)
   + size (seen (before ++ ins))
   = size (seen before) + length (resolved getUTXO ins))%nat.
Proof.
  induction ins as [|i ins IH]; intros before;
    cbn [inputs_findings].
  - rewrite app_nil_r. cbn. lia.
  - rewrite count_code_app, count_code_input.
    specialize (IH (before ++ [i])). rewrite <- app_assoc in IH.
    cbn [app] in IH. pose proof (size_seen_snoc before i) as Hs.
    change (resolved getUTXO (i :: ins))
      with (if resolves getUTXO i then i :: resolved getUTXO ins
            else resolved getUTXO ins).
    destruct (resolves getUTXO i); cbn [length andb] in *; lia.
Qed.

(** X18: [validateTransaction] reports [DOUBLE_SPENDING] once for each
    input that resolves beyond the first of its key: the reports and the
    distinct keys of the inputs that resolve add up to the number of
    these inputs.  An input that the store does not have is counted on
    neither side. *)
Theorem double_spending_count tx :
  (count_code DOUBLE_SPENDING
     (errors (validateTransaction getUTXO verify getUTXOKey toString
                JSON_stringify tx))
   + size (list_to_set (C := gset string)
             (keys getUTXOKey (resolved getUTXO (inputs tx))))
   = length (resolved getUTXO (inputs tx)))%nat.
Proof.
  rewrite validate_listing. cbn [errors]. unfold findings.
  rewrite !count_code_app, count_code_structure, count_code_outputs,
    count_code_balance.
  pose proof (count_double_spending tx (inputs tx) []) as H.
  cbn [app] in H. change (size (seen [])) with (size (∅ : gset string)) in H.
  rewrite size_empty in H. lia.
Qed.

(** X22: when the amounts that the inputs bring and the amounts of the
    outputs are integers whose sums, one amount after the other, stay
    below [2^53] in absolute value, no addition of [validateTransaction]
    rounds: the two totals are the exact sums, and [AMOUNT_MISMATCH] is
    reported exactly when the exact sums differ. *)
Theorem exact_balance tx :
  safe_integers (resolved_amounts getUTXO (inputs tx)) = true ->
  safe_integers (map amount (outputs tx)) = true ->
  inputsTotal getUTXO verify getUTXOKey toString JSON_stringify tx
  = Finite (resolved_total getUTXO (inputs tx)) /\
  computed_total (map amount (outputs tx))
  = Finite (outputs_total (outputs tx)) /\
  ((exists e,
      In e (errors (validateTransaction getUTXO verify getUTXOKey toString
                      JSON_stringify tx)) /\
      code e = AMOUNT_MISMATCH)
   <-> resolved_total getUTXO (inputs tx) <> outputs_total (outputs tx)).
Proof.
  intros Hi Ho. split; [|split].
  - rewrite inputsTotal_resolved, (computed_total_safe _ Hi).
    now rewrite resolved_total_exact.
  - rewrite (computed_total_safe _ Ho). now rewrite outputs_total_exact.
  - now apply mismatch_iff_exact.
Qed.

End ValidatorCoverage.

(** ** What the validator takes from its collaborators *)

Section ValidatorFootprint.
Import JS Validator ValidatorSpec Findings Samples StoreSamples.

Variable getUTXOKey : UTXOId -> string.
Variable toString : float -> string.
Variable JSON_stringify : json -> string.

Lemma body_footprint getUTXO getUTXO' verify verify' tx input st :
  option_map utxo_amount
    (getUTXO (txId (utxoId input)) (outputIndex (utxoId input)))
  = option_map utxo_amount
      (getUTXO' (txId (utxoId input)) (outputIndex (utxoId input))) ->
  (resolves getUTXO input = true ->
   verify (createTransactionDataForSigning_ JSON_stringify tx)
          (signature input) (owner input)
   = verify' (createTransactionDataForSigning_ JSON_stringify tx)
             (signature input) (owner input)) ->
  validateTransaction_body getUTXO verify getUTXOKey toString JSON_stringify
    tx input st
  = validateTransaction_body getUTXO' verify' getUTXOKey toString
      JSON_stringify tx input st.
Proof.
  unfold validateTransaction_body, validateInputSignature, resolves.
  destruct (getUTXO (txId (utxoId input)) (outputIndex (utxoId input)))
    as [u|],
    (getUTXO' (txId (utxoId input)) (outputIndex (utxoId input)))
    as [u'|]; cbn [option_map]; intros [=] Hv; [|reflexivity].
  rewrite (Hv eq_refl). now replace (utxo_amount u') with (utxo_amount u).
Qed.

Lemma loop_footprint getUTXO getUTXO' verify verify' tx ins : forall st,
  (forall input, In input ins ->
     option_map utxo_amount
       (getUTXO (txId (utxoId input)) (outputIndex (utxoId input)))
     = option_map utxo_amount
         (getUTXO' (txId (utxoId input)) (outputIndex (utxoId input)))) ->
  (forall input, In input ins -> resolves getUTXO input = true ->
     verify (createTransactionDataForSigning_ JSON_stringify tx)
            (signature input) (owner input)
     = verify' (createTransactionDataForSigning_ JSON_stringify tx)
               (signature input) (owner input)) ->
  validateTransaction_loop getUTXO verify getUTXOKey toString JSON_stringify
    tx ins st
  = validateTransaction_loop getUTXO' verify' getUTXOKey toString
      JSON_stringify tx ins st.
Proof.
  induction ins as [|i ins IH]; intros st Hs Hv;
    cbn [validateTransaction_loop]; [reflexivity|].
  rewrite (body_footprint getUTXO getUTXO' verify verify' tx i st)
    by auto using in_eq.
  apply IH; auto using in_cons.
Qed.

(** X19: [validateTransaction] takes from the store only whether it has
    the output of each input and the amount of that output, and from
    [verify] only its answers for the inputs that the store has: with
    another store that agrees on these, whatever the recipients and the
    identifiers of its outputs, and another verifier that agrees on these
    inputs, the result is the same.  The owner of an input is not compared
    with the recipient of the output it spends. *)
Theorem collaborators_footprint getUTXO getUTXO' verify verify' tx :
  (forall input, In input (inputs tx) ->
     option_map utxo_amount
       (getUTXO (txId (utxoId input)) (outputIndex (utxoId input)))
     = option_map utxo_amount
         (getUTXO' (txId (utxoId input)) (outputIndex (utxoId input)))) ->
  (forall input, In input (inputs tx) -> resolves getUTXO input = true ->
     verify (createTransactionDataForSigning_ JSON_stringify tx)
            (signature input) (owner input)
     = verify' (createTransactionDataForSigning_ JSON_stringify tx)
               (signature input) (owner input)) ->
  validateTransaction getUTXO verify getUTXOKey toString JSON_stringify tx
  = validateTransaction getUTXO' verify' getUTXOKey toString JSON_stringify
      tx.
Proof.
  intros Hs Hv. unfold validateTransaction.
  now rewrite (loop_footprint getUTXO getUTXO' verify verify' tx (inputs tx)).
Qed.

End ValidatorFootprint.

Section ValidatorCoverageWitnesses.
Import JS Validator ValidatorSpec Findings Samples StoreSamples.

Lemma accepted_iff_witness : valid (sample_validate (spend 100)) = true.
Proof.
  apply (accepted_iff sample_getUTXO sample_verify sample_getUTXOKey
           sample_toString sample_stringify (spend 100)).
  split; [discriminate|]. split; [discriminate|]. split.
  { constructor; [|constructor]. eexists.
    split; [reflexivity|]. split; reflexivity. }
  split; [apply NoDup_singleton|].
  split; [constructor; [reflexivity|constructor]|].
  reflexivity.
Defined.

Lemma exact_balance_witness :
  inputsTotal sample_getUTXO sample_verify sample_getUTXOKey sample_toString
    sample_stringify (spend 90)
  = Finite (int 100 + 0)%Qc /\
  count_code AMOUNT_MISMATCH (errors (sample_validate (spend 90))) = 1%nat.
Proof.
  destruct (exact_balance sample_getUTXO sample_verify sample_getUTXOKey
              sample_toString sample_stringify (spend 90))
    as (H & _ & _); [reflexivity | reflexivity |].
  split; [exact H | reflexivity].
Defined.

Lemma collaborators_footprint_witness :
  sample_validate spend_nobody
  = validateTransaction relabelled_getUTXO wary_verify sample_getUTXOKey
      sample_toString sample_stringify spend_nobody.
Proof.
  apply (collaborators_footprint sample_getUTXOKey sample_toString
           sample_stringify sample_getUTXO relabelled_getUTXO
           sample_verify wary_verify spend_nobody).
  - intros input [<-|[<-|[]]]; reflexivity.
  - intros input [<-|[<-|[]]]; [reflexivity | discriminate].
Defined.

End ValidatorCoverageWitnesses.
